(** * MyShoal: a flocking (boids) simulation, shallow embedding and properties

    The development embeds [src/pw2/animals/MyShoal.js].  JavaScript numbers
    are idealised as real numbers ([R]): [Math.sqrt], [Math.cos], [Math.sin]
    and [Math.PI] are the real functions and constant; comparisons are
    decided with [Rlt_dec] and friends.  Division by zero, [NaN] and
    [Infinity] are outside this idealisation ([/ 0 = 0] in [R]); statements
    that depend on a divisor say that it is non-zero.

    The struct-of-arrays layout of the class (parallel arrays indexed by
    fish) is kept: every track is a [list] read with [!!!] and written with
    [<[i := v]>]. *)

From Stdlib Require Import String.
From stdpp Require Import list.
From Stdlib Require Import Reals Lra Lia.

#[local] Open Scope R_scope.

(** ** Comparisons of numbers as booleans *)

Definition Rltb (a b : R) : bool := if Rlt_dec a b then true else false.
Definition Rleb (a b : R) : bool := if Rle_dec a b then true else false.
Definition Reqb (a b : R) : bool := if Req_dec_T a b then true else false.

(** ** The parts of three.js the class uses

    [THREE.Vector3] and [THREE.Box3] come from the three.js library, which
    is imported by the class and is not part of the repository; the
    operations below follow the library's definitions (for instance
    [normalize] is [divideScalar (length || 1)] and [clampLength] is
    [divideScalar (length || 1)] followed by
    [multiplyScalar (max min (min max length))]).  Methods that mutate
    their receiver return the new value here. *)

Module THREE.

Record Vector3 : Type := Vec3 { x : R; y : R; z : R }.

Definition zero : Vector3 := Vec3 0 0 0.

Definition add (a b : Vector3) : Vector3 :=
  Vec3 (x a + x b) (y a + y b) (z a + z b).

Definition subVectors (a b : Vector3) : Vector3 :=
  Vec3 (x a - x b) (y a - y b) (z a - z b).

Definition sub (a b : Vector3) : Vector3 := subVectors a b.

Definition multiplyScalar (a : Vector3) (s : R) : Vector3 :=
  Vec3 (x a * s) (y a * s) (z a * s).

Definition divideScalar (a : Vector3) (s : R) : Vector3 :=
  multiplyScalar a (1 / s).

Definition addScaledVector (a v : Vector3) (s : R) : Vector3 :=
  Vec3 (x a + x v * s) (y a + y v * s) (z a + z v * s).

Definition lengthSq (a : Vector3) : R := x a * x a + y a * y a + z a * z a.

Definition length (a : Vector3) : R := sqrt (lengthSq a).

(** The JavaScript idiom [n || 1] on a number. *)
Definition orOne (n : R) : R := if Reqb n 0 then 1 else n.

Definition normalize (a : Vector3) : Vector3 := divideScalar a (orOne (length a)).

Definition setLength (a : Vector3) (l : R) : Vector3 := multiplyScalar (normalize a) l.

Definition clampLength (a : Vector3) (lo hi : R) : Vector3 :=
  multiplyScalar (divideScalar a (orOne (length a))) (Rmax lo (Rmin hi (length a))).

Definition distanceTo (a b : Vector3) : R := length (subVectors a b).

Definition setX (a : Vector3) (v : R) : Vector3 := Vec3 v (y a) (z a).
Definition setY (a : Vector3) (v : R) : Vector3 := Vec3 (x a) v (z a).
Definition setZ (a : Vector3) (v : R) : Vector3 := Vec3 (x a) (y a) v.

(** [Math.sign]. *)
Definition sign (v : R) : R := if Rltb 0 v then 1 else if Rltb v 0 then -1 else 0.

Record Box3 : Type := Box { min : Vector3; max : Vector3 }.

Definition expandByScalar (b : Box3) (s : R) : Box3 :=
  Box (Vec3 (x (min b) - s) (y (min b) - s) (z (min b) - s))
      (Vec3 (x (max b) + s) (y (max b) + s) (z (max b) + s)).

Definition isEmpty (b : Box3) : bool :=
  Rltb (x (max b)) (x (min b)) || Rltb (y (max b)) (y (min b))
  || Rltb (z (max b)) (z (min b)).

Definition clampPoint (b : Box3) (p : Vector3) : Vector3 :=
  Vec3 (Rmax (x (min b)) (Rmin (x (max b)) (x p)))
       (Rmax (y (min b)) (Rmin (y (max b)) (y p)))
       (Rmax (z (min b)) (Rmin (z (max b)) (z p))).

Definition distanceToPoint (b : Box3) (p : Vector3) : R :=
  distanceTo (clampPoint b p) p.

Definition containsPoint (b : Box3) (p : Vector3) : bool :=
  negb (Rltb (x p) (x (min b)) || Rltb (x (max b)) (x p)
        || Rltb (y p) (y (min b)) || Rltb (y (max b)) (y p)
        || Rltb (z p) (z (min b)) || Rltb (z (max b)) (z p)).

Definition getCenter (b : Box3) : Vector3 :=
  if isEmpty b then zero else multiplyScalar (add (min b) (max b)) 0.5.

Definition getSize (b : Box3) : Vector3 :=
  if isEmpty b then zero else subVectors (max b) (min b).

End THREE.

#[global] Instance Vector3_inhabited : Inhabited THREE.Vector3 := populate THREE.zero.
#[global] Instance R_inhabited : Inhabited R := populate 0.

Abbreviation Vector3 := THREE.Vector3.
Abbreviation Vec3 := THREE.Vec3.

(** ** Configuration ([this.options])

    The numeric fields of the options object.  [terrain] and [temple] are
    kept in the shoal itself ([this.terrain], [this.temple]); the colour
    and material fields only reach the renderer, and [useBVH] and
    [bvhUpdateFrequency] are copied into fields of the shoal by the
    constructor. *)

Record Options : Type := {
  separationDistance : R;
  alignmentDistance : R;
  cohesionDistance : R;
  separationWeight : R;
  alignmentWeight : R;
  cohesionWeight : R;
  maxSpeed : R;
  maxForce : R;
  wanderStrength : R;
  dangerDetectionDistance : R;
  dangerEvasionDistance : R;
  dangerEvasionWeight : R;
  panicSpeedMultiplier : R;
  panicDuration : R;
  boundsWeight : R;
  boundsMargin : R;
  areaSize : R;
  height : R;
  terrainMargin : R;
  fishCount : nat;
  sizeVariation : R;
  colorVariation : R;
  fishScale : R
}.

(** The defaults of [_initializeOptions]. *)
Definition defaults : Options := {|
  separationDistance := 15;
  alignmentDistance := 40;
  cohesionDistance := 50;
  separationWeight := 3;
  alignmentWeight := 1;
  cohesionWeight := 3;
  maxSpeed := 80;
  maxForce := 5;
  wanderStrength := 0.1;
  dangerDetectionDistance := 30;
  dangerEvasionDistance := 25;
  dangerEvasionWeight := 15;
  panicSpeedMultiplier := 5;
  panicDuration := 120;
  boundsWeight := 5;
  boundsMargin := 50;
  areaSize := 200;
  height := 100;
  terrainMargin := 3;
  fishCount := 15;
  sizeVariation := 0.5;
  colorVariation := 0.2;
  fishScale := 1
|}.

(** ** The ambient random source

    [Math.random] is a stream of draws with a cursor: each call returns
    the draw under the cursor and advances it. *)

Record Rng : Type := { draws : nat -> R; cursor : nat }.

Definition random (g : Rng) : R * Rng :=
  (draws g (cursor g), {| draws := draws g; cursor := S (cursor g) |}).

(** ** Collaborators and the shoal

    A fish visual is reduced to what the simulation touches: its local
    position, its scale and the base size stored in [userData]; the two
    colour draws are recorded as drawn.  Orientation and the swimming
    animation ([_updateRotation], [fish.animate]) write only the visual's
    quaternion and bones and are left out.  The scratch objects of the
    class ([_tempVector] and the like) are overwritten before every read,
    so a value computed into one of them is a local value here.

    A dangerous entity exposes [visible] and its world position.  The
    spatial index of the three-mesh-bvh library is kept abstract: a
    [MeshBVH] remembers the world positions it was built from and answers
    a sphere cast with the triangle indices it visits. *)

Record Fish : Type := {
  position : Vector3;
  scale : R;
  baseSizeScale : R;
  colorDraws : R * R
}.

#[global] Instance Fish_inhabited : Inhabited Fish :=
  populate {| position := THREE.zero; scale := 0; baseSizeScale := 0; colorDraws := (0, 0) |}.

Record Entity : Type := { visible : bool; worldPosition : Vector3 }.

Record MeshBVH : Type := {
  bvhPositions : list Vector3;
  shapecast : Vector3 -> R -> list nat
}.

Record MyShoal : Type := {
  options : Options;
  (* collaborators *)
  terrain : option (R -> R -> R);         (* [getHeightAt(x, z).y], when there is a terrain *)
  temple : option THREE.Box3;             (* world bounds of the temple, when it has children *)
  matrixWorld : Vector3 -> Vector3;       (* local-to-world transform of the group *)
  newMeshBVH : list Vector3 -> MeshBVH;   (* [new MeshBVH(geometry)] *)
  (* arrays for fish data *)
  fishes : list Fish;
  velocities : list Vector3;
  accelerations : list Vector3;
  wanderAngles : list R;
  panicMode : list bool;
  panicTimer : list R;
  dangerousEntities : list Entity;
  (* spatial acceleration *)
  bvhEnabled : bool;
  bvh : option MeshBVH;
  bvhGeometry : option (list Vector3);    (* the geometry's position attribute, one entry per fish *)
  bvhFrameCount : nat;
  bvhUpdateFrequency : nat;
  (* cached temple box *)
  _templeBox : option THREE.Box3;
  (* Math.random *)
  rng : Rng
}.

Definition set_fishes (v : list Fish) (s : MyShoal) : MyShoal :=
  {| options := options s; terrain := terrain s; temple := temple s;
     matrixWorld := matrixWorld s; newMeshBVH := newMeshBVH s;
     fishes := v; velocities := velocities s; accelerations := accelerations s;
     wanderAngles := wanderAngles s; panicMode := panicMode s;
     panicTimer := panicTimer s; dangerousEntities := dangerousEntities s;
     bvhEnabled := bvhEnabled s; bvh := bvh s; bvhGeometry := bvhGeometry s;
     bvhFrameCount := bvhFrameCount s;
     bvhUpdateFrequency := bvhUpdateFrequency s; _templeBox := _templeBox s; rng := rng s |}.

Definition set_velocities (v : list Vector3) (s : MyShoal) : MyShoal :=
  {| options := options s; terrain := terrain s; temple := temple s;
     matrixWorld := matrixWorld s; newMeshBVH := newMeshBVH s;
     fishes := fishes s; velocities := v; accelerations := accelerations s;
     wanderAngles := wanderAngles s; panicMode := panicMode s;
     panicTimer := panicTimer s; dangerousEntities := dangerousEntities s;
     bvhEnabled := bvhEnabled s; bvh := bvh s; bvhGeometry := bvhGeometry s;
     bvhFrameCount := bvhFrameCount s;
     bvhUpdateFrequency := bvhUpdateFrequency s; _templeBox := _templeBox s; rng := rng s |}.

Definition set_accelerations (v : list Vector3) (s : MyShoal) : MyShoal :=
  {| options := options s; terrain := terrain s; temple := temple s;
     matrixWorld := matrixWorld s; newMeshBVH := newMeshBVH s;
     fishes := fishes s; velocities := velocities s; accelerations := v;
     wanderAngles := wanderAngles s; panicMode := panicMode s;
     panicTimer := panicTimer s; dangerousEntities := dangerousEntities s;
     bvhEnabled := bvhEnabled s; bvh := bvh s; bvhGeometry := bvhGeometry s;
     bvhFrameCount := bvhFrameCount s;
     bvhUpdateFrequency := bvhUpdateFrequency s; _templeBox := _templeBox s; rng := rng s |}.

Definition set_wanderAngles (v : list R) (s : MyShoal) : MyShoal :=
  {| options := options s; terrain := terrain s; temple := temple s;
     matrixWorld := matrixWorld s; newMeshBVH := newMeshBVH s;
     fishes := fishes s; velocities := velocities s; accelerations := accelerations s;
     wanderAngles := v; panicMode := panicMode s;
     panicTimer := panicTimer s; dangerousEntities := dangerousEntities s;
     bvhEnabled := bvhEnabled s; bvh := bvh s; bvhGeometry := bvhGeometry s;
     bvhFrameCount := bvhFrameCount s;
     bvhUpdateFrequency := bvhUpdateFrequency s; _templeBox := _templeBox s; rng := rng s |}.

Definition set_panicMode (v : list bool) (s : MyShoal) : MyShoal :=
  {| options := options s; terrain := terrain s; temple := temple s;
     matrixWorld := matrixWorld s; newMeshBVH := newMeshBVH s;
     fishes := fishes s; velocities := velocities s; accelerations := accelerations s;
     wanderAngles := wanderAngles s; panicMode := v;
     panicTimer := panicTimer s; dangerousEntities := dangerousEntities s;
     bvhEnabled := bvhEnabled s; bvh := bvh s; bvhGeometry := bvhGeometry s;
     bvhFrameCount := bvhFrameCount s;
     bvhUpdateFrequency := bvhUpdateFrequency s; _templeBox := _templeBox s; rng := rng s |}.

Definition set_panicTimer (v : list R) (s : MyShoal) : MyShoal :=
  {| options := options s; terrain := terrain s; temple := temple s;
     matrixWorld := matrixWorld s; newMeshBVH := newMeshBVH s;
     fishes := fishes s; velocities := velocities s; accelerations := accelerations s;
     wanderAngles := wanderAngles s; panicMode := panicMode s;
     panicTimer := v; dangerousEntities := dangerousEntities s;
     bvhEnabled := bvhEnabled s; bvh := bvh s; bvhGeometry := bvhGeometry s;
     bvhFrameCount := bvhFrameCount s;
     bvhUpdateFrequency := bvhUpdateFrequency s; _templeBox := _templeBox s; rng := rng s |}.

Definition set_templeBox (v : option THREE.Box3) (s : MyShoal) : MyShoal :=
  {| options := options s; terrain := terrain s; temple := temple s;
     matrixWorld := matrixWorld s; newMeshBVH := newMeshBVH s;
     fishes := fishes s; velocities := velocities s; accelerations := accelerations s;
     wanderAngles := wanderAngles s; panicMode := panicMode s;
     panicTimer := panicTimer s; dangerousEntities := dangerousEntities s;
     bvhEnabled := bvhEnabled s; bvh := bvh s; bvhGeometry := bvhGeometry s;
     bvhFrameCount := bvhFrameCount s;
     bvhUpdateFrequency := bvhUpdateFrequency s; _templeBox := v; rng := rng s |}.

Definition set_rng (v : Rng) (s : MyShoal) : MyShoal :=
  {| options := options s; terrain := terrain s; temple := temple s;
     matrixWorld := matrixWorld s; newMeshBVH := newMeshBVH s;
     fishes := fishes s; velocities := velocities s; accelerations := accelerations s;
     wanderAngles := wanderAngles s; panicMode := panicMode s;
     panicTimer := panicTimer s; dangerousEntities := dangerousEntities s;
     bvhEnabled := bvhEnabled s; bvh := bvh s; bvhGeometry := bvhGeometry s;
     bvhFrameCount := bvhFrameCount s;
     bvhUpdateFrequency := bvhUpdateFrequency s; _templeBox := _templeBox s; rng := v |}.

(** The four fields of the spatial index, written together. *)
Definition set_bvhState (e : bool) (b : option MeshBVH) (g : option (list Vector3)) (c : nat)
    (s : MyShoal) : MyShoal :=
  {| options := options s; terrain := terrain s; temple := temple s;
     matrixWorld := matrixWorld s; newMeshBVH := newMeshBVH s;
     fishes := fishes s; velocities := velocities s; accelerations := accelerations s;
     wanderAngles := wanderAngles s; panicMode := panicMode s;
     panicTimer := panicTimer s; dangerousEntities := dangerousEntities s;
     bvhEnabled := e; bvh := b; bvhGeometry := g;
     bvhFrameCount := c;
     bvhUpdateFrequency := bvhUpdateFrequency s; _templeBox := _templeBox s; rng := rng s |}.

Definition set_dangerousEntities (v : list Entity) (s : MyShoal) : MyShoal :=
  {| options := options s; terrain := terrain s; temple := temple s;
     matrixWorld := matrixWorld s; newMeshBVH := newMeshBVH s;
     fishes := fishes s; velocities := velocities s; accelerations := accelerations s;
     wanderAngles := wanderAngles s; panicMode := panicMode s;
     panicTimer := panicTimer s; dangerousEntities := v;
     bvhEnabled := bvhEnabled s; bvh := bvh s; bvhGeometry := bvhGeometry s;
     bvhFrameCount := bvhFrameCount s;
     bvhUpdateFrequency := bvhUpdateFrequency s; _templeBox := _templeBox s;
     rng := rng s |}.

(** [fish.getWorldPosition(...)]. *)
Definition getWorldPosition (s : MyShoal) (f : Fish) : Vector3 :=
  matrixWorld s (position f).

(** ** Creating fish *)

(** [_createFishInstance]: one draw for the size, two for the colour
    (draws that the constructor of the fish class may take for its own
    visuals are not counted). *)
Definition _createFishInstance (s : MyShoal) : Fish * MyShoal :=
  let '(r1, g) := random (rng s) in
  let sizeScale := 0.8 + (r1 - 0.5) * sizeVariation (options s) in
  let '(r2, g) := random g in
  let hueVariation := (r2 - 0.5) * colorVariation (options s) in
  let '(r3, g) := random g in
  let saturationVariation := (r3 - 0.5) * 0.4 in
  ({| position := THREE.zero;
      scale := sizeScale * THREE.orOne (fishScale (options s));
      baseSizeScale := sizeScale;
      colorDraws := (hueVariation, saturationVariation) |},
   set_rng g s).

Definition deadZoneRadius : R := 120.
Definition maxAttempts : nat := 100.

(** One pass through the body of the [do ... while] of
    [_generateRandomPosition], up to and including the [if ... break]:
    the sampled position, the attempt counter after [attempts++], the
    random source, and whether the [break] is taken. *)
Definition sampleBody (o : Options) (attempts : nat) (g : Rng)
    : Vector3 * nat * Rng * bool :=
  let '(r1, g) := random g in
  let x := (r1 - 0.5) * areaSize o in
  let '(r2, g) := random g in
  let y := (r2 - 0.5) * height o in
  let '(r3, g) := random g in
  let z := (r3 - 0.5) * areaSize o in
  let position := Vec3 x y z in
  let horizontalDistance := sqrt (x * x + z * z) in
  let attempts := S attempts in
  (position, attempts, g,
   Rltb deadZoneRadius horizontalDistance || (maxAttempts <=? attempts)%nat).

(** The loop itself.  The recursion is on [fuel], which bounds the number
    of passes; [None] means the fuel ran out before the loop was left. *)
Fixpoint sampleLoop (fuel : nat) (o : Options) (attempts : nat) (g : Rng)
    : option (Vector3 * nat * Rng) :=
  match fuel with
  | O => None
  | S fuel' =>
      let '(position, attempts, g, break) := sampleBody o attempts g in
      if break then Some (position, attempts, g)
      else if (attempts <? maxAttempts)%nat then sampleLoop fuel' o attempts g
      else Some (position, attempts, g)
  end.

(** [_generateRandomPosition], run with [maxAttempts] passes of fuel (this
    is always enough, see [sampleLoop_enough_fuel]; the [None] branch is
    never taken). *)
Definition _generateRandomPosition (s : MyShoal) : Vector3 * MyShoal :=
  match sampleLoop maxAttempts (options s) 0 (rng s) with
  | Some (position, _, g) => (position, set_rng g s)
  | None => (THREE.zero, s)
  end.

Definition _generateInitialVelocity (s : MyShoal) : Vector3 * MyShoal :=
  let '(r1, g) := random (rng s) in
  let angle := r1 * PI * 2 in
  let '(r2, g) := random g in
  let verticalAngle := (r2 - 0.5) * PI * 0.3 in
  (Vec3 (cos angle * maxSpeed (options s) * 0.3)
        (sin verticalAngle * maxSpeed (options s) * 0.1)
        (sin angle * maxSpeed (options s) * 0.3),
   set_rng g s).

Definition setPosition (p : Vector3) (f : Fish) : Fish :=
  {| position := p; scale := scale f; baseSizeScale := baseSizeScale f;
     colorDraws := colorDraws f |}.

(** [createFish]: every track grows by one entry at its tail. *)
Definition createFish (s : MyShoal) : MyShoal :=
  let '(fish, s) := _createFishInstance s in
  let '(position, s) := _generateRandomPosition s in
  let '(velocity, s) := _generateInitialVelocity s in
  let fish := setPosition position fish in
  let s := set_fishes (fishes s ++ [fish]) s in
  let s := set_velocities (velocities s ++ [velocity]) s in
  let s := set_accelerations (accelerations s ++ [THREE.zero]) s in
  let '(r, g) := random (rng s) in
  let s := set_wanderAngles (wanderAngles s ++ [r * PI * 2]) (set_rng g s) in
  let s := set_panicMode (panicMode s ++ [false]) s in
  let s := set_panicTimer (panicTimer s ++ [0]) s in
  s.

(** [build]: [fishCount] calls of [createFish]. *)
Definition build (s : MyShoal) : MyShoal :=
  Nat.iter (fishCount (options s)) createFish s.

(** ** Population management *)

Definition addFish (count : nat) (s : MyShoal) : MyShoal :=
  Nat.iter count createFish s.

(** [Array.prototype.pop]: drops the last entry, does nothing on []. *)
Definition pop {A : Type} (l : list A) : list A := removelast l.

(** The body of the loop of [removeFish]. *)
Definition popFish (s : MyShoal) : MyShoal :=
  let s := set_fishes (pop (fishes s)) s in
  let s := set_velocities (pop (velocities s)) s in
  let s := set_accelerations (pop (accelerations s)) s in
  let s := set_wanderAngles (pop (wanderAngles s)) s in
  let s := set_panicMode (pop (panicMode s)) s in
  let s := set_panicTimer (pop (panicTimer s)) s in
  s.

Definition removeFish (count : nat) (s : MyShoal) : MyShoal :=
  let removeCount := Nat.min count (length (fishes s)) in
  Nat.iter removeCount popFish s.

(** ** Spatial acceleration *)

(** [updateBVHGeometry]: one (degenerate) triangle per fish, at its world
    position. *)
Definition updateBVHGeometry (s : MyShoal) : MyShoal :=
  match bvhGeometry s with
  | None => s
  | Some _ =>
      if negb (bvhEnabled s) then s
      else
        let positions := map (getWorldPosition s) (fishes s) in
        if (0 <? length positions)%nat then
          set_bvhState (bvhEnabled s) (Some (newMeshBVH s positions))
                       (Some positions) (bvhFrameCount s) s
        else s
  end.

(** How a call ends: it returns, or it throws and leaves the shoal as it
    was at the throw. *)
Inductive Outcome : Type :=
  | Returns (s : MyShoal)
  | Throws (s : MyShoal).

(** [initBVH].  [new THREE.BufferGeometry()] takes four draws from
    [Math.random] for its uuid.  [updateBVHGeometry] then gives the new
    geometry its positions, unless the shoal has no fish or the index is
    disabled; [new MeshBVH] throws on a geometry without positions, and
    the assignment to [this.bvh] is not reached. *)
Definition initBVH (s : MyShoal) : Outcome :=
  let '(_, g) := random (rng s) in
  let '(_, g) := random g in
  let '(_, g) := random g in
  let '(_, g) := random g in
  let s := set_rng g s in
  let s := set_bvhState (bvhEnabled s) (bvh s) (Some []) (bvhFrameCount s) s in
  let s := updateBVHGeometry s in
  match bvhGeometry s with
  | Some (p :: ps) =>
      Returns (set_bvhState (bvhEnabled s) (Some (newMeshBVH s (p :: ps)))
                            (bvhGeometry s) (bvhFrameCount s) s)
  | _ => Throws s
  end.

(** [toggleBVH]: throws when [initBVH] does. *)
Definition toggleBVH (enabled : bool) (s : MyShoal) : Outcome :=
  let s := set_bvhState enabled (bvh s) (bvhGeometry s) (bvhFrameCount s) s in
  if enabled && negb (bool_decide (is_Some (bvh s))) then initBVH s
  else if negb enabled then
    Returns (set_bvhState enabled None None (bvhFrameCount s) s)
  else Returns s.

(** [getNeighborsBVH]: the triangles visited by the sphere cast, filtered
    by exact distance ([<=]) on the current positions. *)
Definition getNeighborsBVH (s : MyShoal) (fishIndex : nat) (radius : R) : list nat :=
  match bvh s, fishes s !! fishIndex with
  | Some b, Some fish =>
      if negb (bvhEnabled s) then []
      else
        fold_left
          (fun neighbors triangleIndex =>
             let neighborIndex := triangleIndex in
             if negb (neighborIndex =? fishIndex)%nat
                && (neighborIndex <? length (fishes s))%nat then
               let neighborPos := position (fishes s !!! neighborIndex) in
               let distance := THREE.distanceTo (position fish) neighborPos in
               if Rleb distance radius
                  && negb (bool_decide (neighborIndex ∈ neighbors)) then
                 neighbors ++ [neighborIndex]
               else neighbors
             else neighbors)
          (shapecast b (position fish) radius) []
  | _, _ => []
  end.

(** [_getNeighbors]: the spatial index when it is enabled and built,
    otherwise a scan of all fish ([<]). *)
Definition _getNeighbors (s : MyShoal) (fishIndex : nat) (radius : R) : list nat :=
  if bvhEnabled s && bool_decide (is_Some (bvh s)) then
    getNeighborsBVH s fishIndex radius
  else
    let position_ := position (fishes s !!! fishIndex) in
    fold_left
      (fun neighbors i =>
         if negb (fishIndex =? i)%nat then
           let distance := THREE.distanceTo position_ (position (fishes s !!! i)) in
           if Rltb distance radius then neighbors ++ [i] else neighbors
         else neighbors)
      (seq 0 (length (fishes s))) [].

(** ** Flocking behaviours *)

(** The accumulators of the neighbour scan of [flock]. *)
Record FlockAcc : Type := {
  alignment : Vector3;
  cohesion : Vector3;
  separation : Vector3;
  total : nat
}.

(** The body of the neighbour loop of [flock], for neighbour index [i]. *)
Definition flockVisit (s : MyShoal) (fishIndex : nat) (position_ : Vector3)
    (awareness : R) (acc : FlockAcc) (i : nat) : FlockAcc :=
  if (i =? fishIndex)%nat then acc
  else
    let distance := THREE.distanceTo position_ (position (fishes s !!! i)) in
    if Rltb 0 distance && Rltb distance awareness then
      let diff := THREE.subVectors position_ (position (fishes s !!! i)) in
      let diff := THREE.normalize diff in
      let diff := THREE.divideScalar diff distance in
      {| alignment := THREE.add (alignment acc) (velocities s !!! i);
         cohesion := THREE.add (cohesion acc) (position (fishes s !!! i));
         separation := THREE.add (separation acc) diff;
         total := S (total acc) |}
    else acc.

(** The boundary-avoidance part of [flock]. *)
Definition flockBounds (o : Options) (position_ velocity : Vector3) : Vector3 :=
  let halfArea := areaSize o * 0.5 in
  let halfHeight := height o * 0.5 in
  let margin := boundsMargin o in
  let distToLeft := THREE.x position_ + halfArea in
  let distToRight := halfArea - THREE.x position_ in
  let distToBottom := THREE.y position_ + halfHeight in
  let distToTop := halfHeight - THREE.y position_ in
  let distToFront := THREE.z position_ + halfArea in
  let distToBack := halfArea - THREE.z position_ in
  let bx := if Rltb distToLeft margin then 0 + (margin - distToLeft) / margin
            else if Rltb distToRight margin then 0 - (margin - distToRight) / margin
            else 0 in
  let by_ := if Rltb distToBottom margin then 0 + (margin - distToBottom) / margin
             else if Rltb distToTop margin then 0 - (margin - distToTop) / margin
             else 0 in
  let bz := if Rltb distToFront margin then 0 + (margin - distToFront) / margin
            else if Rltb distToBack margin then 0 - (margin - distToBack) / margin
            else 0 in
  let boundAvoid := Vec3 bx by_ bz in
  if Rltb 0 (THREE.lengthSq boundAvoid) then
    let boundAvoid := THREE.normalize boundAvoid in
    let closestDistance :=
      Rmin (Rmin (Rmin distToLeft distToRight) (Rmin distToBottom distToTop))
           (Rmin distToFront distToBack) in
    let urgency := 1 - closestDistance / margin in
    let boundAvoid := THREE.multiplyScalar boundAvoid (maxSpeed o * (1 + urgency * 2)) in
    let boundSteer := THREE.sub boundAvoid velocity in
    THREE.clampLength boundSteer 0 (boundsWeight o * (1 + urgency))
  else THREE.zero.

(** [flock]: separation, alignment and cohesion over one scan of all other
    fish within the awareness radius, plus boundary avoidance.  It reads
    the shoal and returns a fresh vector. *)
Definition flock (s : MyShoal) (fishIndex : nat) : Vector3 :=
  let o := options s in
  let totalForce := THREE.zero in
  let position_ := position (fishes s !!! fishIndex) in
  let velocity := velocities s !!! fishIndex in
  let awareness :=
    Rmax (Rmax (separationDistance o) (alignmentDistance o)) (cohesionDistance o) in
  let acc :=
    fold_left (flockVisit s fishIndex position_ awareness)
              (seq 0 (length (fishes s)))
              {| alignment := THREE.zero; cohesion := THREE.zero;
                 separation := THREE.zero; total := 0 |} in
  let totalForce :=
    if (0 <? total acc)%nat then
      let alignment_ := THREE.divideScalar (alignment acc) (INR (total acc)) in
      let alignment_ := THREE.normalize alignment_ in
      let alignment_ := THREE.multiplyScalar alignment_ (maxSpeed o) in
      let alignSteer := THREE.sub alignment_ velocity in
      let alignSteer := THREE.clampLength alignSteer 0 (alignmentWeight o) in
      let totalForce := THREE.add totalForce alignSteer in
      let cohesion_ := THREE.divideScalar (cohesion acc) (INR (total acc)) in
      let toCenter := THREE.subVectors cohesion_ position_ in
      let toCenter := THREE.normalize toCenter in
      let toCenter := THREE.multiplyScalar toCenter (maxSpeed o) in
      let cohSteer := THREE.sub toCenter velocity in
      let cohSteer := THREE.clampLength cohSteer 0 (cohesionWeight o) in
      let totalForce := THREE.add totalForce cohSteer in
      let separation_ := THREE.divideScalar (separation acc) (INR (total acc)) in
      let separation_ := THREE.normalize separation_ in
      let separation_ := THREE.multiplyScalar separation_ (maxSpeed o) in
      let sepSteer := THREE.sub separation_ velocity in
      let sepSteer := THREE.clampLength sepSteer 0 (separationWeight o) in
      THREE.add totalForce sepSteer
    else totalForce in
  THREE.add totalForce (flockBounds o position_ velocity).

(** [wander]: advances the fish's wander angle by a random step (written
    back to [wanderAngles]) and steers towards a point on the wander
    circle. *)
Definition wander (s : MyShoal) (fishIndex : nat) : Vector3 * MyShoal :=
  let '(r, g) := random (rng s) in
  let s := set_rng g s in
  let s := set_wanderAngles
             (<[fishIndex := wanderAngles s !!! fishIndex + (r - 0.5) * 0.3]>
                (wanderAngles s)) s in
  let angle := wanderAngles s !!! fishIndex in
  let circleCenter :=
    THREE.multiplyScalar (THREE.normalize (velocities s !!! fishIndex)) 2 in
  let circleOffset :=
    Vec3 (cos angle * 0.8) (sin angle * 0.3) (sin (angle * 0.8) * 0.8) in
  let desired := THREE.add circleCenter circleOffset in
  let desired :=
    THREE.multiplyScalar (THREE.normalize desired) (maxSpeed (options s) * 0.3) in
  (THREE.subVectors desired (velocities s !!! fishIndex), s).

(** [avoidTerrain]. *)
Definition avoidTerrain (s : MyShoal) (fishIndex : nat) : Vector3 :=
  let steer := THREE.zero in
  match terrain s with
  | None => steer
  | Some getHeightAt =>
      let fish := fishes s !!! fishIndex in
      let worldPos := getWorldPosition s fish in
      let terrainHeight := getHeightAt (THREE.x worldPos) (THREE.z worldPos) in
      let margin := terrainMargin (options s) in
      let safeHeight := terrainHeight + margin in
      let steer :=
        if Rltb (THREE.y worldPos) safeHeight then
          let penetration := safeHeight - THREE.y worldPos in
          THREE.setY steer ((penetration / margin) ^ 2 * 5)
        else steer in
      if Rltb 0 (THREE.length steer) then
        THREE.setLength steer (Rmin (maxSpeed (options s) * 2) 5)
      else steer
  end.

(** A face of the temple box as seen from a point inside it. *)
Inductive Axis : Type := AxisX | AxisY | AxisZ.

Record Face : Type := { axis : Axis; distance : R; faceSign : R }.

Definition component (ax : Axis) (v : Vector3) : R :=
  match ax with
  | AxisX => THREE.x v
  | AxisY => THREE.y v
  | AxisZ => THREE.z v
  end.

(** [avoidTemple].  The margin-expanded box is computed on the first call
    that finds a temple and cached in [_templeBox]. *)
Definition avoidTemple (s : MyShoal) (fishIndex : nat) : Vector3 * MyShoal :=
  let steer := THREE.zero in
  match temple s with
  | None => (steer, s)
  | Some templeBounds =>
      let fish := fishes s !!! fishIndex in
      let worldPos := getWorldPosition s fish in
      let s :=
        match _templeBox s with
        | Some _ => s
        | None => set_templeBox (Some (THREE.expandByScalar templeBounds 5)) s
        end in
      let box := default (THREE.expandByScalar templeBounds 5) (_templeBox s) in
      let distanceToTemple := THREE.distanceToPoint box worldPos in
      let isInsideOrNear := Reqb distanceToTemple 0 || Rltb distanceToTemple 10 in
      if negb isInsideOrNear then (steer, s)
      else if THREE.containsPoint box worldPos then
        let center := THREE.getCenter box in
        let size := THREE.getSize box in
        let local := THREE.sub worldPos center in
        let faceOf ax :=
          {| axis := ax;
             distance := component ax size * 0.5 - Rabs (component ax local);
             faceSign := THREE.sign (component ax local) |} in
        let closer prev curr := if Rltb (distance curr) (distance prev) then curr else prev in
        let closestFace := closer (closer (faceOf AxisX) (faceOf AxisY)) (faceOf AxisZ) in
        let steer :=
          match axis closestFace with
          | AxisX => THREE.setX steer (faceSign closestFace)
          | AxisY => THREE.setY steer (faceSign closestFace)
          | AxisZ => THREE.setZ steer (faceSign closestFace)
          end in
        let penetrationDepth :=
          component (axis closestFace) size * 0.5
          - Rabs (component (axis closestFace) local) in
        let maxPenetration := component (axis closestFace) size * 0.5 in
        let urgency := (penetrationDepth / maxPenetration) ^ 2 in
        (THREE.multiplyScalar (THREE.normalize steer)
           (maxSpeed (options s) * (1 + urgency * 3)), s)
      else if Rltb distanceToTemple 1 then
        let center := THREE.getCenter box in
        let awayFromCenter := THREE.normalize (THREE.sub worldPos center) in
        let proximityFactor := 1 - distanceToTemple / 1 in
        (THREE.multiplyScalar awayFromCenter
           (maxSpeed (options s) * proximityFactor * 2), s)
      else (steer, s)
  end.

(** The accumulators of the loop of [dangerEvasion] over the dangerous
    entities.  [closestDangerDistance] starts at [Infinity], here [None];
    the two panic tracks are the ones the loop writes. *)
Record DangerAcc : Type := {
  steer : Vector3;
  closestDangerDistance : option R;
  closestDangerDirection : Vector3;
  dangerDetected : bool;
  accPanicMode : list bool;
  accPanicTimer : list R
}.

(** The body of the loop of [dangerEvasion], for one entity. *)
Definition dangerVisit (o : Options) (fishIndex : nat) (fishPos : Vector3)
    (acc : DangerAcc) (entity : Entity) : DangerAcc :=
  if negb (visible entity) then acc
  else
    let entityPos := worldPosition entity in
    let distance := THREE.distanceTo fishPos entityPos in
    if Rltb distance (dangerDetectionDistance o) then
      let closer :=
        match closestDangerDistance acc with
        | None => true
        | Some c => Rltb distance c
        end in
      let closestDistance :=
        if closer then Some distance else closestDangerDistance acc in
      let closestDirection :=
        if closer then THREE.normalize (THREE.subVectors fishPos entityPos)
        else closestDangerDirection acc in
      if Rltb distance (dangerEvasionDistance o) then
        let escapeDir := THREE.normalize (THREE.subVectors fishPos entityPos) in
        let urgency := 1 - distance / dangerEvasionDistance o in
        let evasionStrength := urgency ^ 2 * 5 in
        let evasionForce := THREE.multiplyScalar escapeDir evasionStrength in
        let panic := Rltb distance (dangerEvasionDistance o * 0.5) in
        {| steer := THREE.add (steer acc) evasionForce;
           closestDangerDistance := closestDistance;
           closestDangerDirection := closestDirection;
           dangerDetected := true;
           accPanicMode :=
             if panic then <[fishIndex := true]> (accPanicMode acc)
             else accPanicMode acc;
           accPanicTimer :=
             if panic then <[fishIndex := panicDuration o]> (accPanicTimer acc)
             else accPanicTimer acc |}
      else
        {| steer := steer acc;
           closestDangerDistance := closestDistance;
           closestDangerDirection := closestDirection;
           dangerDetected := true;
           accPanicMode := accPanicMode acc;
           accPanicTimer := accPanicTimer acc |}
    else acc.

(** [dangerEvasion]: escape force from the visible dangerous entities; it
    sets the fish's panic flag and timer when one of them is closer than
    half the evasion distance. *)
Definition dangerEvasion (s : MyShoal) (fishIndex : nat) : Vector3 * MyShoal :=
  let o := options s in
  let fishPos := getWorldPosition s (fishes s !!! fishIndex) in
  let acc :=
    fold_left (dangerVisit o fishIndex fishPos) (dangerousEntities s)
              {| steer := THREE.zero;
                 closestDangerDistance := None;
                 closestDangerDirection := THREE.zero;
                 dangerDetected := false;
                 accPanicMode := panicMode s;
                 accPanicTimer := panicTimer s |} in
  let s := set_panicTimer (accPanicTimer acc) (set_panicMode (accPanicMode acc) s) in
  let steer_ := steer acc in
  if dangerDetected acc then
    let steer_ :=
      if Reqb (THREE.length steer_) 0
         && match closestDangerDistance acc with
            | None => false
            | Some c => Rltb c (dangerDetectionDistance o)
            end
      then
        let detectionUrgency :=
          1 - default 0 (closestDangerDistance acc) / dangerDetectionDistance o in
        THREE.multiplyScalar (closestDangerDirection acc) (detectionUrgency * 2)
      else steer_ in
    if Rltb 0 (THREE.length steer_) then
      let speedMultiplier :=
        if (panicMode s !!! fishIndex : bool) then panicSpeedMultiplier o else 1.5 in
      let maxEvasionForce := maxForce o * dangerEvasionWeight o * speedMultiplier in
      (THREE.clampLength steer_ 0 maxEvasionForce, s)
    else (steer_, s)
  else (steer_, s).

(** ** The per-frame update *)

(** Step 1: reset acceleration. *)
Definition resetAcceleration (s : MyShoal) (i : nat) : MyShoal :=
  set_accelerations (<[i := THREE.zero]> (accelerations s)) s.

(** Step 2: update panic state. *)
Definition updatePanicState (s : MyShoal) (i : nat) : MyShoal :=
  if (panicMode s !!! i : bool) then
    let s := set_panicTimer (<[i := panicTimer s !!! i - 1]> (panicTimer s)) s in
    if Rleb (panicTimer s !!! i) 0 then
      set_panicMode (<[i := false]> (panicMode s)) s
    else s
  else s.

(** The five behavioural forces of step 3. *)
Record Forces : Type := {
  flockForce : Vector3;
  wanderForce : Vector3;
  terrainForce : Vector3;
  templeForce : Vector3;
  dangerForce : Vector3
}.

(** Step 3: calculate all behavioural forces, in the order of the source. *)
Definition calculateForces (s : MyShoal) (i : nat) : Forces * MyShoal :=
  let flockForce_ := flock s i in
  let '(wanderForce_, s) := wander s i in
  let terrainForce_ := avoidTerrain s i in
  let '(templeForce_, s) := avoidTemple s i in
  let '(dangerForce_, s) := dangerEvasion s i in
  ({| flockForce := flockForce_; wanderForce := wanderForce_;
      terrainForce := terrainForce_; templeForce := templeForce_;
      dangerForce := dangerForce_ |}, s).

(** Steps 4 to 6: scale wander and danger by their weights, add all
    forces to the acceleration, clamp the total. *)
Definition applyForces (f : Forces) (s : MyShoal) (i : nat) : MyShoal :=
  let wanderForce_ := THREE.multiplyScalar (wanderForce f) (wanderStrength (options s)) in
  let dangerForce_ :=
    THREE.multiplyScalar (dangerForce f) (dangerEvasionWeight (options s)) in
  let a := accelerations s !!! i in
  let a := THREE.add a (flockForce f) in
  let a := THREE.add a wanderForce_ in
  let a := THREE.add a (terrainForce f) in
  let a := THREE.add a (templeForce f) in
  let a := THREE.add a dangerForce_ in
  let maxAcceleration := maxForce (options s) * 2 in
  let a := THREE.clampLength a 0 maxAcceleration in
  set_accelerations (<[i := a]> (accelerations s)) s.

(** Steps 3 to 6. *)
Definition accumulateForces (s : MyShoal) (i : nat) : MyShoal :=
  let '(f, s) := calculateForces s i in
  applyForces f s i.

(** Step 7: update velocity with acceleration. *)
Definition integrateVelocity (fixedDelta : R) (s : MyShoal) (i : nat) : MyShoal :=
  set_velocities
    (<[i := THREE.addScaledVector (velocities s !!! i) (accelerations s !!! i) fixedDelta]>
       (velocities s)) s.

(** Step 8: limit velocity based on panic state. *)
Definition limitVelocity (s : MyShoal) (i : nat) : MyShoal :=
  let maxSpeed_ := maxSpeed (options s) in
  let maxSpeed_ :=
    if (panicMode s !!! i : bool) then maxSpeed_ * panicSpeedMultiplier (options s)
    else maxSpeed_ in
  let currentSpeed := THREE.length (velocities s !!! i) in
  if Rltb maxSpeed_ currentSpeed then
    set_velocities
      (<[i := THREE.multiplyScalar (velocities s !!! i) (maxSpeed_ / currentSpeed)]>
         (velocities s)) s
  else s.

(** Step 9: update position. *)
Definition integratePosition (fixedDelta : R) (s : MyShoal) (i : nat) : MyShoal :=
  let fish := fishes s !!! i in
  set_fishes
    (<[i := setPosition
              (THREE.addScaledVector (position fish) (velocities s !!! i) fixedDelta)
              fish]> (fishes s)) s.

Definition boundaryMargin : R := 20.
Definition turnStrength : R := 0.5.

(** Step 10 on one axis: the new velocity component. *)
Definition turnAxis (half p v : R) : R :=
  if Rltb p (- half + boundaryMargin) then
    v + turnStrength * (1 - (p + half) / boundaryMargin)
  else if Rltb (half - boundaryMargin) p then
    v - turnStrength * (1 - (half - p) / boundaryMargin)
  else v.

(** Step 10: gentle boundary handling. *)
Definition gentleBoundary (halfArea halfHeight : R) (s : MyShoal) (i : nat) : MyShoal :=
  let p := position (fishes s !!! i) in
  let v := velocities s !!! i in
  set_velocities
    (<[i := Vec3 (turnAxis halfArea (THREE.x p) (THREE.x v))
                 (turnAxis halfHeight (THREE.y p) (THREE.y v))
                 (turnAxis halfArea (THREE.z p) (THREE.z v))]> (velocities s)) s.

(** Step 11 on one axis: the new position and velocity components. *)
Definition constrainAxis (half p v : R) : R * R :=
  if Rltb p (- half) then (- half + 0.1, Rmax 0.1 v)
  else if Rltb half p then (half - 0.1, Rmin (-0.1) v)
  else (p, v).

(** Step 11: soft boundary constraint. *)
Definition softBoundary (halfArea halfHeight : R) (s : MyShoal) (i : nat) : MyShoal :=
  let fish := fishes s !!! i in
  let p := position fish in
  let v := velocities s !!! i in
  let cx := constrainAxis halfArea (THREE.x p) (THREE.x v) in
  let cy := constrainAxis halfHeight (THREE.y p) (THREE.y v) in
  let cz := constrainAxis halfArea (THREE.z p) (THREE.z v) in
  let s := set_fishes
             (<[i := setPosition (Vec3 (fst cx) (fst cy) (fst cz)) fish]> (fishes s)) s in
  set_velocities (<[i := Vec3 (snd cx) (snd cy) (snd cz)]> (velocities s)) s.

(** Steps 1 to 9 for fish [i]: forces, velocity, speed limit, position. *)
Definition integrateFish (fixedDelta : R) (s : MyShoal) (i : nat) : MyShoal :=
  let s := resetAcceleration s i in
  let s := updatePanicState s i in
  let s := accumulateForces s i in
  let s := integrateVelocity fixedDelta s i in
  let s := limitVelocity s i in
  integratePosition fixedDelta s i.

(** The body of the loop of [update] for fish [i] (steps 12 and 13,
    animation and rotation, only touch the visual). *)
Definition updateFish (fixedDelta halfArea halfHeight : R) (s : MyShoal) (i : nat)
    : MyShoal :=
  let s := integrateFish fixedDelta s i in
  let s := gentleBoundary halfArea halfHeight s i in
  softBoundary halfArea halfHeight s i.

(** The first part of [update]: update the BVH periodically. *)
Definition bvhTick (s : MyShoal) : MyShoal :=
  if bvhEnabled s then
    let s := set_bvhState (bvhEnabled s) (bvh s) (bvhGeometry s)
                          (S (bvhFrameCount s)) s in
    if (bvhUpdateFrequency s <=? bvhFrameCount s)%nat then
      let s := updateBVHGeometry s in
      set_bvhState (bvhEnabled s) (bvh s) (bvhGeometry s) 0 s
    else s
  else s.

(** [update]. *)
Definition update (delta : R) (s : MyShoal) : MyShoal :=
  let s := bvhTick s in
  let fixedDelta := Rmin delta 0.1 in
  let halfArea := areaSize (options s) * 0.5 in
  let halfHeight := height (options s) * 0.5 in
  fold_left (updateFish fixedDelta halfArea halfHeight)
            (seq 0 (length (fishes s))) s.

(** ** Further operations of the class and of its callers *)

(** Scaling the fish. *)

Definition set_options (o : Options) (s : MyShoal) : MyShoal :=
  {| options := o; terrain := terrain s; temple := temple s;
     matrixWorld := matrixWorld s; newMeshBVH := newMeshBVH s;
     fishes := fishes s; velocities := velocities s; accelerations := accelerations s;
     wanderAngles := wanderAngles s; panicMode := panicMode s;
     panicTimer := panicTimer s; dangerousEntities := dangerousEntities s;
     bvhEnabled := bvhEnabled s; bvh := bvh s; bvhGeometry := bvhGeometry s;
     bvhFrameCount := bvhFrameCount s;
     bvhUpdateFrequency := bvhUpdateFrequency s; _templeBox := _templeBox s;
     rng := rng s |}.

Definition set_fishScale (v : R) (o : Options) : Options :=
  {| separationDistance := separationDistance o;
     alignmentDistance := alignmentDistance o;
     cohesionDistance := cohesionDistance o;
     separationWeight := separationWeight o;
     alignmentWeight := alignmentWeight o;
     cohesionWeight := cohesionWeight o;
     maxSpeed := maxSpeed o;
     maxForce := maxForce o;
     wanderStrength := wanderStrength o;
     dangerDetectionDistance := dangerDetectionDistance o;
     dangerEvasionDistance := dangerEvasionDistance o;
     dangerEvasionWeight := dangerEvasionWeight o;
     panicSpeedMultiplier := panicSpeedMultiplier o;
     panicDuration := panicDuration o;
     boundsWeight := boundsWeight o;
     boundsMargin := boundsMargin o;
     areaSize := areaSize o;
     height := height o;
     terrainMargin := terrainMargin o;
     fishCount := fishCount o;
     sizeVariation := sizeVariation o;
     colorVariation := colorVariation o;
     fishScale := v |}.

Definition setScale (v : R) (f : Fish) : Fish :=
  {| position := position f; scale := v; baseSizeScale := baseSizeScale f;
     colorDraws := colorDraws f |}.

(** [setFishScale]: stores the factor in the options and rescales every
    fish from its base size ([baseSizeScale || 1.0]). *)
Definition setFishScale (scale_ : R) (s : MyShoal) : MyShoal :=
  let s := set_options (set_fishScale scale_ (options s)) s in
  set_fishes
    (map (fun fish =>
            let sizeScale := THREE.orOne (baseSizeScale fish) in
            setScale (sizeScale * scale_) fish)
         (fishes s)) s.

(** The registry of dangerous entities.

    Entities are objects compared by identity ([includes], [indexOf]);
    the registry is modelled over any type of handles with decidable
    equality. *)

Section Registry.
Context {Handle : Type} `{EqDecision Handle}.

(** [addDangerousEntity]: push unless already listed. *)
Definition addDangerousEntity (entity : Handle) (entities : list Handle) : list Handle :=
  if bool_decide (entity ∈ entities) then entities else entities ++ [entity].

(** [removeDangerousEntity]: [indexOf], then [splice(index, 1)]. *)
Definition removeDangerousEntity (entity : Handle) (entities : list Handle)
    : list Handle :=
  match list_find (fun x => x = entity) entities with
  | Some (index, _) => delete index entities
  | None => entities
  end.

End Registry.

(** Statistics.  The object [getFlockingStats] returns; its fields
    [fishCount], [dangerousEntities] and [bvhEnabled] are [statFishCount],
    [statDangerousEntities] and [statBvhEnabled] here, the plain names
    being fields of the options and of the shoal. *)

Record FlockingStats : Type := {
  statFishCount : nat;
  averageSpeed : R;
  averageDistance : R;
  panicCount : nat;
  statDangerousEntities : nat;
  statBvhEnabled : bool;
  optimization : string;
  performance : string
}.

(** The running sums of [getFlockingStats]. *)
Record StatsAcc : Type := { avgSpeed : R; avgDistance : R; count : nat }.

(** The inner loop of [getFlockingStats]: neighbour [j] of fish [i]. *)
Definition statsPair (s : MyShoal) (i : nat) (acc : StatsAcc) (j : nat) : StatsAcc :=
  if (i <? j)%nat then
    {| avgSpeed := avgSpeed acc;
       avgDistance :=
         avgDistance acc
         + THREE.distanceTo (position (fishes s !!! i)) (position (fishes s !!! j));
       count := S (count acc) |}
  else acc.

(** The outer loop of [getFlockingStats]: fish [i]. *)
Definition statsVisit (s : MyShoal) (acc : StatsAcc) (i : nat) : StatsAcc :=
  let acc := {| avgSpeed := avgSpeed acc + THREE.length (velocities s !!! i);
                avgDistance := avgDistance acc; count := count acc |} in
  let neighbors := _getNeighbors s i (cohesionDistance (options s) * 2) in
  fold_left (statsPair s i) neighbors acc.

Definition getFlockingStats (s : MyShoal) : FlockingStats :=
  let panicCount_ := length (List.filter (fun mode : bool => mode) (panicMode s)) in
  let acc := fold_left (statsVisit s) (seq 0 (length (fishes s)))
               {| avgSpeed := 0; avgDistance := 0; count := 0 |} in
  {| statFishCount := length (fishes s);
     averageSpeed := avgSpeed acc / INR (length (fishes s));
     averageDistance :=
       if (0 <? count acc)%nat then avgDistance acc / INR (count acc) else 0;
     panicCount := panicCount_;
     statDangerousEntities := length (dangerousEntities s);
     statBvhEnabled := bvhEnabled s;
     optimization := if bvhEnabled s then "BVH Accelerated"%string else "Standard"%string;
     performance :=
       if (50 <? length (fishes s))%nat then
         (if bvhEnabled s then "Optimized"%string else "Needs BVH"%string)
       else "Good"%string |}.

(** The fish-count setting of the GUI.

    [applySettings] of a shoal folder in [MyGuiInterface.js]: add or remove
    fish until the shoal has the target count. *)
Definition applyFishCount (targetFishCount : nat) (s : MyShoal) : MyShoal :=
  let currentFishCount := length (fishes s) in
  if (currentFishCount <? targetFishCount)%nat then
    let fishToAdd := (targetFishCount - currentFishCount)%nat in
    addFish fishToAdd s
  else if (targetFishCount <? currentFishCount)%nat then
    let fishToRemove := (currentFishCount - targetFishCount)%nat in
    removeFish fishToRemove s
  else s.

(** * Vocabulary of the properties *)

(** The random source after [k] further draws. *)
Definition advance (g : Rng) (k : nat) : Rng :=
  {| draws := draws g; cursor := (cursor g + k)%nat |}.

(** The [k]-th position (counting from 0) that [_generateRandomPosition]
    samples from [g]: three draws each, for x, y and z. *)
Definition sampleAt (o : Options) (g : Rng) (k : nat) : Vector3 :=
  Vec3 ((draws g (cursor g + 3 * k)%nat - 0.5) * areaSize o)
       ((draws g (cursor g + 3 * k + 1)%nat - 0.5) * height o)
       ((draws g (cursor g + 3 * k + 2)%nat - 0.5) * areaSize o).

(** A sample is outside the dead zone. *)
Definition outsideDeadZone (p : Vector3) : Prop :=
  deadZoneRadius < sqrt (THREE.x p * THREE.x p + THREE.z p * THREE.z p).

(** The six per-fish tracks of a shoal. *)
Definition tracks (s : MyShoal)
    : list Fish * list Vector3 * list Vector3 * list R * list bool * list R :=
  (fishes s, velocities s, accelerations s, wanderAngles s, panicMode s, panicTimer s).

(** [l'] is [l], possibly with entry [j] overwritten. *)
Definition writesAt {A : Type} (j : nat) (l l' : list A) : Prop :=
  l' = l \/ exists v, l' = <[j := v]> l.

(** [s'] differs from [s] at most in entry [j] of the six tracks, in the
    cached temple box and in the random source. *)
Record frame (j : nat) (s s' : MyShoal) : Prop := {
  frame_options : options s' = options s;
  frame_terrain : terrain s' = terrain s;
  frame_temple : temple s' = temple s;
  frame_matrixWorld : matrixWorld s' = matrixWorld s;
  frame_newMeshBVH : newMeshBVH s' = newMeshBVH s;
  frame_dangerousEntities : dangerousEntities s' = dangerousEntities s;
  frame_bvhEnabled : bvhEnabled s' = bvhEnabled s;
  frame_bvh : bvh s' = bvh s;
  frame_bvhGeometry : bvhGeometry s' = bvhGeometry s;
  frame_bvhFrameCount : bvhFrameCount s' = bvhFrameCount s;
  frame_bvhUpdateFrequency : bvhUpdateFrequency s' = bvhUpdateFrequency s;
  frame_fishes : writesAt j (fishes s) (fishes s');
  frame_velocities : writesAt j (velocities s) (velocities s');
  frame_accelerations : writesAt j (accelerations s) (accelerations s');
  frame_wanderAngles : writesAt j (wanderAngles s) (wanderAngles s');
  frame_panicMode : writesAt j (panicMode s) (panicMode s');
  frame_panicTimer : writesAt j (panicTimer s) (panicTimer s')
}.

(** [s'] has the same collaborators, configuration and track lengths as
    [s], and the same entry [i] in each of the six tracks. *)
Record keeps (i : nat) (s s' : MyShoal) : Prop := {
  keeps_options : options s' = options s;
  keeps_terrain : terrain s' = terrain s;
  keeps_matrixWorld : matrixWorld s' = matrixWorld s;
  keeps_dangerousEntities : dangerousEntities s' = dangerousEntities s;
  keeps_length_fishes : length (fishes s') = length (fishes s);
  keeps_length_velocities : length (velocities s') = length (velocities s);
  keeps_length_accelerations : length (accelerations s') = length (accelerations s);
  keeps_length_wanderAngles : length (wanderAngles s') = length (wanderAngles s);
  keeps_length_panicMode : length (panicMode s') = length (panicMode s);
  keeps_length_panicTimer : length (panicTimer s') = length (panicTimer s);
  keeps_fish : fishes s' !!! i = fishes s !!! i;
  keeps_velocity : velocities s' !!! i = velocities s !!! i;
  keeps_acceleration : accelerations s' !!! i = accelerations s !!! i;
  keeps_wanderAngle : wanderAngles s' !!! i = wanderAngles s !!! i;
  keeps_panicMode : panicMode s' !!! i = panicMode s !!! i;
  keeps_panicTimer : panicTimer s' !!! i = panicTimer s !!! i
}.

(** Whether [dangerEvasion] sets the panic of fish [i]: some visible
    entity is closer than the detection distance, the evasion distance and
    half the evasion distance. *)
Definition panicTrigger (o : Options) (fishPos : Vector3) (e : Entity) : bool :=
  visible e
  && Rltb (THREE.distanceTo fishPos (worldPosition e)) (dangerDetectionDistance o)
  && Rltb (THREE.distanceTo fishPos (worldPosition e)) (dangerEvasionDistance o)
  && Rltb (THREE.distanceTo fishPos (worldPosition e)) (dangerEvasionDistance o * 0.5).

Definition panicTriggered (s : MyShoal) (i : nat) : bool :=
  existsb (panicTrigger (options s) (getWorldPosition s (fishes s !!! i)))
          (dangerousEntities s).

(** The state of one agent, gathered from the six tracks. *)
Record Agent : Type := {
  aPosition : Vector3;
  aVelocity : Vector3;
  aAcceleration : Vector3;
  aWanderAngle : R;
  aPanic : bool;
  aPanicTimer : R
}.

Definition agentAt (s : MyShoal) (i : nat) : Agent :=
  {| aPosition := position (fishes s !!! i);
     aVelocity := velocities s !!! i;
     aAcceleration := accelerations s !!! i;
     aWanderAngle := wanderAngles s !!! i;
     aPanic := panicMode s !!! i;
     aPanicTimer := panicTimer s !!! i |}.

(** Index [i] is inside every track. *)
Definition inRange (s : MyShoal) (i : nat) : Prop :=
  (i < length (fishes s))%nat /\ (i < length (velocities s))%nat
  /\ (i < length (accelerations s))%nat /\ (i < length (wanderAngles s))%nat
  /\ (i < length (panicMode s))%nat /\ (i < length (panicTimer s))%nat.

(** The tracks have the same length (the invariant of the class). *)
Definition lockstep (s : MyShoal) : Prop :=
  length (velocities s) = length (fishes s)
  /\ length (accelerations s) = length (fishes s)
  /\ length (wanderAngles s) = length (fishes s)
  /\ length (panicMode s) = length (fishes s)
  /\ length (panicTimer s) = length (fishes s).

(** The steps of the specified pipeline, on one agent. *)

Definition setVelocity (v : Vector3) (a : Agent) : Agent :=
  {| aPosition := aPosition a; aVelocity := v; aAcceleration := aAcceleration a;
     aWanderAngle := aWanderAngle a; aPanic := aPanic a; aPanicTimer := aPanicTimer a |}.

Definition setAcceleration (v : Vector3) (a : Agent) : Agent :=
  {| aPosition := aPosition a; aVelocity := aVelocity a; aAcceleration := v;
     aWanderAngle := aWanderAngle a; aPanic := aPanic a; aPanicTimer := aPanicTimer a |}.

Definition setAgentPosition (v : Vector3) (a : Agent) : Agent :=
  {| aPosition := v; aVelocity := aVelocity a; aAcceleration := aAcceleration a;
     aWanderAngle := aWanderAngle a; aPanic := aPanic a; aPanicTimer := aPanicTimer a |}.

Definition setPanic (p : bool * R) (a : Agent) : Agent :=
  {| aPosition := aPosition a; aVelocity := aVelocity a;
     aAcceleration := aAcceleration a; aWanderAngle := aWanderAngle a;
     aPanic := fst p; aPanicTimer := snd p |}.

(** "Acceleration reset to zero". *)
Definition spec_resetAcceleration (a : Agent) : Agent := setAcceleration THREE.zero a.

(** "Panic timer decremented and panic cleared at zero", on the flag and
    the timer. *)
Definition panicDecay (p : bool * R) : bool * R :=
  if fst p then (negb (Rleb (snd p - 1) 0), snd p - 1) else p.

Definition spec_panicDecay (a : Agent) : Agent :=
  setPanic (panicDecay (aPanic a, aPanicTimer a)) a.

(** "The five force contributions ..., weight-scaled, summed, and clamped
    to 2 x maxForce". *)
Definition spec_acceleration (o : Options) (f : Forces) : Vector3 :=
  let sum :=
    THREE.add (flockForce f)
      (THREE.add (THREE.multiplyScalar (wanderForce f) (wanderStrength o))
         (THREE.add (terrainForce f)
            (THREE.add (templeForce f)
               (THREE.multiplyScalar (dangerForce f) (dangerEvasionWeight o))))) in
  THREE.clampLength sum 0 (2 * maxForce o).

(** "velocity += acceleration x dt'". *)
Definition spec_integrateVelocity (dt : R) (a : Agent) : Agent :=
  setVelocity (THREE.add (aVelocity a) (THREE.multiplyScalar (aAcceleration a) dt)) a.

(** The speed limit in force: boosted while panicking. *)
Definition speedLimit (o : Options) (panic : bool) : R :=
  if panic then maxSpeed o * panicSpeedMultiplier o else maxSpeed o.

(** "Speed clamped": a velocity above the limit is rescaled to the limit. *)
Definition spec_clampSpeed (o : Options) (a : Agent) : Agent :=
  let limit := speedLimit o (aPanic a) in
  let speed := THREE.length (aVelocity a) in
  if Rltb limit speed then
    setVelocity (THREE.multiplyScalar (aVelocity a) (limit / speed)) a
  else a.

(** "position += velocity x dt'". *)
Definition spec_integratePosition (dt : R) (a : Agent) : Agent :=
  setAgentPosition (THREE.add (aPosition a) (THREE.multiplyScalar (aVelocity a) dt)) a.

Definition setWanderAngle (w : R) (a : Agent) : Agent :=
  {| aPosition := aPosition a; aVelocity := aVelocity a;
     aAcceleration := aAcceleration a; aWanderAngle := w;
     aPanic := aPanic a; aPanicTimer := aPanicTimer a |}.

(** The write of [dangerEvasion] on the flag and the timer. *)
Definition panicSet (D : R) (triggered : bool) (p : bool * R) : bool * R :=
  if triggered then (true, D) else p.

(** Steps 10 and 11 on one agent. *)
Definition agentGentleBoundary (halfArea halfHeight : R) (a : Agent) : Agent :=
  let p := aPosition a in
  let v := aVelocity a in
  setVelocity (Vec3 (turnAxis halfArea (THREE.x p) (THREE.x v))
                    (turnAxis halfHeight (THREE.y p) (THREE.y v))
                    (turnAxis halfArea (THREE.z p) (THREE.z v))) a.

Definition agentSoftBoundary (halfArea halfHeight : R) (a : Agent) : Agent :=
  let p := aPosition a in
  let v := aVelocity a in
  let cx := constrainAxis halfArea (THREE.x p) (THREE.x v) in
  let cy := constrainAxis halfHeight (THREE.y p) (THREE.y v) in
  let cz := constrainAxis halfArea (THREE.z p) (THREE.z v) in
  setVelocity (Vec3 (snd cx) (snd cy) (snd cz))
    (setAgentPosition (Vec3 (fst cx) (fst cy) (fst cz)) a).

(** The panic flag and timer of fish [i]. *)
Definition panicOf (s : MyShoal) (i : nat) : bool * R :=
  (panicMode s !!! i, panicTimer s !!! i).

(** One tick on the panic flag and timer: the decay of step 2, then the
    trigger of [dangerEvasion]. *)
Definition panicTick (D : R) (triggered : bool) (p : bool * R) : bool * R :=
  panicSet D triggered (panicDecay p).

(** [update] keeps the configuration and the length of every track. *)
Record sameShape (s s' : MyShoal) : Prop := {
  shape_options : options s' = options s;
  shape_fishes : length (fishes s') = length (fishes s);
  shape_velocities : length (velocities s') = length (velocities s);
  shape_accelerations : length (accelerations s') = length (accelerations s);
  shape_wanderAngles : length (wanderAngles s') = length (wanderAngles s);
  shape_panicMode : length (panicMode s') = length (panicMode s);
  shape_panicTimer : length (panicTimer s') = length (panicTimer s)
}.

(** The escape strength at distance [d] for evasion distance [E]. *)
Definition evasionStrength (E d : R) : R := (1 - d / E) ^ 2 * 5.

(** Everything in a shoal but the spatial index. *)
Definition simulation (s : MyShoal) :=
  (options s, terrain s, temple s, dangerousEntities s,
   (fishes s, velocities s, accelerations s, wanderAngles s, panicMode s, panicTimer s),
   _templeBox s, rng s).

(** The awareness radius of [flock]. *)
Definition awareness (o : Options) : R :=
  Rmax (Rmax (separationDistance o) (alignmentDistance o)) (cohesionDistance o).

(** Whether the neighbour loop of [flock] for fish [i] lets fish [j]
    contribute. *)
Definition isFlockNeighbor (s : MyShoal) (i j : nat) : bool :=
  let distance :=
    THREE.distanceTo (position (fishes s !!! i)) (position (fishes s !!! j)) in
  negb (j =? i)%nat && (Rltb 0 distance && Rltb distance (awareness (options s))).

(** The neighbours [flock] uses for fish [i], in the order of the scan. *)
Definition flockNeighbors (s : MyShoal) (i : nat) : list nat :=
  List.filter (isFlockNeighbor s i) (seq 0 (length (fishes s))).

(** What a neighbour [j] adds to the accumulators of fish [i]. *)
Definition flockAccumulate (s : MyShoal) (i : nat) (acc : FlockAcc) (j : nat)
    : FlockAcc :=
  let position_ := position (fishes s !!! i) in
  let distance := THREE.distanceTo position_ (position (fishes s !!! j)) in
  {| alignment := THREE.add (alignment acc) (velocities s !!! j);
     cohesion := THREE.add (cohesion acc) (position (fishes s !!! j));
     separation :=
       THREE.add (separation acc)
         (THREE.divideScalar
            (THREE.normalize
               (THREE.subVectors position_ (position (fishes s !!! j))))
            distance);
     total := S (total acc) |}.

(** ** Test shoals *)

(** A shoal of one fish at local position [p] with velocity [v], at rest
    otherwise: no temple, the group transform is the identity, the
    spatial index is off, and every random draw is 0.5. *)
Definition soloShoal (o : Options) (t : option (R -> R -> R)) (es : list Entity)
    (p v : Vector3) : MyShoal :=
  {| options := o; terrain := t; temple := None;
     matrixWorld := fun q => q;
     newMeshBVH := fun ps => {| bvhPositions := ps; shapecast := fun _ _ => [] |};
     fishes := [ {| position := p; scale := 1; baseSizeScale := 1; colorDraws := (0, 0) |} ];
     velocities := [v]; accelerations := [THREE.zero];
     wanderAngles := [0]; panicMode := [false]; panicTimer := [0];
     dangerousEntities := es;
     bvhEnabled := false; bvh := None; bvhGeometry := None;
     bvhFrameCount := 0; bvhUpdateFrequency := 10;
     _templeBox := None;
     rng := {| draws := fun _ => 0.5; cursor := 0 |} |}.

(** Flat terrain at height 0. *)
Definition flatTerrain : R -> R -> R := fun _ _ => 0.

(** A visible threat five units from the origin along x. *)
Definition nearThreat : Entity := {| visible := true; worldPosition := Vec3 5 0 0 |}.

(** Every draw is 0. *)
Definition zeroRng : Rng := {| draws := fun _ => 0; cursor := 0 |}.

(** The default options with the wander weight set to 0. *)
Definition calmOptions : Options := {|
  separationDistance := 15;
  alignmentDistance := 40;
  cohesionDistance := 50;
  separationWeight := 3;
  alignmentWeight := 1;
  cohesionWeight := 3;
  maxSpeed := 80;
  maxForce := 5;
  wanderStrength := 0;
  dangerDetectionDistance := 30;
  dangerEvasionDistance := 25;
  dangerEvasionWeight := 15;
  panicSpeedMultiplier := 5;
  panicDuration := 120;
  boundsWeight := 5;
  boundsMargin := 50;
  areaSize := 200;
  height := 100;
  terrainMargin := 3;
  fishCount := 15;
  sizeVariation := 0.5;
  colorVariation := 0.2;
  fishScale := 1
|}.

(** One fish 5 above the floor of the default box, rising at the maximum
    speed of 80. *)
Definition edgeShoal : MyShoal :=
  soloShoal calmOptions None [] (Vec3 0 (-45) 0) (Vec3 0 80 0).

(** One fish at the origin with a visible threat five units away. *)
Definition scaredShoal : MyShoal :=
  soloShoal defaults None [nearThreat] THREE.zero (Vec3 1 0 0).

(** The start of each tick of a run in which the threat is there for the
    first tick only: the host empties the list of dangerous entities after
    every call of [update 0.1]. *)
Fixpoint calmTrace (k : nat) : MyShoal :=
  match k with
  | O => scaredShoal
  | S k' => set_dangerousEntities [] (update 0.1 (calmTrace k'))
  end.

(** The options of the slim-fish shoal once the settings of its GUI
    folder are applied: detection distance 30, evasion distance 35. *)
Definition slimOptions : Options := {|
  separationDistance := 15;
  alignmentDistance := 40;
  cohesionDistance := 50;
  separationWeight := 3;
  alignmentWeight := 1;
  cohesionWeight := 3;
  maxSpeed := 80;
  maxForce := 5;
  wanderStrength := 0.1;
  dangerDetectionDistance := 30;
  dangerEvasionDistance := 35;
  dangerEvasionWeight := 15;
  panicSpeedMultiplier := 5;
  panicDuration := 120;
  boundsWeight := 5;
  boundsMargin := 50;
  areaSize := 1000;
  height := 200;
  terrainMargin := 3;
  fishCount := 40;
  sizeVariation := 0.5;
  colorVariation := 0.2;
  fishScale := 3.5
|}.

(** A visible threat 32 units from the origin along x. *)
Definition farThreat : Entity := {| visible := true; worldPosition := Vec3 32 0 0 |}.

(** ** Vocabulary of the further properties *)

(** The first [k] entries of the six tracks. *)
Definition prefixTracks (k : nat) (s : MyShoal)
    : list Fish * list Vector3 * list Vector3 * list R * list bool * list R :=
  (take k (fishes s), take k (velocities s), take k (accelerations s),
   take k (wanderAngles s), take k (panicMode s), take k (panicTimer s)).

(** Every draw of the random source is in [[0, 1]], as those of
    [Math.random] are. *)
Definition unitDraws (g : Rng) : Prop := forall k, 0 <= draws g k <= 1.

(** ** Further test shoals *)

(** Options with another [areaSize]. *)
Definition withAreaSize (v : R) (o : Options) : Options :=
  {| separationDistance := separationDistance o;
     alignmentDistance := alignmentDistance o;
     cohesionDistance := cohesionDistance o;
     separationWeight := separationWeight o;
     alignmentWeight := alignmentWeight o;
     cohesionWeight := cohesionWeight o;
     maxSpeed := maxSpeed o;
     maxForce := maxForce o;
     wanderStrength := wanderStrength o;
     dangerDetectionDistance := dangerDetectionDistance o;
     dangerEvasionDistance := dangerEvasionDistance o;
     dangerEvasionWeight := dangerEvasionWeight o;
     panicSpeedMultiplier := panicSpeedMultiplier o;
     panicDuration := panicDuration o;
     boundsWeight := boundsWeight o;
     boundsMargin := boundsMargin o;
     areaSize := v;
     height := height o;
     terrainMargin := terrainMargin o;
     fishCount := fishCount o;
     sizeVariation := sizeVariation o;
     colorVariation := colorVariation o;
     fishScale := fishScale o |}.

(** A shoal without fish. *)
Definition emptyShoal (o : Options) : MyShoal :=
  removeFish 1 (soloShoal o None [] THREE.zero THREE.zero).

(** A threat that [dangerEvasion] passes over when it looks from
    [fishPos]: not visible, or not closer than the detection distance. *)
Definition outOfSight (o : Options) (fishPos : Vector3) (e : Entity) : Prop :=
  visible e = false
  \/ dangerDetectionDistance o <= THREE.distanceTo fishPos (worldPosition e).

(** The temple as the host leaves it after moving or replacing it. *)
Definition set_temple (v : option THREE.Box3) (s : MyShoal) : MyShoal :=
  {| options := options s; terrain := terrain s; temple := v;
     matrixWorld := matrixWorld s; newMeshBVH := newMeshBVH s;
     fishes := fishes s; velocities := velocities s; accelerations := accelerations s;
     wanderAngles := wanderAngles s; panicMode := panicMode s;
     panicTimer := panicTimer s; dangerousEntities := dangerousEntities s;
     bvhEnabled := bvhEnabled s; bvh := bvh s; bvhGeometry := bvhGeometry s;
     bvhFrameCount := bvhFrameCount s;
     bvhUpdateFrequency := bvhUpdateFrequency s; _templeBox := _templeBox s;
     rng := rng s |}.

(** The box [avoidTemple] measures against: the cached one if there is
    one, else the bounds of the temple grown by 5. *)
Definition templeBoxInUse (s : MyShoal) (templeBounds : THREE.Box3) : THREE.Box3 :=
  default (THREE.expandByScalar templeBounds 5) (_templeBox s).

(** Fish [i] is at least the boundary margin away from every wall. *)
Definition clearOfWalls (s : MyShoal) (i : nat) : Prop :=
  let o := options s in
  let p := position (fishes s !!! i) in
  boundsMargin o <= THREE.x p + areaSize o * 0.5
  /\ boundsMargin o <= areaSize o * 0.5 - THREE.x p
  /\ boundsMargin o <= THREE.y p + height o * 0.5
  /\ boundsMargin o <= height o * 0.5 - THREE.y p
  /\ boundsMargin o <= THREE.z p + areaSize o * 0.5
  /\ boundsMargin o <= areaSize o * 0.5 - THREE.z p.

(** No other fish is within the awareness radius of fish [i]. *)
Definition alone (s : MyShoal) (i : nat) : Prop :=
  forall j, (j < length (fishes s))%nat -> j <> i ->
    awareness (options s)
    <= THREE.distanceTo (position (fishes s !!! i)) (position (fishes s !!! j)).

(** Fish [i] is at or above the safe height over the terrain, if there is
    a terrain. *)
Definition clearOfTerrain (s : MyShoal) (i : nat) : Prop :=
  match terrain s with
  | None => True
  | Some getHeightAt =>
      let worldPos := getWorldPosition s (fishes s !!! i) in
      getHeightAt (THREE.x worldPos) (THREE.z worldPos) + terrainMargin (options s)
      <= THREE.y worldPos
  end.

(** Fish [i] is at least one unit away from the box of the temple, if
    there is a temple. *)
Definition clearOfTemple (s : MyShoal) (i : nat) : Prop :=
  match temple s with
  | None => True
  | Some templeBounds =>
      1 <= THREE.distanceToPoint (templeBoxInUse s templeBounds)
             (getWorldPosition s (fishes s !!! i))
  end.

(** A visible threat 27 units from the origin along x. *)
Definition bandThreat : Entity := {| visible := true; worldPosition := Vec3 27 0 0 |}.

(** A temple in the cube from 50 to 60 on every axis. *)
Definition farTemple : THREE.Box3 := THREE.Box (Vec3 50 50 50) (Vec3 60 60 60).

(** Whether the sphere cast of [getNeighborsBVH] for fish [i] keeps a
    visited index [j]: another fish of the shoal, not farther than the
    radius. *)
Definition bvhAccepts (s : MyShoal) (i : nat) (radius : R) (j : nat) : bool :=
  negb (j =? i)%nat && (j <? length (fishes s))%nat
  && Rleb (THREE.distanceTo (position (fishes s !!! i)) (position (fishes s !!! j)))
          radius.

(** Two fish, at [p] and [q], at rest; otherwise as [soloShoal]. *)
Definition pairShoal (o : Options) (p q : Vector3) : MyShoal :=
  {| options := o; terrain := None; temple := None;
     matrixWorld := fun v => v;
     newMeshBVH := fun ps => {| bvhPositions := ps; shapecast := fun _ _ => [1; 0; 1]%nat |};
     fishes := [ {| position := p; scale := 1; baseSizeScale := 1; colorDraws := (0, 0) |};
                 {| position := q; scale := 1; baseSizeScale := 1; colorDraws := (0, 0) |} ];
     velocities := [THREE.zero; THREE.zero];
     accelerations := [THREE.zero; THREE.zero];
     wanderAngles := [0; 0]; panicMode := [false; true]; panicTimer := [0; 7];
     dangerousEntities := [];
     bvhEnabled := false; bvh := None; bvhGeometry := None;
     bvhFrameCount := 0; bvhUpdateFrequency := 10;
     _templeBox := None;
     rng := {| draws := fun _ => 0.5; cursor := 0 |} |}.

(** The sum of the pair distances of [getFlockingStats] is within the
    number of pairs times [bound]. *)
Definition pairsWithin (bound : R) (acc : StatsAcc) : Prop :=
  0 <= avgDistance acc <= INR (count acc) * bound.

(** The state of the spatial index. *)
Definition indexState (s : MyShoal) :=
  (bvhEnabled s, bvh s, bvhGeometry s, bvhFrameCount s, bvhUpdateFrequency s).

(** [m] ticks with the same time step. *)
Definition ticks (m : nat) (delta : R) (s : MyShoal) : MyShoal :=
  Nat.iter m (update delta) s.

(** Fish [i] is inside the box. *)
Definition insideBox (s : MyShoal) (i : nat) : Prop :=
  let o := options s in
  let p := position (fishes s !!! i) in
  - (areaSize o * 0.5) <= THREE.x p <= areaSize o * 0.5
  /\ - (height o * 0.5) <= THREE.y p <= height o * 0.5
  /\ - (areaSize o * 0.5) <= THREE.z p <= areaSize o * 0.5.

(** A threat close enough to fish position [fishPos] to set off panic. *)
Definition alarming (o : Options) (fishPos : Vector3) (e : Entity) : Prop :=
  visible e = true
  /\ THREE.distanceTo fishPos (worldPosition e) < dangerDetectionDistance o
  /\ THREE.distanceTo fishPos (worldPosition e) < dangerEvasionDistance o * 0.5.

(** The shoal with the index switched off and dropped, as
    [toggleBVH false] leaves it: every neighbour query is the brute-force
    scan. *)
Definition indexOff (s : MyShoal) : MyShoal :=
  set_bvhState false None None (bvhFrameCount s) s.

(** The shoal when the loop of [update delta] reaches fish [i]: the
    index has had its tick and the fish before [i] have been updated. *)
Definition reached (delta : R) (s : MyShoal) (i : nat) : MyShoal :=
  fold_left (updateFish (Rmin delta 0.1) (areaSize (options s) * 0.5)
               (height (options s) * 0.5))
            (seq 0 i) (bvhTick s).

(** Every division of a tick has a non-zero divisor.  [flock] divides by
    the boundary margin, [avoidTerrain] by the terrain margin,
    [avoidTemple] by half the extent of its box along the closest face,
    and the speed limit divides by the current speed when that is above
    the limit, which is non-zero as soon as the limit is not negative.
    (The other divisors are guarded by the code itself.)  Where one of
    these is zero the JavaScript quotient is infinite or not a number and
    the real-number reading of the code no longer applies. *)
Definition finiteTick (s : MyShoal) : Prop :=
  boundsMargin (options s) <> 0
  /\ terrainMargin (options s) <> 0
  /\ 0 <= maxSpeed (options s)
  /\ 0 <= panicSpeedMultiplier (options s)
  /\ match temple s with
     | None => True
     | Some templeBounds =>
         let box := templeBoxInUse s templeBounds in
         THREE.x (THREE.min box) <> THREE.x (THREE.max box)
         /\ THREE.y (THREE.min box) <> THREE.y (THREE.max box)
         /\ THREE.z (THREE.min box) <> THREE.z (THREE.max box)
     end.

(** [pairShoal] with its index built from the positions of the two fish
    and enabled. *)
Definition indexedShoal (o : Options) (p q : Vector3) : MyShoal :=
  let s := pairShoal o p q in
  let positions := map (getWorldPosition s) (fishes s) in
  set_bvhState true (Some (newMeshBVH s positions)) (Some positions) 0 s.

(** * Properties *)

(** ** Comparisons *)

Lemma Rltb_true a b : a < b -> Rltb a b = true.
Proof. intros H. unfold Rltb. destruct (Rlt_dec a b); [reflexivity | contradiction]. Qed.

Lemma Rltb_false a b : ~ a < b -> Rltb a b = false.
Proof. intros H. unfold Rltb. destruct (Rlt_dec a b); [contradiction | reflexivity]. Qed.

Lemma Rleb_true a b : a <= b -> Rleb a b = true.
Proof. intros H. unfold Rleb. destruct (Rle_dec a b); [reflexivity | contradiction]. Qed.

Lemma Rleb_false a b : ~ a <= b -> Rleb a b = false.
Proof. intros H. unfold Rleb. destruct (Rle_dec a b); [contradiction | reflexivity]. Qed.

Lemma Reqb_true a b : a = b -> Reqb a b = true.
Proof. intros H. unfold Reqb. destruct (Req_dec_T a b); [reflexivity | contradiction]. Qed.

Lemma Reqb_false a b : a <> b -> Reqb a b = false.
Proof. intros H. unfold Reqb. destruct (Req_dec_T a b); [contradiction | reflexivity]. Qed.

(** Decide every comparison in the goal from the hypotheses. *)
Ltac Rcmp :=
  repeat match goal with
    | |- context [Rltb ?a ?b] =>
        first [ rewrite (Rltb_true a b) by lra | rewrite (Rltb_false a b) by lra ]
    | |- context [Rleb ?a ?b] =>
        first [ rewrite (Rleb_true a b) by lra | rewrite (Rleb_false a b) by lra ]
    | |- context [Reqb ?a ?b] =>
        first [ rewrite (Reqb_true a b) by lra | rewrite (Reqb_false a b) by lra ]
    end.

(** ** Spawn positions *)

Lemma advance_advance g a b : advance (advance g a) b = advance g (a + b).
Proof. unfold advance; cbn. f_equal. lia. Qed.

Lemma sampleAt_advance o g k : sampleAt o (advance g 3) k = sampleAt o g (S k).
Proof.
  unfold sampleAt, advance; cbn [draws cursor].
  replace (cursor g + 3 + 3 * k)%nat with (cursor g + 3 * S k)%nat by lia.
  reflexivity.
Qed.

Lemma sampleBody_eq o a g :
  sampleBody o a g =
  (sampleAt o g 0, S a, advance g 3,
   Rltb deadZoneRadius
        (sqrt (THREE.x (sampleAt o g 0) * THREE.x (sampleAt o g 0)
               + THREE.z (sampleAt o g 0) * THREE.z (sampleAt o g 0)))
   || (maxAttempts <=? S a)%nat).
Proof.
  unfold sampleBody, random, sampleAt, advance; cbn [draws cursor THREE.x THREE.z].
  replace (cursor g + 3 * 0)%nat with (cursor g) by lia.
  replace (cursor g + 1)%nat with (S (cursor g)) by lia.
  replace (cursor g + 2)%nat with (S (S (cursor g))) by lia.
  replace (cursor g + 3)%nat with (S (S (S (cursor g)))) by lia.
  reflexivity.
Qed.

(** The loop started after [a] attempts leaves with the first sample
    outside the dead zone, or with the sample of attempt [maxAttempts]. *)
Lemma sampleLoop_run o : forall fuel a g,
  (a < maxAttempts)%nat -> (maxAttempts - a <= fuel)%nat ->
  exists n, (a < n <= maxAttempts)%nat
    /\ sampleLoop fuel o a g
       = Some (sampleAt o g (n - a - 1), n, advance g (3 * (n - a)))
    /\ (outsideDeadZone (sampleAt o g (n - a - 1)) \/ n = maxAttempts)
    /\ (forall k, (k < n - a - 1)%nat -> ~ outsideDeadZone (sampleAt o g k)).
Proof.
  induction fuel as [|fuel IH]; intros a g Ha Hfuel; [lia|].
  cbn [sampleLoop]. rewrite sampleBody_eq.
  destruct (Rlt_dec deadZoneRadius
              (sqrt (THREE.x (sampleAt o g 0) * THREE.x (sampleAt o g 0)
                     + THREE.z (sampleAt o g 0) * THREE.z (sampleAt o g 0))))
    as [Hout|Hin].
  - rewrite (Rltb_true _ _ Hout). cbn [orb].
    exists (S a). replace (S a - a - 1)%nat with 0%nat by lia.
    replace (3 * (S a - a))%nat with 3%nat by lia.
    split; [lia|]. split; [reflexivity|].
    split; [left; exact Hout | intros k Hk; lia].
  - rewrite (Rltb_false _ _ Hin). cbn [orb].
    destruct (Nat.leb_spec maxAttempts (S a)) as [Hcap|Hmore].
    + exists (S a). replace (S a - a - 1)%nat with 0%nat by lia.
      replace (3 * (S a - a))%nat with 3%nat by lia.
      split; [lia|]. split; [reflexivity|].
      split; [right; lia | intros k Hk; lia].
    + destruct (Nat.ltb_spec (S a) maxAttempts) as [_|Hge]; [|lia].
      destruct (IH (S a) (advance g 3)) as (n & Hn & Hrun & Hacc & Hrej); try lia.
      exists n. rewrite Hrun, sampleAt_advance, advance_advance.
      replace (S (n - S a - 1)) with (n - a - 1)%nat by lia.
      replace (3 + 3 * (n - S a))%nat with (3 * (n - a))%nat by lia.
      rewrite sampleAt_advance in Hacc.
      replace (S (n - S a - 1)) with (n - a - 1)%nat in Hacc by lia.
      split; [lia|]. split; [reflexivity|]. split; [exact Hacc|].
      intros k Hk. destruct k as [|k]; [exact Hin|].
      rewrite <- sampleAt_advance. apply Hrej. lia.
Qed.

(** [maxAttempts] passes of fuel are enough, and more fuel changes
    nothing. *)
Lemma sampleLoop_enough_fuel o g fuel :
  (maxAttempts <= fuel)%nat ->
  sampleLoop fuel o 0 g = sampleLoop maxAttempts o 0 g
  /\ is_Some (sampleLoop maxAttempts o 0 g).
Proof.
  intros Hfuel.
  destruct (sampleLoop_run o fuel 0 g) as (n' & Hn' & Hrun' & Hacc' & Hrej');
    [unfold maxAttempts; lia | lia |].
  destruct (sampleLoop_run o maxAttempts 0 g) as (m & Hm & Hrunm & Haccm & Hrejm);
    [unfold maxAttempts; lia | lia |].
  assert (n' = m) as ->.
  { destruct (Nat.lt_trichotomy n' m) as [Hlt|[Heq|Hgt]]; [|exact Heq|].
    - destruct Hacc' as [Hacc'|Hcap]; [|lia].
      exfalso. apply (Hrejm (n' - 0 - 1)%nat); [lia | exact Hacc'].
    - destruct Haccm as [Haccm|Hcap]; [|lia].
      exfalso. apply (Hrej' (m - 0 - 1)%nat); [lia | exact Haccm]. }
  rewrite Hrun', Hrunm. split; [reflexivity | eexists; reflexivity].
Qed.

(** C10.  Spawn-position generation terminates for every configuration
    and every random source: the rejection-sampling loop returns after
    [n] attempts with [1 <= n <= 100]; the position returned is the
    [n]-th sample; every earlier sample was inside the dead zone; and the
    [n]-th sample is either outside the dead zone (horizontal distance
    above 120) or is the sample of the 100th attempt, accepted wherever it
    lies. *)
Theorem C10_spawn_position_terminates (s : MyShoal) :
  maxAttempts = 100%nat /\ deadZoneRadius = 120 /\
  exists n, (1 <= n <= maxAttempts)%nat
    /\ (forall fuel, (maxAttempts <= fuel)%nat ->
          sampleLoop fuel (options s) 0 (rng s)
          = Some (sampleAt (options s) (rng s) (n - 1), n, advance (rng s) (3 * n)))
    /\ _generateRandomPosition s
       = (sampleAt (options s) (rng s) (n - 1), set_rng (advance (rng s) (3 * n)) s)
    /\ (outsideDeadZone (sampleAt (options s) (rng s) (n - 1)) \/ n = maxAttempts)
    /\ (forall k, (k < n - 1)%nat -> ~ outsideDeadZone (sampleAt (options s) (rng s) k)).
Proof.
  split; [reflexivity|]. split; [reflexivity|].
  destruct (sampleLoop_run (options s) maxAttempts 0 (rng s))
    as (n & Hn & Hrun & Hacc & Hrej); [unfold maxAttempts; lia | lia |].
  replace (n - 0 - 1)%nat with (n - 1)%nat in * by lia.
  replace (n - 0)%nat with n in * by lia.
  exists n. split; [lia|]. split; [|split; [|split; assumption]].
  - intros fuel Hfuel.
    destruct (sampleLoop_enough_fuel (options s) (rng s) fuel Hfuel) as [-> _].
    exact Hrun.
  - unfold _generateRandomPosition. rewrite Hrun. reflexivity.
Qed.

(** ** Population round trip *)

Lemma _generateRandomPosition_frame s :
  exists p g, _generateRandomPosition s = (p, set_rng g s).
Proof.
  unfold _generateRandomPosition.
  destruct (sampleLoop maxAttempts (options s) 0 (rng s)) as [[[p n] g]|].
  - exists p, g. reflexivity.
  - exists THREE.zero, (rng s). destruct s; reflexivity.
Qed.

(** [createFish] appends exactly one entry to each track. *)
Lemma createFish_tracks s :
  exists fish velocity angle,
    fishes (createFish s) = fishes s ++ [fish]
    /\ velocities (createFish s) = velocities s ++ [velocity]
    /\ accelerations (createFish s) = accelerations s ++ [THREE.zero]
    /\ wanderAngles (createFish s) = wanderAngles s ++ [angle]
    /\ panicMode (createFish s) = panicMode s ++ [false]
    /\ panicTimer (createFish s) = panicTimer s ++ [0].
Proof.
  unfold createFish, _createFishInstance, _generateInitialVelocity, random.
  cbn [fst snd].
  match goal with
  | |- context [_generateRandomPosition ?t] =>
      destruct (_generateRandomPosition_frame t) as (p & g & ->)
  end.
  cbn. eexists _, _, _. repeat split.
Qed.

Lemma pop_snoc {A : Type} (l : list A) (a : A) : pop (l ++ [a]) = l.
Proof. unfold pop. apply removelast_last. Qed.

Lemma popFish_eq s :
  tracks (popFish s)
  = (pop (fishes s), pop (velocities s), pop (accelerations s),
     pop (wanderAngles s), pop (panicMode s), pop (panicTimer s)).
Proof. reflexivity. Qed.

Lemma popFish_createFish s : tracks (popFish (createFish s)) = tracks s.
Proof.
  destruct (createFish_tracks s) as (f & v & w & Hf & Hv & Ha & Hw & Hm & Ht).
  rewrite popFish_eq, Hf, Hv, Ha, Hw, Hm, Ht, !pop_snoc. reflexivity.
Qed.

Lemma popFish_tracks s1 s2 : tracks s1 = tracks s2 -> tracks (popFish s1) = tracks (popFish s2).
Proof.
  rewrite !popFish_eq. unfold tracks. intros H.
  injection H as -> -> -> -> -> ->. reflexivity.
Qed.

Lemma iter_popFish_tracks n s1 s2 :
  tracks s1 = tracks s2 -> tracks (Nat.iter n popFish s1) = tracks (Nat.iter n popFish s2).
Proof.
  intros H. induction n as [|n IH]; [exact H|].
  rewrite !Nat.iter_succ. apply popFish_tracks, IH.
Qed.

Lemma addFish_length n s : length (fishes (addFish n s)) = (length (fishes s) + n)%nat.
Proof.
  unfold addFish. induction n as [|n IH]; [cbn; lia|].
  rewrite Nat.iter_succ.
  destruct (createFish_tracks (Nat.iter n createFish s)) as (f & _ & _ & -> & _).
  rewrite length_app, IH. cbn. lia.
Qed.

Lemma pops_undo_adds n s :
  tracks (Nat.iter n popFish (Nat.iter n createFish s)) = tracks s.
Proof.
  induction n as [|n IH]; [reflexivity|].
  rewrite (Nat.iter_succ_r n _ popFish), (Nat.iter_succ n _ createFish).
  transitivity (tracks (Nat.iter n popFish (Nat.iter n createFish s))); [|exact IH].
  apply iter_popFish_tracks, popFish_createFish.
Qed.

(** C9.  For every shoal and every [n], [addFish n] followed by
    [removeFish n] restores the population count and gives back, entry for
    entry, the fish (with their positions), velocities, accelerations,
    wander angles, panic flags and panic timers of the original shoal:
    removal pops the tail of each track and does not touch or renumber
    what is in front of it. *)
Theorem C9_add_then_remove_roundtrip (n : nat) (s : MyShoal) :
  let s' := removeFish n (addFish n s) in
  length (fishes s') = length (fishes s)
  /\ fishes s' = fishes s
  /\ velocities s' = velocities s
  /\ accelerations s' = accelerations s
  /\ wanderAngles s' = wanderAngles s
  /\ panicMode s' = panicMode s
  /\ panicTimer s' = panicTimer s.
Proof.
  intros s'.
  assert (tracks s' = tracks s) as H.
  { unfold s', removeFish. rewrite addFish_length.
    replace (Nat.min n (length (fishes s) + n)) with n by lia.
    apply pops_undo_adds. }
  unfold tracks in H. injection H as -> -> -> -> -> ->. repeat split.
Qed.

(** ** Vector algebra *)

Lemma pow_nonzero_sqr_pos t : t <> 0 -> 0 < t ^ 2.
Proof.
  intros Ht. replace (t ^ 2) with (t * t) by ring.
  destruct (Rdichotomy _ _ Ht); nra.
Qed.

Lemma Vec3_eq a b c a' b' c' : a = a' -> b = b' -> c = c' -> Vec3 a b c = Vec3 a' b' c'.
Proof. intros -> -> ->. reflexivity. Qed.

Lemma length_nonneg v : 0 <= THREE.length v.
Proof. apply sqrt_pos. Qed.

Lemma length_zero : THREE.length THREE.zero = 0.
Proof.
  unfold THREE.length, THREE.lengthSq, THREE.zero; cbn.
  replace (0 * 0 + 0 * 0 + 0 * 0) with 0 by lra. apply sqrt_0.
Qed.

Lemma length_multiplyScalar v k :
  THREE.length (THREE.multiplyScalar v k) = Rabs k * THREE.length v.
Proof.
  unfold THREE.length, THREE.lengthSq, THREE.multiplyScalar; cbn.
  replace (THREE.x v * k * (THREE.x v * k) + THREE.y v * k * (THREE.y v * k)
           + THREE.z v * k * (THREE.z v * k))
    with (Rsqr k * (THREE.x v * THREE.x v + THREE.y v * THREE.y v
                    + THREE.z v * THREE.z v))
    by (unfold Rsqr; ring).
  rewrite sqrt_mult_alt by apply Rle_0_sqr.
  rewrite sqrt_Rsqr_abs. reflexivity.
Qed.

Lemma multiplyScalar_0 v : THREE.multiplyScalar v 0 = THREE.zero.
Proof. unfold THREE.multiplyScalar, THREE.zero. apply Vec3_eq; ring. Qed.

Lemma multiplyScalar_zero k : THREE.multiplyScalar THREE.zero k = THREE.zero.
Proof. unfold THREE.multiplyScalar, THREE.zero; cbn. apply Vec3_eq; ring. Qed.

Lemma multiplyScalar_twice v a b :
  THREE.multiplyScalar (THREE.multiplyScalar v a) b = THREE.multiplyScalar v (a * b).
Proof. unfold THREE.multiplyScalar; cbn. apply Vec3_eq; ring. Qed.

Lemma add_zero_l v : THREE.add THREE.zero v = v.
Proof. destruct v. unfold THREE.add, THREE.zero; cbn. apply Vec3_eq; ring. Qed.

Lemma add_zero_r v : THREE.add v THREE.zero = v.
Proof. destruct v. unfold THREE.add, THREE.zero; cbn. apply Vec3_eq; ring. Qed.

Lemma orOne_pos k : 0 < k -> THREE.orOne k = k.
Proof. intros H. unfold THREE.orOne. rewrite Reqb_false by lra. reflexivity. Qed.

(** A non-zero vector normalises to a unit vector. *)
Lemma length_normalize v : 0 < THREE.length v -> THREE.length (THREE.normalize v) = 1.
Proof.
  intros H. unfold THREE.normalize, THREE.divideScalar.
  rewrite length_multiplyScalar, orOne_pos by exact H.
  rewrite Rabs_pos_eq.
  - field. lra.
  - apply Rlt_le. unfold Rdiv. rewrite Rmult_1_l. apply Rinv_0_lt_compat, H.
Qed.

(** Clamping the length of a positive multiple of a unit vector. *)
Lemma clampLength_scaled_unit u k lo hi :
  THREE.length u = 1 -> 0 < k ->
  THREE.clampLength (THREE.multiplyScalar u k) lo hi
  = THREE.multiplyScalar u (Rmax lo (Rmin hi k)).
Proof.
  intros Hu Hk. unfold THREE.clampLength, THREE.divideScalar.
  rewrite length_multiplyScalar, Hu, Rabs_pos_eq, Rmult_1_r, orOne_pos by lra.
  rewrite !multiplyScalar_twice. f_equal. field. lra.
Qed.

(** The length of a clamped vector is within the clamp. *)
Lemma length_clampLength v hi :
  0 <= hi -> THREE.length (THREE.clampLength v 0 hi) <= hi.
Proof.
  intros Hhi. unfold THREE.clampLength, THREE.divideScalar.
  rewrite !length_multiplyScalar.
  pose proof (length_nonneg v) as Hv.
  assert (0 <= Rmax 0 (Rmin hi (THREE.length v)) <= hi) as [Hm0 Hm1].
  { split; [apply Rmax_l|]. apply Rmax_lub; [lra | apply Rmin_l]. }
  rewrite (Rabs_pos_eq _ Hm0).
  destruct (Req_dec_T (THREE.length v) 0) as [Hz|Hnz].
  - rewrite Hz. rewrite Rmult_0_r, Rmult_0_r. exact Hhi.
  - rewrite orOne_pos by lra.
    rewrite Rabs_pos_eq.
    + replace (Rmax 0 (Rmin hi (THREE.length v)) * (1 / THREE.length v * THREE.length v))
        with (Rmax 0 (Rmin hi (THREE.length v))) by (field; lra).
      exact Hm1.
    + apply Rlt_le. unfold Rdiv. rewrite Rmult_1_l. apply Rinv_0_lt_compat. lra.
Qed.

(** Vectors along the y axis. *)
Lemma length_axis_y b : THREE.length (Vec3 0 b 0) = Rabs b.
Proof.
  unfold THREE.length, THREE.lengthSq; cbn.
  replace (0 * 0 + b * b + 0 * 0) with (Rsqr b) by (unfold Rsqr; ring).
  apply sqrt_Rsqr_abs.
Qed.

Lemma normalize_axis_y b : 0 < b -> THREE.normalize (Vec3 0 b 0) = Vec3 0 1 0.
Proof.
  intros Hb. unfold THREE.normalize, THREE.divideScalar.
  rewrite length_axis_y, Rabs_pos_eq, orOne_pos by lra.
  unfold THREE.multiplyScalar; cbn. apply Vec3_eq; field; lra.
Qed.

Lemma clampLength_axis_y b lo hi :
  0 < b -> THREE.clampLength (Vec3 0 b 0) lo hi = Vec3 0 (Rmax lo (Rmin hi b)) 0.
Proof.
  intros Hb. unfold THREE.clampLength, THREE.divideScalar.
  rewrite length_axis_y, Rabs_pos_eq, orOne_pos by lra.
  unfold THREE.multiplyScalar; cbn. apply Vec3_eq; field; lra.
Qed.

(** ** Terrain avoidance *)

(** Below the safe height the force is straight up with the constant
    magnitude [min (2 * maxSpeed) 5], whatever the penetration:
    [setLength] overwrites the quadratic ramp computed just before. *)
Lemma avoidTerrain_below s i getHeightAt :
  terrain s = Some getHeightAt ->
  terrainMargin (options s) <> 0 ->
  let worldPos := getWorldPosition s (fishes s !!! i) in
  THREE.y worldPos
    < getHeightAt (THREE.x worldPos) (THREE.z worldPos) + terrainMargin (options s) ->
  avoidTerrain s i = Vec3 0 (Rmin (maxSpeed (options s) * 2) 5) 0.
Proof.
  intros Ht Hm worldPos Hbelow. unfold avoidTerrain. rewrite Ht.
  fold worldPos. rewrite (Rltb_true _ _ Hbelow).
  unfold THREE.setY, THREE.zero; cbn [THREE.x THREE.z].
  set (q := ((getHeightAt (THREE.x worldPos) (THREE.z worldPos)
              + terrainMargin (options s) - THREE.y worldPos)
             / terrainMargin (options s)) ^ 2 * 5).
  assert (0 < q) as Hq.
  { unfold q. apply Rmult_lt_0_compat; [|lra].
    apply pow_nonzero_sqr_pos. unfold Rdiv.
    apply Rmult_integral_contrapositive_currified.
    - lra.
    - apply Rinv_neq_0_compat, Hm. }
  rewrite length_axis_y, Rabs_pos_eq by lra. rewrite (Rltb_true _ _ Hq).
  unfold THREE.setLength. rewrite normalize_axis_y by exact Hq.
  unfold THREE.multiplyScalar; cbn. apply Vec3_eq; ring.
Qed.

(** At or above the safe height, and without a terrain, the force is zero. *)
Lemma avoidTerrain_above s i getHeightAt :
  terrain s = Some getHeightAt ->
  let worldPos := getWorldPosition s (fishes s !!! i) in
  getHeightAt (THREE.x worldPos) (THREE.z worldPos) + terrainMargin (options s)
    <= THREE.y worldPos ->
  avoidTerrain s i = THREE.zero.
Proof.
  intros Ht worldPos Habove. subst worldPos. unfold avoidTerrain. rewrite Ht.
  Rcmp. rewrite length_zero. Rcmp. reflexivity.
Qed.

(** C6 (the code at the failing input).  With the default options
    (terrain margin 3, maximum speed 80) over flat terrain at height 0, a
    fish at world height 2.7 is 0.3 below the safe height.  The quadratic
    ramp gives [(0.3 / 3)^2 * 5 = 0.05]; [avoidTerrain] returns the upward
    force of magnitude 5, the same as for a fish 3 below the safe height.
    At the safe height itself the force is zero. *)
Theorem C6_avoidTerrain_ignores_penetration :
  avoidTerrain (soloShoal defaults (Some flatTerrain) [] (Vec3 0 2.7 0) THREE.zero) 0
    = Vec3 0 5 0
  /\ avoidTerrain (soloShoal defaults (Some flatTerrain) [] (Vec3 0 0 0) THREE.zero) 0
    = Vec3 0 5 0
  /\ ((0 + 3 - 2.7) / 3) ^ 2 * 5 = 0.05
  /\ avoidTerrain (soloShoal defaults (Some flatTerrain) [] (Vec3 0 3 0) THREE.zero) 0
    = THREE.zero.
Proof.
  split; [|split; [|split]].
  - rewrite (avoidTerrain_below _ _ flatTerrain); cbn; try reflexivity.
    + apply Vec3_eq; try reflexivity. apply Rmin_right. lra.
    + lra.
    + unfold flatTerrain. lra.
  - rewrite (avoidTerrain_below _ _ flatTerrain); cbn; try reflexivity.
    + apply Vec3_eq; try reflexivity. apply Rmin_right. lra.
    + lra.
    + unfold flatTerrain. lra.
  - lra.
  - apply (avoidTerrain_above _ _ flatTerrain); [reflexivity|].
    cbn. unfold flatTerrain. lra.
Qed.

(** ** What a step may write *)

Lemma writesAt_refl {A : Type} j (l : list A) : writesAt j l l.
Proof. left. reflexivity. Qed.

Lemma writesAt_insert {A : Type} j (l : list A) v : writesAt j l (<[j := v]> l).
Proof. right. exists v. reflexivity. Qed.

Lemma writesAt_trans {A : Type} j (l1 l2 l3 : list A) :
  writesAt j l1 l2 -> writesAt j l2 l3 -> writesAt j l1 l3.
Proof.
  intros [->|[v ->]] [->|[w ->]].
  - left. reflexivity.
  - right. exists w. reflexivity.
  - right. exists v. reflexivity.
  - right. exists w. apply list_insert_insert_eq.
Qed.

Lemma writesAt_length {A : Type} j (l l' : list A) :
  writesAt j l l' -> length l' = length l.
Proof. intros [->|[v ->]]; [reflexivity | apply length_insert]. Qed.

Lemma writesAt_lookup_ne {A : Type} `{Inhabited A} j i (l l' : list A) :
  writesAt j l l' -> i <> j -> l' !!! i = l !!! i.
Proof.
  intros [->|[v ->]] Hne; [reflexivity|].
  apply list_lookup_total_insert_ne. congruence.
Qed.

Create HintDb frame.
#[local] Hint Resolve writesAt_refl writesAt_insert : frame.

Lemma frame_refl j s : frame j s s.
Proof. constructor; auto with frame. Qed.

Lemma frame_trans j s1 s2 s3 : frame j s1 s2 -> frame j s2 s3 -> frame j s1 s3.
Proof.
  intros [] []. constructor; try congruence; eapply writesAt_trans; eassumption.
Qed.

(** Steps that are an explicit chain of field updates. *)
Ltac frame_by_unfolding := constructor; cbn; auto with frame.

Lemma resetAcceleration_frame s j : frame j s (resetAcceleration s j).
Proof. unfold resetAcceleration. frame_by_unfolding. Qed.

Lemma updatePanicState_frame s j : frame j s (updatePanicState s j).
Proof.
  unfold updatePanicState.
  destruct (panicMode s !!! j : bool); [|apply frame_refl].
  cbn [panicTimer set_panicTimer].
  destruct (Rleb _ 0); frame_by_unfolding.
Qed.

Lemma wander_frame s j : frame j s (snd (wander s j)).
Proof. unfold wander, random. frame_by_unfolding. Qed.

Lemma avoidTemple_frame s j : frame j s (snd (avoidTemple s j)).
Proof.
  unfold avoidTemple.
  destruct (temple s) as [b|]; [|apply frame_refl].
  assert (frame j s match _templeBox s with
                    | Some _ => s
                    | None => set_templeBox (Some (THREE.expandByScalar b 5)) s
                    end) as Hs.
  { destruct (_templeBox s); [apply frame_refl | frame_by_unfolding]. }
  repeat match goal with
         | |- context [if ?c then _ else _] => destruct c
         end; exact Hs.
Qed.

(** The loop of [dangerEvasion] writes the panic tracks at [j] only. *)
Lemma dangerVisit_writes o j fishPos es : forall acc,
  let acc' := fold_left (dangerVisit o j fishPos) es acc in
  writesAt j (accPanicMode acc) (accPanicMode acc')
  /\ writesAt j (accPanicTimer acc) (accPanicTimer acc').
Proof.
  induction es as [|e es IH]; intros acc; cbn [fold_left].
  - split; apply writesAt_refl.
  - destruct (IH (dangerVisit o j fishPos acc e)) as [Hm Ht].
    assert (writesAt j (accPanicMode acc) (accPanicMode (dangerVisit o j fishPos acc e))
            /\ writesAt j (accPanicTimer acc)
                 (accPanicTimer (dangerVisit o j fishPos acc e))) as [Hm0 Ht0].
    { unfold dangerVisit.
      repeat match goal with
             | |- context [if ?c then _ else _] => destruct c; cbn
             end; split; auto with frame. }
    split; eapply writesAt_trans; eassumption.
Qed.

Lemma dangerEvasion_frame s j : frame j s (snd (dangerEvasion s j)).
Proof.
  unfold dangerEvasion.
  match goal with
  | |- context [fold_left ?f ?es ?a] =>
      destruct (dangerVisit_writes (options s) j
                  (getWorldPosition s (fishes s !!! j)) es a) as [Hm Ht];
      set (acc := fold_left f es a) in *
  end.
  cbn [accPanicMode accPanicTimer] in Hm, Ht.
  assert (frame j s (set_panicTimer (accPanicTimer acc)
                       (set_panicMode (accPanicMode acc) s))) as Hs.
  { constructor; cbn; auto with frame. }
  repeat match goal with
         | |- context [if ?c then _ else _] => destruct c
         end; exact Hs.
Qed.

Lemma calculateForces_frame s j : frame j s (snd (calculateForces s j)).
Proof.
  unfold calculateForces.
  pose proof (wander_frame s j) as H1.
  destruct (wander s j) as [wf s1]. cbn [snd] in H1.
  pose proof (avoidTemple_frame s1 j) as H2.
  destruct (avoidTemple s1 j) as [tf s2]. cbn [snd] in H2.
  pose proof (dangerEvasion_frame s2 j) as H3.
  destruct (dangerEvasion s2 j) as [df s3]. cbn [snd] in *.
  exact (frame_trans _ _ _ _ (frame_trans _ _ _ _ H1 H2) H3).
Qed.

Lemma applyForces_frame f s j : frame j s (applyForces f s j).
Proof. unfold applyForces. frame_by_unfolding. Qed.

Lemma accumulateForces_frame s j : frame j s (accumulateForces s j).
Proof.
  unfold accumulateForces.
  pose proof (calculateForces_frame s j) as H.
  destruct (calculateForces s j) as [f s1]. cbn [snd] in H.
  eapply frame_trans; [exact H | apply applyForces_frame].
Qed.

Lemma integrateVelocity_frame dt s j : frame j s (integrateVelocity dt s j).
Proof. unfold integrateVelocity. frame_by_unfolding. Qed.

Lemma limitVelocity_frame s j : frame j s (limitVelocity s j).
Proof.
  unfold limitVelocity. destruct (Rltb _ _); [frame_by_unfolding | apply frame_refl].
Qed.

Lemma integratePosition_frame dt s j : frame j s (integratePosition dt s j).
Proof. unfold integratePosition. frame_by_unfolding. Qed.

Lemma gentleBoundary_frame a b s j : frame j s (gentleBoundary a b s j).
Proof. unfold gentleBoundary. frame_by_unfolding. Qed.

Lemma softBoundary_frame a b s j : frame j s (softBoundary a b s j).
Proof. unfold softBoundary. frame_by_unfolding. Qed.

Lemma integrateFish_frame dt s j : frame j s (integrateFish dt s j).
Proof.
  unfold integrateFish.
  eapply frame_trans; [|apply integratePosition_frame].
  eapply frame_trans; [|apply limitVelocity_frame].
  eapply frame_trans; [|apply integrateVelocity_frame].
  eapply frame_trans; [|apply accumulateForces_frame].
  eapply frame_trans; [|apply updatePanicState_frame].
  apply resetAcceleration_frame.
Qed.

Lemma updateFish_frame dt a b s j : frame j s (updateFish dt a b s j).
Proof.
  unfold updateFish.
  eapply frame_trans; [|apply softBoundary_frame].
  eapply frame_trans; [|apply gentleBoundary_frame].
  apply integrateFish_frame.
Qed.

(** ** The loop of [update] *)

Lemma keeps_refl i s : keeps i s s.
Proof. constructor; reflexivity. Qed.

Lemma keeps_trans i s1 s2 s3 : keeps i s1 s2 -> keeps i s2 s3 -> keeps i s1 s3.
Proof. intros [] []. constructor; congruence. Qed.

Lemma frame_keeps i j s s' : frame j s s' -> i <> j -> keeps i s s'.
Proof.
  intros [] Hne.
  constructor; try assumption;
    try (eapply writesAt_length; eassumption);
    eapply writesAt_lookup_ne; eassumption.
Qed.

Lemma frame_length_fishes j s s' : frame j s s' -> length (fishes s') = length (fishes s).
Proof. intros []. eapply writesAt_length; eassumption. Qed.

(** Updating the fish of a list of indices other than [i] keeps fish [i]. *)
Lemma fold_updateFish_keeps dt a b i : forall js s,
  i ∉ js -> keeps i s (fold_left (updateFish dt a b) js s).
Proof.
  induction js as [|j js IH]; intros s Hnotin; cbn [fold_left].
  - apply keeps_refl.
  - apply not_elem_of_cons in Hnotin as [Hne Hnotin].
    eapply keeps_trans; [|apply IH; exact Hnotin].
    eapply frame_keeps; [apply updateFish_frame | exact Hne].
Qed.

(** The loop up to fish [i], fish [i] itself, and the rest of the loop. *)
Lemma fold_updateFish_split dt a b n i s :
  (i < n)%nat ->
  fold_left (updateFish dt a b) (seq 0 n) s
  = fold_left (updateFish dt a b) (seq (S i) (n - S i))
      (updateFish dt a b (fold_left (updateFish dt a b) (seq 0 i) s) i).
Proof.
  intros Hi.
  replace n with (i + S (n - S i))%nat at 1 by lia.
  rewrite seq_app, fold_left_app. cbn [seq fold_left Nat.add]. reflexivity.
Qed.

Lemma updateBVHGeometry_keeps i s : keeps i s (updateBVHGeometry s).
Proof.
  unfold updateBVHGeometry.
  destruct (bvhGeometry s); [|apply keeps_refl].
  destruct (negb (bvhEnabled s)); [apply keeps_refl|].
  destruct (0 <? _)%nat; [|apply keeps_refl].
  constructor; reflexivity.
Qed.

Lemma set_bvhState_keeps i e b g c s : keeps i s (set_bvhState e b g c s).
Proof. constructor; reflexivity. Qed.

Lemma bvhTick_keeps i s : keeps i s (bvhTick s).
Proof.
  unfold bvhTick. destruct (bvhEnabled s); [|apply keeps_refl].
  cbv zeta. destruct (_ <=? _)%nat.
  - eapply keeps_trans; [apply set_bvhState_keeps|].
    eapply keeps_trans; [apply updateBVHGeometry_keeps|].
    apply set_bvhState_keeps.
  - apply set_bvhState_keeps.
Qed.

Lemma update_eq delta s :
  update delta s
  = fold_left (updateFish (Rmin delta 0.1)
                 (areaSize (options (bvhTick s)) * 0.5)
                 (height (options (bvhTick s)) * 0.5))
      (seq 0 (length (fishes (bvhTick s)))) (bvhTick s).
Proof. reflexivity. Qed.

(** Fish [i] as [update] leaves it: there is a state [si], reached by the
    loop just before fish [i], that keeps fish [i] as it was when [update]
    was called, and the final state keeps fish [i] as [updateFish] left
    it. *)
Lemma update_at delta s i :
  (i < length (fishes s))%nat ->
  exists si,
    keeps i s si
    /\ keeps i (updateFish (Rmin delta 0.1) (areaSize (options s) * 0.5)
                  (height (options s) * 0.5) si i)
             (update delta s).
Proof.
  intros Hi. rewrite update_eq.
  pose proof (bvhTick_keeps i s) as Hk.
  rewrite (keeps_options _ _ _ Hk), (keeps_length_fishes _ _ _ Hk).
  rewrite (fold_updateFish_split _ _ _ _ i) by exact Hi.
  match goal with
  | |- context [updateFish _ _ _ ?t i] => exists t
  end.
  split.
  - eapply keeps_trans; [exact Hk|].
    apply fold_updateFish_keeps. intros Hin%elem_of_seq. lia.
  - apply fold_updateFish_keeps. intros Hin%elem_of_seq. lia.
Qed.

(** ** Boundary containment *)

Lemma constrainAxis_within half p v :
  0.05 <= half -> - half <= fst (constrainAxis half p v) <= half.
Proof.
  intros Hhalf. unfold constrainAxis, Rltb.
  destruct (Rlt_dec p (- half)); [cbn; lra|].
  destruct (Rlt_dec half p); cbn; lra.
Qed.

Lemma softBoundary_position a b s i :
  (i < length (fishes s))%nat ->
  position (fishes (softBoundary a b s i) !!! i)
  = Vec3 (fst (constrainAxis a (THREE.x (position (fishes s !!! i)))
                 (THREE.x (velocities s !!! i))))
         (fst (constrainAxis b (THREE.y (position (fishes s !!! i)))
                 (THREE.y (velocities s !!! i))))
         (fst (constrainAxis a (THREE.z (position (fishes s !!! i)))
                 (THREE.z (velocities s !!! i)))).
Proof.
  intros Hi. unfold softBoundary. cbn [fishes set_fishes set_velocities].
  rewrite list_lookup_total_insert_eq by exact Hi. reflexivity.
Qed.

(** ** What the force functions write *)

Lemma wander_writes s j :
  let s' := snd (wander s j) in
  fishes s' = fishes s /\ velocities s' = velocities s
  /\ accelerations s' = accelerations s
  /\ panicMode s' = panicMode s /\ panicTimer s' = panicTimer s
  /\ wanderAngles s'
     = <[j := wanderAngles s !!! j + (draws (rng s) (cursor (rng s)) - 0.5) * 0.3]>
         (wanderAngles s).
Proof. unfold wander, random. cbn. repeat split. Qed.

Lemma avoidTemple_writes s j :
  let s' := snd (avoidTemple s j) in
  fishes s' = fishes s /\ velocities s' = velocities s
  /\ accelerations s' = accelerations s /\ wanderAngles s' = wanderAngles s
  /\ panicMode s' = panicMode s /\ panicTimer s' = panicTimer s.
Proof.
  unfold avoidTemple.
  destruct (temple s) as [b|]; [|cbn; repeat split].
  destruct (_templeBox s) eqn:E; cbv zeta;
    repeat match goal with
           | |- context [if ?c then _ else _] => destruct c
           end; cbn; repeat split.
Qed.

Lemma dangerVisit_panic o j fishPos acc e :
  let acc' := dangerVisit o j fishPos acc e in
  accPanicMode acc'
  = (if panicTrigger o fishPos e then <[j := true]> (accPanicMode acc)
     else accPanicMode acc)
  /\ accPanicTimer acc'
  = (if panicTrigger o fishPos e then <[j := panicDuration o]> (accPanicTimer acc)
     else accPanicTimer acc).
Proof.
  unfold dangerVisit, panicTrigger.
  destruct (visible e); cbn [negb andb]; [|split; reflexivity].
  destruct (Rltb _ (dangerDetectionDistance o)); cbn [andb]; [|split; reflexivity].
  destruct (Rltb _ (dangerEvasionDistance o)); cbn [andb]; [|split; reflexivity].
  destruct (Rltb _ (dangerEvasionDistance o * 0.5)); cbn; split; reflexivity.
Qed.

Lemma dangerLoop_panic o j fishPos es : forall acc,
  let acc' := fold_left (dangerVisit o j fishPos) es acc in
  accPanicMode acc'
  = (if existsb (panicTrigger o fishPos) es then <[j := true]> (accPanicMode acc)
     else accPanicMode acc)
  /\ accPanicTimer acc'
  = (if existsb (panicTrigger o fishPos) es
     then <[j := panicDuration o]> (accPanicTimer acc)
     else accPanicTimer acc).
Proof.
  induction es as [|e es IH]; intros acc; cbn [fold_left existsb].
  - split; reflexivity.
  - destruct (IH (dangerVisit o j fishPos acc e)) as [Hm Ht].
    destruct (dangerVisit_panic o j fishPos acc e) as [Hm0 Ht0].
    cbv zeta. rewrite Hm, Ht, Hm0, Ht0.
    destruct (panicTrigger o fishPos e), (existsb (panicTrigger o fishPos) es);
      cbn [orb]; rewrite ?list_insert_insert_eq; split; reflexivity.
Qed.

(** The state [dangerEvasion] returns is the state it was given with the
    panic tracks of the loop written back. *)
Lemma dangerEvasion_state s j :
  snd (dangerEvasion s j)
  = set_panicTimer
      (if panicTriggered s j then <[j := panicDuration (options s)]> (panicTimer s)
       else panicTimer s)
      (set_panicMode
         (if panicTriggered s j then <[j := true]> (panicMode s) else panicMode s) s).
Proof.
  unfold dangerEvasion, panicTriggered.
  match goal with
  | |- context [fold_left ?f ?es ?a] =>
      destruct (dangerLoop_panic (options s) j
                  (getWorldPosition s (fishes s !!! j)) es a) as [Hm Ht];
      set (acc := fold_left f es a) in *
  end.
  cbn [accPanicMode accPanicTimer] in Hm, Ht. cbv zeta. rewrite <- Hm, <- Ht.
  repeat match goal with
         | |- context [if ?c then _ else _] => destruct c
         end; reflexivity.
Qed.

Lemma dangerEvasion_writes s j :
  let s' := snd (dangerEvasion s j) in
  fishes s' = fishes s /\ velocities s' = velocities s
  /\ accelerations s' = accelerations s /\ wanderAngles s' = wanderAngles s
  /\ panicMode s'
     = (if panicTriggered s j then <[j := true]> (panicMode s) else panicMode s)
  /\ panicTimer s'
     = (if panicTriggered s j then <[j := panicDuration (options s)]> (panicTimer s)
        else panicTimer s).
Proof. cbv zeta. rewrite dangerEvasion_state. cbn. repeat split. Qed.

Lemma calculateForces_writes s j :
  let s' := snd (calculateForces s j) in
  fishes s' = fishes s /\ velocities s' = velocities s
  /\ accelerations s' = accelerations s.
Proof.
  unfold calculateForces.
  pose proof (wander_writes s j) as (Hf1 & Hv1 & Ha1 & _).
  destruct (wander s j) as [wf s1]. cbn [snd] in *.
  pose proof (avoidTemple_writes s1 j) as (Hf2 & Hv2 & Ha2 & _).
  destruct (avoidTemple s1 j) as [tf s2]. cbn [snd] in *.
  pose proof (dangerEvasion_writes s2 j) as (Hf3 & Hv3 & Ha3 & _).
  destruct (dangerEvasion s2 j) as [df s3]. cbn [snd] in *.
  repeat split; congruence.
Qed.

Lemma distanceTo_along_x a a' b c :
  THREE.distanceTo (Vec3 a b c) (Vec3 a' b c) = Rabs (a - a').
Proof.
  unfold THREE.distanceTo, THREE.length, THREE.lengthSq, THREE.subVectors; cbn.
  replace ((a - a') * (a - a') + (b - b) * (b - b) + (c - c) * (c - c))
    with (Rsqr (a - a')) by (unfold Rsqr; ring).
  apply sqrt_Rsqr_abs.
Qed.

(** C3 (counterexample).  One fish at the origin, default options, a
    visible threat at distance 5, random draws 0: [wander] changes the
    fish's wander angle (from 0 to -0.15) and [dangerEvasion] changes its
    panic flag (from false to true) and its panic timer (from 0 to 120). *)
Lemma C3_force_functions_write_state :
  let s := set_rng zeroRng
             (soloShoal defaults None [nearThreat] THREE.zero (Vec3 1 0 0)) in
  wanderAngles s = [0] /\ wanderAngles (snd (wander s 0)) = [-0.15]
  /\ panicMode s = [false] /\ panicMode (snd (dangerEvasion s 0)) = [true]
  /\ panicTimer s = [0] /\ panicTimer (snd (dangerEvasion s 0)) = [120]
  /\ wanderAngles (snd (wander s 0)) <> wanderAngles s
  /\ panicMode (snd (dangerEvasion s 0)) <> panicMode s.
Proof.
  intros s.
  assert (wanderAngles (snd (wander s 0)) = [-0.15]) as Hw.
  { destruct (wander_writes s 0) as (_ & _ & _ & _ & _ & ->).
    cbn. f_equal. lra. }
  assert (panicTriggered s 0 = true) as Htrig.
  { unfold panicTriggered, panicTrigger. cbn.
    unfold THREE.zero. rewrite distanceTo_along_x.
    assert (Rabs (0 - 5) = 5) as -> by (rewrite Rabs_left; lra).
    Rcmp. reflexivity. }
  destruct (dangerEvasion_writes s 0) as (_ & _ & _ & _ & Hm & Ht).
  rewrite Htrig in Hm, Ht.
  rewrite Hw, Hm, Ht. cbn.
  repeat split; try reflexivity.
  - intros H. injection H as H. lra.
  - discriminate.
Qed.

(** C3 (as amended).  Computing the five forces never writes a position,
    a velocity or an acceleration.  [flock] and [avoidTerrain] return a
    vector and write nothing; [avoidTemple] writes none of the six tracks;
    [wander] writes only the wander angle of its own fish; [dangerEvasion]
    writes only the panic flag and timer of its own fish, and only when a
    visible threat is within half the evasion distance. *)
Theorem C3_force_functions_frame (s : MyShoal) (i : nat) :
  (let s' := snd (wander s i) in
   fishes s' = fishes s /\ velocities s' = velocities s
   /\ panicMode s' = panicMode s /\ panicTimer s' = panicTimer s
   /\ exists angle, wanderAngles s' = <[i := angle]> (wanderAngles s))
  /\ (let s' := snd (avoidTemple s i) in
      fishes s' = fishes s /\ velocities s' = velocities s
      /\ wanderAngles s' = wanderAngles s
      /\ panicMode s' = panicMode s /\ panicTimer s' = panicTimer s)
  /\ (let s' := snd (dangerEvasion s i) in
      fishes s' = fishes s /\ velocities s' = velocities s
      /\ wanderAngles s' = wanderAngles s
      /\ panicMode s'
         = (if panicTriggered s i then <[i := true]> (panicMode s) else panicMode s)
      /\ panicTimer s'
         = (if panicTriggered s i
            then <[i := panicDuration (options s)]> (panicTimer s)
            else panicTimer s))
  /\ (let s' := snd (calculateForces s i) in
      fishes s' = fishes s /\ velocities s' = velocities s
      /\ accelerations s' = accelerations s).
Proof.
  split; [|split; [|split]].
  - destruct (wander_writes s i) as (Hf & Hv & _ & Hm & Ht & Hw).
    cbv zeta. repeat split; try assumption. eexists. exact Hw.
  - destruct (avoidTemple_writes s i) as (Hf & Hv & _ & Hw & Hm & Ht).
    cbv zeta. repeat split; assumption.
  - destruct (dangerEvasion_writes s i) as (Hf & Hv & _ & Hw & Hm & Ht).
    cbv zeta. repeat split; assumption.
  - apply calculateForces_writes.
Qed.

(** ** One agent at a time *)

Lemma lockstep_inRange s i : lockstep s -> (i < length (fishes s))%nat -> inRange s i.
Proof. unfold lockstep, inRange. intros (-> & -> & -> & -> & ->) Hi. repeat split; exact Hi. Qed.

Lemma frame_inRange j s s' i : frame j s s' -> inRange s i -> inRange s' i.
Proof.
  intros [] (H1 & H2 & H3 & H4 & H5 & H6). unfold inRange.
  repeat match goal with
         | H : writesAt _ _ _ |- _ => apply writesAt_length in H; rewrite H; clear H
         end.
  repeat split; assumption.
Qed.

Lemma keeps_inRange j s s' i : keeps j s s' -> inRange s i -> inRange s' i.
Proof.
  intros [] (H1 & H2 & H3 & H4 & H5 & H6). unfold inRange.
  repeat split; congruence.
Qed.

Lemma keeps_agentAt i s s' : keeps i s s' -> agentAt s' i = agentAt s i.
Proof. intros []. unfold agentAt. congruence. Qed.

(** Each step of the loop body, read on the agent it updates. *)

Ltac agent_step :=
  unfold agentAt;
  cbn [fishes velocities accelerations wanderAngles panicMode panicTimer options
       set_fishes set_velocities set_accelerations set_wanderAngles
       set_panicMode set_panicTimer set_templeBox set_rng];
  rewrite ?list_lookup_total_insert_eq by assumption.

Lemma resetAcceleration_agent s i :
  inRange s i ->
  agentAt (resetAcceleration s i) i = spec_resetAcceleration (agentAt s i).
Proof.
  intros (H1 & H2 & H3 & H4 & H5 & H6). unfold resetAcceleration.
  agent_step. reflexivity.
Qed.

Lemma updatePanicState_agent s i :
  inRange s i ->
  agentAt (updatePanicState s i) i = spec_panicDecay (agentAt s i).
Proof.
  intros (H1 & H2 & H3 & H4 & H5 & H6).
  unfold updatePanicState, spec_panicDecay, panicDecay, setPanic.
  cbn [agentAt aPanic aPanicTimer fst snd].
  destruct (panicMode s !!! i : bool) eqn:Em.
  - cbn [panicTimer set_panicTimer].
    rewrite list_lookup_total_insert_eq by assumption.
    destruct (Rleb (panicTimer s !!! i - 1) 0); agent_step; cbn [negb];
      rewrite ?Em; reflexivity.
  - unfold agentAt. rewrite Em. reflexivity.
Qed.

Lemma panicTriggered_ext s s' i :
  options s' = options s -> matrixWorld s' = matrixWorld s ->
  fishes s' = fishes s -> dangerousEntities s' = dangerousEntities s ->
  panicTriggered s' i = panicTriggered s i.
Proof.
  intros Ho Hm Hf He. unfold panicTriggered, getWorldPosition.
  rewrite Ho, Hm, Hf, He. reflexivity.
Qed.

Lemma calculateForces_agent s i :
  inRange s i ->
  agentAt (snd (calculateForces s i)) i
  = setPanic
      (panicSet (panicDuration (options s)) (panicTriggered s i)
         (aPanic (agentAt s i), aPanicTimer (agentAt s i)))
      (setWanderAngle
         (aWanderAngle (agentAt s i) + (draws (rng s) (cursor (rng s)) - 0.5) * 0.3)
         (agentAt s i)).
Proof.
  intros (H1 & H2 & H3 & H4 & H5 & H6). unfold calculateForces.
  pose proof (wander_writes s i) as (Hf1 & Hv1 & Ha1 & Hm1 & Ht1 & Hw1).
  pose proof (wander_frame s i) as Hfr1.
  destruct (wander s i) as [wf s1]. cbn [snd] in *.
  pose proof (avoidTemple_writes s1 i) as (Hf2 & Hv2 & Ha2 & Hw2 & Hm2 & Ht2).
  pose proof (avoidTemple_frame s1 i) as Hfr2.
  destruct (avoidTemple s1 i) as [tf s2]. cbn [snd] in *.
  pose proof (dangerEvasion_writes s2 i) as (Hf3 & Hv3 & Ha3 & Hw3 & Hm3 & Ht3).
  destruct (dangerEvasion s2 i) as [df s3]. cbn [snd] in *.
  assert (options s2 = options s) as Ho.
  { rewrite (frame_options _ _ _ Hfr2). apply (frame_options _ _ _ Hfr1). }
  assert (panicTriggered s2 i = panicTriggered s i) as Htrig.
  { apply panicTriggered_ext; try congruence.
    - rewrite (frame_matrixWorld _ _ _ Hfr2). apply (frame_matrixWorld _ _ _ Hfr1).
    - rewrite (frame_dangerousEntities _ _ _ Hfr2).
      apply (frame_dangerousEntities _ _ _ Hfr1). }
  unfold agentAt, setPanic, setWanderAngle, panicSet; cbn [aPosition aVelocity
    aAcceleration aWanderAngle aPanic aPanicTimer].
  rewrite Hf3, Hf2, Hf1, Hv3, Hv2, Hv1, Ha3, Ha2, Ha1, Hw3, Hw2, Hw1, Hm3, Ht3.
  rewrite Htrig, Ho, Hm2, Hm1, Ht2, Ht1.
  rewrite list_lookup_total_insert_eq by assumption.
  destruct (panicTriggered s i); cbn [fst snd];
    rewrite ?list_lookup_total_insert_eq by assumption; reflexivity.
Qed.

Lemma applyForces_agent f s i :
  inRange s i ->
  agentAt (applyForces f s i) i
  = setAcceleration
      (THREE.clampLength
         (THREE.add
            (THREE.add
               (THREE.add
                  (THREE.add (THREE.add (aAcceleration (agentAt s i)) (flockForce f))
                     (THREE.multiplyScalar (wanderForce f) (wanderStrength (options s))))
                  (terrainForce f))
               (templeForce f))
            (THREE.multiplyScalar (dangerForce f) (dangerEvasionWeight (options s))))
         0 (maxForce (options s) * 2))
      (agentAt s i).
Proof.
  intros (H1 & H2 & H3 & H4 & H5 & H6). unfold applyForces.
  agent_step. reflexivity.
Qed.

Lemma integrateVelocity_agent dt s i :
  inRange s i ->
  agentAt (integrateVelocity dt s i) i = spec_integrateVelocity dt (agentAt s i).
Proof.
  intros (H1 & H2 & H3 & H4 & H5 & H6). unfold integrateVelocity.
  agent_step. reflexivity.
Qed.

Lemma limitVelocity_agent s i :
  inRange s i ->
  agentAt (limitVelocity s i) i = spec_clampSpeed (options s) (agentAt s i).
Proof.
  intros (H1 & H2 & H3 & H4 & H5 & H6).
  unfold limitVelocity, spec_clampSpeed, speedLimit.
  cbn [agentAt aPanic aVelocity].
  destruct (panicMode s !!! i : bool); destruct (Rltb _ _);
    agent_step; reflexivity.
Qed.

Lemma integratePosition_agent dt s i :
  inRange s i ->
  agentAt (integratePosition dt s i) i = spec_integratePosition dt (agentAt s i).
Proof.
  intros (H1 & H2 & H3 & H4 & H5 & H6). unfold integratePosition.
  agent_step. reflexivity.
Qed.

Lemma gentleBoundary_agent a b s i :
  inRange s i ->
  agentAt (gentleBoundary a b s i) i = agentGentleBoundary a b (agentAt s i).
Proof.
  intros (H1 & H2 & H3 & H4 & H5 & H6). unfold gentleBoundary.
  agent_step. reflexivity.
Qed.

Lemma softBoundary_agent a b s i :
  inRange s i ->
  agentAt (softBoundary a b s i) i = agentSoftBoundary a b (agentAt s i).
Proof.
  intros (H1 & H2 & H3 & H4 & H5 & H6). unfold softBoundary.
  agent_step. reflexivity.
Qed.

(** Summing onto a freshly reset acceleration. *)
Lemma applyForces_fresh o f :
  THREE.clampLength
    (THREE.add
       (THREE.add
          (THREE.add
             (THREE.add (THREE.add THREE.zero (flockForce f))
                (THREE.multiplyScalar (wanderForce f) (wanderStrength o)))
             (terrainForce f))
          (templeForce f))
       (THREE.multiplyScalar (dangerForce f) (dangerEvasionWeight o)))
    0 (maxForce o * 2)
  = spec_acceleration o f.
Proof.
  unfold spec_acceleration.
  replace (maxForce o * 2) with (2 * maxForce o) by ring.
  f_equal.
  generalize (THREE.multiplyScalar (wanderForce f) (wanderStrength o)).
  generalize (THREE.multiplyScalar (dangerForce f) (dangerEvasionWeight o)).
  generalize (flockForce f), (terrainForce f), (templeForce f).
  intros [] [] [] [] []. unfold THREE.add, THREE.zero; cbn [THREE.x THREE.y THREE.z].
  apply Vec3_eq; ring.
Qed.

(** Steps 1 to 9 on the agent they update. *)
Lemma integrateFish_agent dt s i :
  inRange s i ->
  let s2 := updatePanicState (resetAcceleration s i) i in
  let f := fst (calculateForces s2 i) in
  let s5 := snd (calculateForces s2 i) in
  agentAt s2 i = spec_panicDecay (spec_resetAcceleration (agentAt s i))
  /\ agentAt (integrateFish dt s i) i
     = spec_integratePosition dt
         (spec_clampSpeed (options s)
            (spec_integrateVelocity dt
               (setAcceleration (spec_acceleration (options s) f) (agentAt s5 i)))).
Proof.
  intros Hin s2 f s5.
  pose proof (resetAcceleration_frame s i) as F1.
  pose proof (frame_inRange _ _ _ _ F1 Hin) as R1.
  pose proof (updatePanicState_frame (resetAcceleration s i) i) as F2.
  pose proof (frame_inRange _ _ _ _ F2 R1) as R2. fold s2 in F2, R2.
  assert (agentAt s2 i = spec_panicDecay (spec_resetAcceleration (agentAt s i))) as A2.
  { unfold s2. rewrite updatePanicState_agent, resetAcceleration_agent by assumption.
    reflexivity. }
  split; [exact A2|].
  pose proof (calculateForces_frame s2 i) as F5.
  pose proof (calculateForces_writes s2 i) as (_ & _ & Hacc). fold s5 in F5, Hacc.
  assert (integrateFish dt s i
          = integratePosition dt
              (limitVelocity (integrateVelocity dt (applyForces f s5 i) i) i) i) as ->.
  { unfold integrateFish, accumulateForces. fold s2.
    rewrite (surjective_pairing (calculateForces s2 i)). reflexivity. }
  assert (options s2 = options s) as O2.
  { rewrite (frame_options _ _ _ F2). apply (frame_options _ _ _ F1). }
  assert (aAcceleration (agentAt s2 i) = THREE.zero) as Z2.
  { rewrite A2. reflexivity. }
  clearbody f s5. clear A2 F1 R1 F2. clearbody s2.
  pose proof (frame_inRange _ _ _ _ F5 R2) as R5.
  assert (options s5 = options s) as O5.
  { rewrite (frame_options _ _ _ F5). exact O2. }
  pose proof (applyForces_frame f s5 i) as F6.
  pose proof (frame_inRange _ _ _ _ F6 R5) as R6.
  pose proof (integrateVelocity_frame dt (applyForces f s5 i) i) as F7.
  pose proof (frame_inRange _ _ _ _ F7 R6) as R7.
  pose proof (limitVelocity_frame (integrateVelocity dt (applyForces f s5 i) i) i) as F8.
  pose proof (frame_inRange _ _ _ _ F8 R7) as R8.
  rewrite integratePosition_agent, limitVelocity_agent, integrateVelocity_agent,
    applyForces_agent by assumption.
  rewrite (frame_options _ _ _ F7), (frame_options _ _ _ F6), O5.
  assert (aAcceleration (agentAt s5 i) = THREE.zero) as ->.
  { cbn [agentAt aAcceleration]. rewrite Hacc. exact Z2. }
  rewrite applyForces_fresh. reflexivity.
Qed.

(** The whole loop body on the agent it updates. *)
Lemma updateFish_agent dt a b s i :
  inRange s i ->
  agentAt (updateFish dt a b s i) i
  = agentSoftBoundary a b (agentGentleBoundary a b (agentAt (integrateFish dt s i) i)).
Proof.
  intros Hin. unfold updateFish.
  pose proof (frame_inRange _ _ _ _ (integrateFish_frame dt s i) Hin) as R9.
  pose proof (frame_inRange _ _ _ _ (gentleBoundary_frame a b _ i) R9) as R10.
  rewrite softBoundary_agent, gentleBoundary_agent by assumption. reflexivity.
Qed.

(** ** The update pipeline *)

(** The state in which the loop of [update] reaches fish [i], and what
    [update] leaves of that fish. *)
Lemma update_agent delta s i :
  lockstep s -> (i < length (fishes s))%nat ->
  exists si,
    inRange si i /\ agentAt si i = agentAt s i /\ options si = options s
    /\ matrixWorld si = matrixWorld s /\ dangerousEntities si = dangerousEntities s
    /\ terrain si = terrain s
    /\ agentAt (update delta s) i
       = agentSoftBoundary (areaSize (options s) * 0.5) (height (options s) * 0.5)
           (agentGentleBoundary (areaSize (options s) * 0.5) (height (options s) * 0.5)
              (agentAt (integrateFish (Rmin delta 0.1) si i) i)).
Proof.
  intros Hlock Hi.
  destruct (update_at delta s i Hi) as (si & Hsi & Hfinal).
  pose proof (keeps_inRange _ _ _ _ Hsi (lockstep_inRange _ _ Hlock Hi)) as Rsi.
  exists si. repeat split; try apply Rsi.
  - apply keeps_agentAt, Hsi.
  - apply (keeps_options _ _ _ Hsi).
  - apply (keeps_matrixWorld _ _ _ Hsi).
  - apply (keeps_dangerousEntities _ _ _ Hsi).
  - apply (keeps_terrain _ _ _ Hsi).
  - rewrite (keeps_agentAt _ _ _ Hfinal). apply updateFish_agent, Rsi.
Qed.

Lemma soloShoal_lockstep o t es p v : lockstep (soloShoal o t es p v).
Proof. unfold lockstep; cbn. repeat split. Qed.

(** ** The speed limit *)

Lemma speedLimit_nonneg o panic :
  0 <= maxSpeed o -> 0 <= panicSpeedMultiplier o -> 0 <= speedLimit o panic.
Proof.
  intros Hs Hp. unfold speedLimit. destruct panic; [|exact Hs].
  apply Rmult_le_pos; assumption.
Qed.

(** After the speed clamp the speed is within the limit in force. *)
Lemma spec_clampSpeed_bound o a :
  0 <= maxSpeed o -> 0 <= panicSpeedMultiplier o ->
  THREE.length (aVelocity (spec_clampSpeed o a))
    <= speedLimit o (aPanic (spec_clampSpeed o a))
  /\ aPanic (spec_clampSpeed o a) = aPanic a
  /\ aPosition (spec_clampSpeed o a) = aPosition a.
Proof.
  intros Hs Hp. pose proof (speedLimit_nonneg o (aPanic a) Hs Hp) as Hlim.
  unfold spec_clampSpeed, Rltb.
  destruct (Rlt_dec (speedLimit o (aPanic a)) (THREE.length (aVelocity a)))
    as [Hover|Hunder]; cbn [setVelocity aVelocity aPanic aPosition].
  - split; [|split; reflexivity].
    rewrite length_multiplyScalar, Rabs_pos_eq.
    + apply Req_le. field. lra.
    + apply Rmult_le_pos; [exact Hlim|]. apply Rlt_le, Rinv_0_lt_compat. lra.
  - split; [lra | split; reflexivity].
Qed.

(** ** A tick that ends above the speed limit *)

(** Decide every [Rmin] and [Rmax] in the goal. *)
Ltac Rminmax :=
  repeat match goal with
    | |- context [Rmin ?a ?b] =>
        first [ rewrite (Rmin_left a b) by lra | rewrite (Rmin_right a b) by lra ]
    | |- context [Rmax ?a ?b] =>
        first [ rewrite (Rmax_left a b) by lra | rewrite (Rmax_right a b) by lra ]
    end.

Lemma flockBounds_example :
  flockBounds calmOptions (Vec3 0 (-45) 0) (Vec3 0 80 0) = Vec3 0 9.5 0.
Proof.
  unfold flockBounds.
  cbn [areaSize height boundsMargin maxSpeed boundsWeight calmOptions THREE.x THREE.y THREE.z].
  Rcmp.
  replace (0 + (50 - (-45 + 100 * 0.5)) / 50) with 0.9 by lra.
  unfold THREE.lengthSq; cbn [THREE.x THREE.y THREE.z]. Rcmp.
  rewrite normalize_axis_y by lra.
  Rminmax.
  unfold THREE.multiplyScalar, THREE.sub, THREE.subVectors; cbn [THREE.x THREE.y THREE.z].
  match goal with
  | |- THREE.clampLength ?v _ _ = _ => replace v with (Vec3 0 144 0) by (apply Vec3_eq; lra)
  end.
  rewrite clampLength_axis_y by lra. Rminmax. apply Vec3_eq; lra.
Qed.

Lemma calculateForces_forces s i :
  let f := fst (calculateForces s i) in
  let s1 := snd (wander s i) in
  let s2 := snd (avoidTemple s1 i) in
  flockForce f = flock s i
  /\ wanderForce f = fst (wander s i)
  /\ terrainForce f = avoidTerrain s1 i
  /\ templeForce f = fst (avoidTemple s1 i)
  /\ dangerForce f = fst (dangerEvasion s2 i).
Proof.
  unfold calculateForces.
  destruct (wander s i) as [wf s1]. cbn [fst snd].
  destruct (avoidTemple s1 i) as [tf s2]. cbn [fst snd].
  destruct (dangerEvasion s2 i) as [df s3]. cbn. repeat split.
Qed.

Lemma avoidTerrain_none s i : terrain s = None -> avoidTerrain s i = THREE.zero.
Proof. intros H. unfold avoidTerrain. rewrite H. reflexivity. Qed.

Lemma avoidTemple_none s i : temple s = None -> avoidTemple s i = (THREE.zero, s).
Proof. intros H. unfold avoidTemple. rewrite H. reflexivity. Qed.

Lemma dangerEvasion_none s i :
  dangerousEntities s = [] -> fst (dangerEvasion s i) = THREE.zero.
Proof. intros H. unfold dangerEvasion. rewrite H. reflexivity. Qed.

Lemma flock_edgeShoal : flock edgeShoal 0 = Vec3 0 9.5 0.
Proof.
  unfold flock, edgeShoal.
  cbn [soloShoal fishes velocities options length seq fold_left].
  unfold flockVisit. cbn [Nat.eqb total Nat.ltb Nat.leb].
  rewrite add_zero_l.
  change ([ {| position := Vec3 0 (-45) 0; scale := 1; baseSizeScale := 1;
               colorDraws := (0, 0) |} ] !!! 0%nat)
    with {| position := Vec3 0 (-45) 0; scale := 1; baseSizeScale := 1;
            colorDraws := (0, 0) |}.
  change ([Vec3 0 80 0] !!! 0%nat) with (Vec3 0 80 0).
  cbn [position]. apply flockBounds_example.
Qed.

Lemma edgeShoal_prepared :
  updatePanicState (resetAcceleration edgeShoal 0) 0 = edgeShoal.
Proof. reflexivity. Qed.

Lemma edgeShoal_acceleration :
  spec_acceleration calmOptions (fst (calculateForces edgeShoal 0)) = Vec3 0 9.5 0.
Proof.
  destruct (calculateForces_forces edgeShoal 0) as (Hf & Hw & Ht & Hte & Hd).
  unfold spec_acceleration. rewrite Hf, Ht, Hte, Hd.
  cbn [wanderStrength dangerEvasionWeight maxForce calmOptions].
  rewrite multiplyScalar_0, flock_edgeShoal.
  rewrite avoidTerrain_none by reflexivity.
  rewrite avoidTemple_none by reflexivity. cbn [fst snd].
  rewrite dangerEvasion_none by reflexivity.
  rewrite multiplyScalar_zero, !add_zero_r, clampLength_axis_y by lra.
  Rminmax. reflexivity.
Qed.

Lemma edgeShoal_inRange : inRange edgeShoal 0.
Proof. unfold inRange; cbn. lia. Qed.

Lemma Agent_eq p v a w m t p' v' a' w' m' t' :
  p = p' -> v = v' -> a = a' -> w = w' -> m = m' -> t = t' ->
  {| aPosition := p; aVelocity := v; aAcceleration := a; aWanderAngle := w;
     aPanic := m; aPanicTimer := t |}
  = {| aPosition := p'; aVelocity := v'; aAcceleration := a'; aWanderAngle := w';
       aPanic := m'; aPanicTimer := t' |}.
Proof. intros -> -> -> -> -> ->. reflexivity. Qed.

Lemma edgeShoal_sensed :
  agentAt (snd (calculateForces edgeShoal 0)) 0
  = {| aPosition := Vec3 0 (-45) 0; aVelocity := Vec3 0 80 0;
       aAcceleration := THREE.zero; aWanderAngle := 0;
       aPanic := false; aPanicTimer := 0 |}.
Proof.
  rewrite calculateForces_agent by apply edgeShoal_inRange.
  change (panicTriggered edgeShoal 0) with false.
  unfold setPanic, setWanderAngle, panicSet, agentAt, edgeShoal;
    cbn [soloShoal fishes velocities accelerations wanderAngles panicMode panicTimer
         rng draws cursor aPosition aVelocity aAcceleration aWanderAngle aPanic
         aPanicTimer fst snd].
  apply Agent_eq; try reflexivity.
  change ([0] !!! 0%nat) with 0. lra.
Qed.

Lemma edgeShoal_integrated :
  agentAt (integrateFish 0.1 edgeShoal 0) 0
  = {| aPosition := Vec3 0 (-37) 0; aVelocity := Vec3 0 80 0;
       aAcceleration := Vec3 0 9.5 0; aWanderAngle := 0;
       aPanic := false; aPanicTimer := 0 |}.
Proof.
  destruct (integrateFish_agent 0.1 edgeShoal 0 edgeShoal_inRange) as [_ ->].
  rewrite edgeShoal_prepared.
  change (options edgeShoal) with calmOptions.
  rewrite edgeShoal_acceleration, edgeShoal_sensed.
  unfold spec_integrateVelocity, setAcceleration, setVelocity;
    cbn [aPosition aVelocity aAcceleration aWanderAngle aPanic aPanicTimer].
  replace (THREE.add (Vec3 0 80 0) (THREE.multiplyScalar (Vec3 0 9.5 0) 0.1))
    with (Vec3 0 80.95 0)
    by (unfold THREE.add, THREE.multiplyScalar; cbn; apply Vec3_eq; lra).
  unfold spec_clampSpeed, speedLimit;
    cbn [aPosition aVelocity aAcceleration aWanderAngle aPanic aPanicTimer
         maxSpeed calmOptions].
  rewrite length_axis_y, Rabs_pos_eq by lra. Rcmp.
  unfold spec_integratePosition, setVelocity, setAgentPosition;
    cbn [aPosition aVelocity aAcceleration aWanderAngle aPanic aPanicTimer].
  apply Agent_eq; try reflexivity;
    unfold THREE.add, THREE.multiplyScalar; cbn [THREE.x THREE.y THREE.z];
    apply Vec3_eq; try lra; field.
Qed.

Lemma update_edgeShoal :
  update 0.1 edgeShoal = updateFish (Rmin 0.1 0.1) (200 * 0.5) (100 * 0.5) edgeShoal 0.
Proof. reflexivity. Qed.

(** C1 (counterexample).  Default options but no wander, one fish at
    (0, -45, 0) rising at the maximum speed 80, not panicking, no terrain,
    temple or threat, [update 0.1].  The speed clamp brings the velocity
    back to (0, 80, 0) and the fish moves to y = -37, within 20 of the
    floor; step 10 then adds 0.5 * (1 - 13/20) = 0.175 to the vertical
    velocity.  When [update] returns the speed is 80.175, above
    [maxSpeed] = 80, and the fish is not panicking. *)
Lemma C1_speed_exceeds_limit_after_update :
  THREE.length (velocities edgeShoal !!! 0%nat) = 80
  /\ maxSpeed (options edgeShoal) = 80
  /\ panicMode (update 0.1 edgeShoal) !!! 0%nat = false
  /\ velocities (update 0.1 edgeShoal) !!! 0%nat = Vec3 0 80.175 0
  /\ maxSpeed (options edgeShoal) < THREE.length (velocities (update 0.1 edgeShoal) !!! 0%nat).
Proof.
  assert (agentAt (update 0.1 edgeShoal) 0
          = {| aPosition := Vec3 0 (-37) 0; aVelocity := Vec3 0 80.175 0;
               aAcceleration := Vec3 0 9.5 0; aWanderAngle := 0;
               aPanic := false; aPanicTimer := 0 |}) as H.
  { rewrite update_edgeShoal.
    replace (Rmin 0.1 0.1) with 0.1 by (rewrite Rmin_left; lra).
    rewrite updateFish_agent by apply edgeShoal_inRange.
    rewrite edgeShoal_integrated.
    unfold agentGentleBoundary, agentSoftBoundary, setVelocity, setAgentPosition,
      turnAxis, constrainAxis, boundaryMargin, turnStrength;
      cbn [aPosition aVelocity aAcceleration aWanderAngle aPanic aPanicTimer
           THREE.x THREE.y THREE.z].
    Rcmp. cbn [aPosition aVelocity aAcceleration aWanderAngle aPanic aPanicTimer
               THREE.x THREE.y THREE.z fst snd]. Rcmp. cbn [fst snd].
    apply Agent_eq; try reflexivity. apply Vec3_eq; lra. }
  assert (velocities (update 0.1 edgeShoal) !!! 0%nat = Vec3 0 80.175 0) as Hv.
  { change (velocities (update 0.1 edgeShoal) !!! 0%nat)
      with (aVelocity (agentAt (update 0.1 edgeShoal) 0)).
    rewrite H. reflexivity. }
  split.
  { change (velocities edgeShoal !!! 0%nat) with (Vec3 0 80 0).
    rewrite length_axis_y, Rabs_pos_eq; lra. }
  split; [reflexivity|].
  split.
  { change (panicMode (update 0.1 edgeShoal) !!! 0%nat)
      with (aPanic (agentAt (update 0.1 edgeShoal) 0)).
    rewrite H. reflexivity. }
  split; [exact Hv|].
  rewrite Hv, length_axis_y, Rabs_pos_eq by lra.
  change (maxSpeed (options edgeShoal)) with 80. lra.
Qed.

(** ** Panic decay *)

Lemma panicTriggered_same s s' i :
  options s' = options s -> matrixWorld s' = matrixWorld s ->
  position (fishes s' !!! i) = position (fishes s !!! i) ->
  dangerousEntities s' = dangerousEntities s ->
  panicTriggered s' i = panicTriggered s i.
Proof.
  intros Ho Hm Hf He. unfold panicTriggered, getWorldPosition.
  rewrite Ho, Hm, Hf, He. reflexivity.
Qed.

Lemma prepared_fishes s i :
  fishes (updatePanicState (resetAcceleration s i) i) = fishes s.
Proof.
  unfold updatePanicState.
  destruct (panicMode (resetAcceleration s i) !!! i : bool); [|reflexivity].
  cbv zeta. destruct (Rleb _ 0); reflexivity.
Qed.

Lemma spec_panicDecay_panic a :
  (aPanic (spec_panicDecay a), aPanicTimer (spec_panicDecay a))
  = panicDecay (aPanic a, aPanicTimer a).
Proof.
  unfold spec_panicDecay; cbn [setPanic aPanic aPanicTimer].
  symmetry. apply surjective_pairing.
Qed.

(** The steps after the forces leave the panic state alone. *)
Lemma after_forces_panic dt o a b v a5 :
  let final :=
    agentSoftBoundary a b
      (agentGentleBoundary a b
         (spec_integratePosition dt
            (spec_clampSpeed o (spec_integrateVelocity dt (setAcceleration v a5))))) in
  aPanic final = aPanic a5 /\ aPanicTimer final = aPanicTimer a5.
Proof.
  unfold agentSoftBoundary, agentGentleBoundary, spec_integratePosition,
    spec_clampSpeed, spec_integrateVelocity.
  destruct (Rltb _ _); cbn; split; reflexivity.
Qed.

(** What one call of [update] does to the panic state of fish [i]. *)
Lemma update_panic delta s i :
  lockstep s -> (i < length (fishes s))%nat ->
  panicOf (update delta s) i
  = panicTick (panicDuration (options s)) (panicTriggered s i) (panicOf s i).
Proof.
  intros Hlock Hi.
  destruct (update_agent delta s i Hlock Hi)
    as (si & Rsi & Asi & Osi & Msi & Esi & _ & Hfinal).
  destruct (integrateFish_agent (Rmin delta 0.1) si i Rsi) as [A2 A9].
  set (s2 := updatePanicState (resetAcceleration si i) i) in *.
  assert (inRange s2 i) as R2.
  { eapply frame_inRange; [apply updatePanicState_frame|].
    eapply frame_inRange; [apply resetAcceleration_frame | exact Rsi]. }
  pose proof (calculateForces_agent s2 i R2) as A5.
  assert (options s2 = options s) as O2.
  { unfold s2. rewrite (frame_options _ _ _ (updatePanicState_frame _ i)),
      (frame_options _ _ _ (resetAcceleration_frame si i)). exact Osi. }
  assert (panicTriggered s2 i = panicTriggered s i) as Htrig.
  { apply panicTriggered_same.
    - exact O2.
    - unfold s2. rewrite (frame_matrixWorld _ _ _ (updatePanicState_frame _ i)),
        (frame_matrixWorld _ _ _ (resetAcceleration_frame si i)). exact Msi.
    - unfold s2. rewrite prepared_fishes. exact (f_equal aPosition Asi).
    - unfold s2. rewrite (frame_dangerousEntities _ _ _ (updatePanicState_frame _ i)),
        (frame_dangerousEntities _ _ _ (resetAcceleration_frame si i)). exact Esi. }
  rewrite Htrig, O2 in A5.
  pose proof (spec_panicDecay_panic (spec_resetAcceleration (agentAt si i))) as HP.
  rewrite <- A2, Asi in HP. cbn [spec_resetAcceleration setAcceleration aPanic
    aPanicTimer] in HP.
  set (f := fst (calculateForces s2 i)) in *.
  set (s5 := snd (calculateForces s2 i)) in *.
  clearbody f s5 s2.
  change (panicOf (update delta s) i)
    with (aPanic (agentAt (update delta s) i), aPanicTimer (agentAt (update delta s) i)).
  rewrite Hfinal, A9.
  destruct (after_forces_panic (Rmin delta 0.1) (options si)
              (areaSize (options s) * 0.5) (height (options s) * 0.5)
              (spec_acceleration (options si) f) (agentAt s5 i)) as [-> ->].
  rewrite A5. cbn [setPanic aPanic aPanicTimer]. rewrite HP.
  unfold panicTick, panicOf; cbn [agentAt aPanic aPanicTimer].
  symmetry. apply surjective_pairing.
Qed.

Lemma sameShape_refl s : sameShape s s.
Proof. constructor; reflexivity. Qed.

Lemma sameShape_trans s1 s2 s3 : sameShape s1 s2 -> sameShape s2 s3 -> sameShape s1 s3.
Proof. intros [] []. constructor; congruence. Qed.

Lemma frame_sameShape j s s' : frame j s s' -> sameShape s s'.
Proof.
  intros []. constructor; try assumption; eapply writesAt_length; eassumption.
Qed.

Lemma keeps_sameShape i s s' : keeps i s s' -> sameShape s s'.
Proof. intros []. constructor; assumption. Qed.

Lemma fold_updateFish_sameShape dt a b : forall js s,
  sameShape s (fold_left (updateFish dt a b) js s).
Proof.
  induction js as [|j js IH]; intros s; cbn [fold_left].
  - apply sameShape_refl.
  - eapply sameShape_trans; [|apply IH].
    eapply frame_sameShape, updateFish_frame.
Qed.

Lemma update_sameShape delta s : sameShape s (update delta s).
Proof.
  rewrite update_eq.
  eapply sameShape_trans; [apply (keeps_sameShape 0), bvhTick_keeps|].
  apply fold_updateFish_sameShape.
Qed.

Lemma sameShape_lockstep s s' : sameShape s s' -> lockstep s -> lockstep s'.
Proof.
  intros [] (H1 & H2 & H3 & H4 & H5). unfold lockstep. repeat split; congruence.
Qed.

(** Without a new trigger a tick only lets the panic decay. *)
Lemma update_panic_decay delta s i :
  lockstep s -> (i < length (fishes s))%nat -> panicTriggered s i = false ->
  panicOf (update delta s) i = panicDecay (panicOf s i).
Proof. intros Hlock Hi Hno. rewrite update_panic, Hno by assumption. reflexivity. Qed.

(** A trigger sets the full duration, whatever the state was. *)
Lemma update_panic_trigger delta s i :
  lockstep s -> (i < length (fishes s))%nat -> panicTriggered s i = true ->
  panicOf (update delta s) i = (true, panicDuration (options s)).
Proof. intros Hlock Hi Hyes. rewrite update_panic, Hyes by assumption. reflexivity. Qed.

Lemma panicDecay_counting n k :
  (S k < n)%nat ->
  panicDecay (true, INR n - INR k) = (true, INR n - INR (S k)).
Proof.
  intros Hk. unfold panicDecay; cbn [fst snd].
  apply lt_INR in Hk. rewrite S_INR in *.
  rewrite Rleb_false by lra. cbn [negb]. f_equal. lra.
Qed.

Lemma panicDecay_expiring n :
  (1 <= n)%nat ->
  panicDecay (true, INR n - INR (n - 1)) = (false, 0).
Proof.
  intros Hn. unfold panicDecay; cbn [fst snd].
  replace n with (S (n - 1)) at 1 3 by lia. rewrite S_INR.
  rewrite Rleb_true by lra. cbn [negb]. f_equal. lra.
Qed.

(** C4.  Let [pre k] be the shoal at the start of tick [k] and
    [update (delta k) (pre k)] the shoal at its end, the host leaving the
    panic flag and timer of agent [i] alone between ticks, and let
    [panicDuration] be a whole number [n >= 1] of ticks.  If the panic of
    agent [i] is triggered in tick [T] and in none of the ticks [T + 1]
    ... [T + n], then at the end of tick [T] the agent panics with the
    full countdown [n], whatever its panic state was before (a re-trigger
    resets the countdown, it does not add to it); it still panics at the
    end of each tick [T + k] with [k < n]; and at the end of tick [T + n]
    the panic flag is cleared. *)
Theorem C4_panic_decay (pre : nat -> MyShoal) (delta : nat -> R) (i T n : nat) :
  (1 <= n)%nat ->
  (forall k, lockstep (pre k) /\ (i < length (fishes (pre k)))%nat
             /\ panicDuration (options (pre k)) = INR n) ->
  (forall k, panicOf (pre (S k)) i = panicOf (update (delta k) (pre k)) i) ->
  panicTriggered (pre T) i = true ->
  (forall k, (T < k <= T + n)%nat -> panicTriggered (pre k) i = false) ->
  panicOf (update (delta T) (pre T)) i = (true, INR n)
  /\ (forall k, (k < n)%nat ->
        panicOf (update (delta (T + k)%nat) (pre (T + k)%nat)) i = (true, INR n - INR k))
  /\ fst (panicOf (update (delta (T + n)%nat) (pre (T + n)%nat)) i) = false.
Proof.
  intros Hn Hsetup Hchain Htrig Hquiet.
  assert (panicOf (update (delta T) (pre T)) i = (true, INR n)) as H0.
  { destruct (Hsetup T) as (Hlock & Hi & HD).
    rewrite update_panic_trigger, HD by assumption. reflexivity. }
  assert (forall k, (k < n)%nat ->
            panicOf (update (delta (T + k)%nat) (pre (T + k)%nat)) i
            = (true, INR n - INR k)) as Hcount.
  { induction k as [|k IH]; intros Hk.
    - rewrite Nat.add_0_r, H0. cbn [INR]. f_equal. lra.
    - destruct (Hsetup (T + S k)%nat) as (Hlock & Hi & HD).
      rewrite update_panic_decay by (try assumption; apply Hquiet; lia).
      replace (T + S k)%nat with (S (T + k)%nat) by lia.
      rewrite Hchain, IH by lia. apply panicDecay_counting, Hk. }
  split; [exact H0|]. split; [exact Hcount|].
  destruct (Hsetup (T + n)%nat) as (Hlock & Hi & HD).
  rewrite update_panic_decay by (try assumption; apply Hquiet; lia).
  replace (T + n)%nat with (S (T + (n - 1))%nat) by lia.
  rewrite Hchain, Hcount by lia.
  rewrite panicDecay_expiring by exact Hn. reflexivity.
Qed.

Lemma scaredShoal_triggered : panicTriggered scaredShoal 0 = true.
Proof.
  unfold panicTriggered, panicTrigger, scaredShoal. cbn.
  unfold THREE.zero. rewrite distanceTo_along_x.
  assert (Rabs (0 - 5) = 5) as -> by (rewrite Rabs_left; lra).
  Rcmp. reflexivity.
Qed.

Lemma calmTrace_setup k :
  lockstep (calmTrace k) /\ (0 < length (fishes (calmTrace k)))%nat
  /\ panicDuration (options (calmTrace k)) = INR 120.
Proof.
  induction k as [|k (Hlock & Hlen & HD)].
  - split; [apply soloShoal_lockstep|]. split; [cbn; lia|].
    rewrite INR_IZR_INZ. reflexivity.
  - pose proof (update_sameShape 0.1 (calmTrace k)) as Hshape.
    pose proof (sameShape_lockstep _ _ Hshape Hlock) as Hlock'.
    cbn [calmTrace]. split; [exact Hlock'|]. split.
    + cbn [fishes set_dangerousEntities]. rewrite (shape_fishes _ _ Hshape). exact Hlen.
    + cbn [options set_dangerousEntities]. rewrite (shape_options _ _ Hshape). exact HD.
Qed.

Lemma C4_panic_decay_witness :
  panicOf (update 0.1 (calmTrace 0)) 0 = (true, INR 120)
  /\ (forall k, (k < 120)%nat ->
        panicOf (update 0.1 (calmTrace (0 + k)%nat)) 0 = (true, INR 120 - INR k))
  /\ fst (panicOf (update 0.1 (calmTrace (0 + 120)%nat)) 0) = false.
Proof.
  apply (C4_panic_decay calmTrace (fun _ => 0.1) 0 0 120).
  - lia.
  - apply calmTrace_setup.
  - intros k. reflexivity.
  - apply scaredShoal_triggered.
  - intros k Hk. destruct k as [|k]; [lia|]. reflexivity.
Defined.

(** ** Evading a single threat *)

Lemma evasionStrength_pos E d : 0 < d -> d < E -> 0 < evasionStrength E d <= 5.
Proof.
  intros Hd HE. unfold evasionStrength.
  assert (0 < d / E < 1) as [H0 H1].
  { split.
    - apply Rdiv_lt_0_compat; lra.
    - apply Rmult_lt_reg_r with E; [lra|]. unfold Rdiv.
      rewrite Rmult_assoc, Rinv_l by lra. lra. }
  replace ((1 - d / E) ^ 2) with ((1 - d / E) * (1 - d / E)) by ring.
  split; nra.
Qed.

Lemma evasionStrength_decreasing E d1 d2 :
  0 < d1 -> d1 < d2 -> d2 < E -> evasionStrength E d2 < evasionStrength E d1.
Proof.
  intros H1 H12 H2. unfold evasionStrength.
  assert (0 < E) as HE by lra.
  assert (d1 / E < d2 / E) as Hlt.
  { unfold Rdiv. apply Rmult_lt_compat_r; [apply Rinv_0_lt_compat, HE | exact H12]. }
  assert (d2 / E < 1) as Hlt1.
  { apply Rmult_lt_reg_r with E; [lra|]. unfold Rdiv.
    rewrite Rmult_assoc, Rinv_l by lra. lra. }
  replace ((1 - d2 / E) ^ 2) with ((1 - d2 / E) * (1 - d2 / E)) by ring.
  replace ((1 - d1 / E) ^ 2) with ((1 - d1 / E) * (1 - d1 / E)) by ring.
  nra.
Qed.

(** [dangerEvasion] with a single visible threat inside both the detection
    and the evasion distance, not at the fish's own position. *)
Lemma dangerEvasion_single s i e :
  dangerousEntities s = [e] -> visible e = true ->
  let o := options s in
  let fishPos := getWorldPosition s (fishes s !!! i) in
  let d := THREE.distanceTo fishPos (worldPosition e) in
  let u := THREE.normalize (THREE.subVectors fishPos (worldPosition e)) in
  let s' := snd (dangerEvasion s i) in
  let cap := maxForce o * dangerEvasionWeight o
             * (if (panicMode s' !!! i : bool) then panicSpeedMultiplier o else 1.5) in
  0 < d -> d < dangerEvasionDistance o -> d < dangerDetectionDistance o ->
  THREE.length u = 1
  /\ fst (dangerEvasion s i)
     = THREE.multiplyScalar u
         (Rmax 0 (Rmin cap (evasionStrength (dangerEvasionDistance o) d))).
Proof.
  intros He Hvis o fishPos d u s' cap Hd HE HDet.
  assert (THREE.length u = 1) as Hu.
  { apply length_normalize. exact Hd. }
  split; [exact Hu|].
  pose proof (evasionStrength_pos _ _ Hd HE) as [Hs0 Hs5].
  subst s' cap. rewrite dangerEvasion_state.
  unfold dangerEvasion. rewrite He. cbn [fold_left].
  unfold dangerVisit. rewrite Hvis. cbn [negb].
  fold o fishPos d.
  rewrite (Rltb_true d (dangerDetectionDistance o)) by exact HDet.
  rewrite (Rltb_true d (dangerEvasionDistance o)) by exact HE.
  cbn [steer closestDangerDistance closestDangerDirection dangerDetected
       accPanicMode accPanicTimer].
  fold u. fold (evasionStrength (dangerEvasionDistance o) d).
  rewrite add_zero_l, length_multiplyScalar, Hu.
  rewrite Rabs_pos_eq by (apply Rlt_le, Hs0). rewrite Rmult_1_r.
  set (k := evasionStrength (dangerEvasionDistance o) d) in *.
  rewrite Reqb_false by lra. cbn [andb].
  rewrite length_multiplyScalar, Hu.
  rewrite Rabs_pos_eq by (apply Rlt_le, Hs0). rewrite Rmult_1_r.
  rewrite (Rltb_true 0 k) by exact Hs0.
  cbn [fst]. rewrite clampLength_scaled_unit by assumption.
  unfold panicTriggered. rewrite He. cbn [existsb]. unfold panicTrigger.
  rewrite Hvis. fold o fishPos d.
  rewrite (Rltb_true d (dangerDetectionDistance o)) by exact HDet.
  rewrite (Rltb_true d (dangerEvasionDistance o)) by exact HE.
  cbn [andb orb]. rewrite orb_false_r.
  cbn [panicMode set_panicMode set_panicTimer].
  reflexivity.
Qed.

(** C5 (as amended).  One visible threat at distance [d] from agent [i]
    with [0 < d], [d < dangerEvasionDistance] and
    [d < dangerDetectionDistance].  The force returned by [dangerEvasion]
    is the unit vector [u] from the threat to the agent times
    [(1 - d / dangerEvasionDistance)^2 * 5], capped at
    [maxForce * dangerEvasionWeight * m] with [m] the panic speed
    multiplier if the agent panics and 1.5 otherwise; where the cap is not
    reached the magnitude is exactly the quadratic strength.  The strength
    grows strictly as [d] shrinks.  Panic is set, with the full duration,
    exactly when [d] is below half the evasion distance; otherwise the
    panic flag and timer are left as they were. *)
Theorem C5_single_threat_evasion (s : MyShoal) (i : nat) (e : Entity) :
  dangerousEntities s = [e] -> visible e = true ->
  (i < length (panicMode s))%nat -> (i < length (panicTimer s))%nat ->
  let o := options s in
  let E := dangerEvasionDistance o in
  let fishPos := getWorldPosition s (fishes s !!! i) in
  let d := THREE.distanceTo fishPos (worldPosition e) in
  let u := THREE.normalize (THREE.subVectors fishPos (worldPosition e)) in
  let force := fst (dangerEvasion s i) in
  let s' := snd (dangerEvasion s i) in
  let cap := maxForce o * dangerEvasionWeight o
             * (if (panicMode s' !!! i : bool) then panicSpeedMultiplier o else 1.5) in
  0 < d -> d < E -> d < dangerDetectionDistance o ->
  THREE.length u = 1
  /\ force = THREE.multiplyScalar u (Rmax 0 (Rmin cap (evasionStrength E d)))
  /\ (evasionStrength E d <= cap ->
      force = THREE.multiplyScalar u (evasionStrength E d)
      /\ THREE.length force = evasionStrength E d)
  /\ (forall d1 d2, 0 < d1 -> d1 < d2 -> d2 < E ->
        evasionStrength E d2 < evasionStrength E d1)
  /\ (d < E * 0.5 -> panicOf s' i = (true, panicDuration o))
  /\ (E * 0.5 <= d -> panicOf s' i = panicOf s i).
Proof.
  intros He Hvis Hm Ht o E fishPos d u force s' cap Hd HE HDet.
  destruct (dangerEvasion_single s i e He Hvis Hd HE HDet) as [Hu Hforce].
  fold o E fishPos d u force s' cap in Hu, Hforce.
  pose proof (evasionStrength_pos E d Hd HE) as [Hs0 Hs5].
  split; [exact Hu|]. split; [exact Hforce|].
  split.
  { intros Hcap. assert (force = THREE.multiplyScalar u (evasionStrength E d)) as Hf.
    { rewrite Hforce. f_equal. rewrite Rmin_right by exact Hcap.
      apply Rmax_right. lra. }
    split; [exact Hf|].
    rewrite Hf, length_multiplyScalar, Hu, Rabs_pos_eq by lra. lra. }
  split; [intros d1 d2; apply evasionStrength_decreasing|].
  assert (panicTriggered s i = Rltb d (E * 0.5)) as Htrig.
  { unfold panicTriggered. rewrite He. cbn [existsb]. unfold panicTrigger.
    rewrite Hvis. fold o fishPos d E.
    rewrite (Rltb_true d (dangerDetectionDistance o)) by exact HDet.
    rewrite (Rltb_true d E) by exact HE.
    cbn [andb]. apply orb_false_r. }
  destruct (dangerEvasion_writes s i) as (_ & _ & _ & _ & Hpm & Hpt).
  fold s' in Hpm, Hpt. rewrite Htrig in Hpm, Hpt. unfold panicOf.
  split.
  - intros Hclose. rewrite Hpm, Hpt, (Rltb_true d (E * 0.5)) by exact Hclose.
    rewrite !list_lookup_total_insert_eq by assumption. reflexivity.
  - intros Hfar. rewrite Hpm, Hpt, (Rltb_false d (E * 0.5)) by lra. reflexivity.
Qed.

(** C5 (counterexample).  With the slim-fish settings (detection distance
    30, evasion distance 35), one fish at the origin and a visible threat
    at distance 32: the threat is inside the evasion distance, yet
    [dangerEvasion] returns the zero force and leaves the shoal as it was,
    because the evasion test is nested inside the detection test.  The
    magnitude [(1 - 32/35)^2 * 5] of the quadratic ramp is positive. *)
Lemma C5_threat_within_evasion_not_detected :
  let s := soloShoal slimOptions None [farThreat] THREE.zero (Vec3 1 0 0) in
  let d := THREE.distanceTo (getWorldPosition s (fishes s !!! 0%nat))
             (worldPosition farThreat) in
  d = 32 /\ visible farThreat = true
  /\ d < dangerEvasionDistance (options s)
  /\ dangerEvasion s 0 = (THREE.zero, s)
  /\ THREE.length (fst (dangerEvasion s 0))
     <> (1 - d / dangerEvasionDistance (options s)) ^ 2 * 5.
Proof.
  intros s d.
  assert (d = 32) as Hd.
  { unfold d, s, getWorldPosition; cbn. unfold THREE.zero.
    rewrite distanceTo_along_x. rewrite Rabs_left; lra. }
  assert (dangerEvasion s 0 = (THREE.zero, s)) as Hzero.
  { unfold dangerEvasion. cbn [dangerousEntities s soloShoal fold_left].
    unfold dangerVisit. cbn [visible farThreat negb].
    fold s. fold d. rewrite Hd.
    cbn [options s soloShoal dangerDetectionDistance slimOptions].
    rewrite (Rltb_false 32 30) by lra. reflexivity. }
  split; [exact Hd|]. split; [reflexivity|].
  split; [rewrite Hd; cbn; lra|].
  split; [exact Hzero|].
  rewrite Hzero, Hd. cbn [fst options s soloShoal dangerEvasionDistance slimOptions].
  rewrite length_zero. lra.
Qed.

Lemma scaredShoal_distance :
  THREE.distanceTo (getWorldPosition scaredShoal (fishes scaredShoal !!! 0%nat))
    (worldPosition nearThreat) = 5.
Proof.
  unfold scaredShoal, getWorldPosition; cbn. unfold THREE.zero.
  rewrite distanceTo_along_x. rewrite Rabs_left; lra.
Qed.

Lemma C5_single_threat_evasion_witness :
  let s := scaredShoal in
  let e := nearThreat in
  let i := 0%nat in
  let o := options s in
  let E := dangerEvasionDistance o in
  let fishPos := getWorldPosition s (fishes s !!! i) in
  let d := THREE.distanceTo fishPos (worldPosition e) in
  let u := THREE.normalize (THREE.subVectors fishPos (worldPosition e)) in
  let force := fst (dangerEvasion s i) in
  let s' := snd (dangerEvasion s i) in
  let cap := maxForce o * dangerEvasionWeight o
             * (if (panicMode s' !!! i : bool) then panicSpeedMultiplier o else 1.5) in
  (0 < d /\ d < E /\ d < dangerDetectionDistance o)
  /\ THREE.length u = 1
  /\ force = THREE.multiplyScalar u (Rmax 0 (Rmin cap (evasionStrength E d)))
  /\ (evasionStrength E d <= cap ->
      force = THREE.multiplyScalar u (evasionStrength E d)
      /\ THREE.length force = evasionStrength E d)
  /\ (forall d1 d2, 0 < d1 -> d1 < d2 -> d2 < E ->
        evasionStrength E d2 < evasionStrength E d1)
  /\ (d < E * 0.5 -> panicOf s' i = (true, panicDuration o))
  /\ (E * 0.5 <= d -> panicOf s' i = panicOf s i).
Proof.
  intros s e i o E fishPos d u force s' cap.
  assert (d = 5) as Hd by apply scaredShoal_distance.
  assert (0 < d /\ d < E /\ d < dangerDetectionDistance o) as (H0 & HE & HDet).
  { rewrite Hd. unfold E, o, s; cbn. lra. }
  split; [split; [|split]; assumption|].
  apply (C5_single_threat_evasion s i e); try assumption; try reflexivity; cbn; lia.
Defined.

(** ** The spatial index and the behaviour of a tick *)

Lemma fold_left_step {A B : Type} (f : A -> B -> A) (x : B) (l : list B) (a : A) :
  fold_left f (x :: l) a = fold_left f l (f a x).
Proof. reflexivity. Qed.

Section BVH.
Variables (e : bool) (b : option MeshBVH) (g : option (list Vector3)) (c : nat).

#[local] Abbreviation withBVH := (set_bvhState e b g c).

Lemma flock_bvh s i : flock (withBVH s) i = flock s i.
Proof. reflexivity. Qed.

Lemma avoidTerrain_bvh s i : avoidTerrain (withBVH s) i = avoidTerrain s i.
Proof. reflexivity. Qed.

Lemma wander_bvh s i :
  wander (withBVH s) i = (fst (wander s i), withBVH (snd (wander s i))).
Proof. reflexivity. Qed.

Lemma avoidTemple_bvh s i :
  avoidTemple (withBVH s) i = (fst (avoidTemple s i), withBVH (snd (avoidTemple s i))).
Proof.
  unfold avoidTemple, getWorldPosition.
  cbn [temple set_bvhState _templeBox matrixWorld fishes options].
  destruct (temple s); [|reflexivity].
  destruct (_templeBox s);
    cbn [temple set_bvhState set_templeBox _templeBox matrixWorld fishes options];
    repeat match goal with
           | |- context [if ?c then _ else _] => destruct c
           end; reflexivity.
Qed.

Lemma dangerEvasion_bvh s i :
  dangerEvasion (withBVH s) i
  = (fst (dangerEvasion s i), withBVH (snd (dangerEvasion s i))).
Proof.
  unfold dangerEvasion, getWorldPosition.
  cbn [options dangerousEntities panicMode panicTimer set_bvhState fishes
       matrixWorld set_panicMode set_panicTimer].
  repeat match goal with
         | |- context [if ?c then _ else _] => destruct c
         end; reflexivity.
Qed.

Lemma calculateForces_bvh s i :
  calculateForces (withBVH s) i
  = (fst (calculateForces s i), withBVH (snd (calculateForces s i))).
Proof.
  unfold calculateForces. rewrite flock_bvh, wander_bvh.
  destruct (wander s i) as [wf s1]. cbn [fst snd].
  rewrite avoidTerrain_bvh, avoidTemple_bvh.
  destruct (avoidTemple s1 i) as [tf s2]. cbn [fst snd].
  rewrite dangerEvasion_bvh.
  destruct (dangerEvasion s2 i) as [df s3]. reflexivity.
Qed.

Lemma resetAcceleration_bvh s i :
  resetAcceleration (withBVH s) i = withBVH (resetAcceleration s i).
Proof. reflexivity. Qed.

Lemma updatePanicState_bvh s i :
  updatePanicState (withBVH s) i = withBVH (updatePanicState s i).
Proof.
  unfold updatePanicState. cbn [panicMode set_bvhState].
  destruct (panicMode s !!! i : bool); [|reflexivity].
  cbv zeta. cbn [panicTimer set_panicTimer set_bvhState].
  destruct (Rleb _ 0); reflexivity.
Qed.

Lemma applyForces_bvh f s i :
  applyForces f (withBVH s) i = withBVH (applyForces f s i).
Proof. reflexivity. Qed.

Lemma integrateVelocity_bvh dt s i :
  integrateVelocity dt (withBVH s) i = withBVH (integrateVelocity dt s i).
Proof. reflexivity. Qed.

Lemma limitVelocity_bvh s i :
  limitVelocity (withBVH s) i = withBVH (limitVelocity s i).
Proof.
  unfold limitVelocity. cbn [options panicMode velocities set_bvhState].
  destruct (Rltb _ _); reflexivity.
Qed.

Lemma integratePosition_bvh dt s i :
  integratePosition dt (withBVH s) i = withBVH (integratePosition dt s i).
Proof. reflexivity. Qed.

Lemma gentleBoundary_bvh a h s i :
  gentleBoundary a h (withBVH s) i = withBVH (gentleBoundary a h s i).
Proof. reflexivity. Qed.

Lemma softBoundary_bvh a h s i :
  softBoundary a h (withBVH s) i = withBVH (softBoundary a h s i).
Proof. reflexivity. Qed.

Lemma integrateFish_bvh dt s i :
  integrateFish dt (withBVH s) i = withBVH (integrateFish dt s i).
Proof.
  unfold integrateFish, accumulateForces.
  rewrite resetAcceleration_bvh, updatePanicState_bvh, calculateForces_bvh.
  destruct (calculateForces (updatePanicState (resetAcceleration s i) i) i)
    as [f s5]. cbn [fst snd].
  rewrite applyForces_bvh, integrateVelocity_bvh, limitVelocity_bvh,
    integratePosition_bvh. reflexivity.
Qed.

Lemma updateFish_bvh dt a h s i :
  updateFish dt a h (withBVH s) i = withBVH (updateFish dt a h s i).
Proof.
  unfold updateFish.
  rewrite integrateFish_bvh. reflexivity.
Qed.

Lemma fold_updateFish_bvh dt a h : forall js s,
  fold_left (updateFish dt a h) js (withBVH s)
  = withBVH (fold_left (updateFish dt a h) js s).
Proof.
  induction js as [|j js IH]; intros s.
  - reflexivity.
  - rewrite !fold_left_step, updateFish_bvh. apply IH.
Qed.
End BVH.

Lemma fold_left_filter {A B : Type} (c : B -> bool) (g : A -> B -> A) (l : list B) :
  forall a,
    fold_left (fun acc x => if c x then g acc x else acc) l a
    = fold_left g (List.filter c l) a.
Proof.
  induction l as [|x l IH]; intros a; [reflexivity|].
  rewrite fold_left_step. cbn [List.filter].
  destruct (c x); [rewrite fold_left_step|]; apply IH.
Qed.

Lemma fold_left_ext {A B : Type} (f g : A -> B -> A) (l : list B) :
  (forall a x, f a x = g a x) -> forall a, fold_left f l a = fold_left g l a.
Proof.
  intros H. induction l as [|x l IH]; intros a; [reflexivity|].
  rewrite !fold_left_step, H. apply IH.
Qed.

Lemma flockVisit_neighbor s i acc j :
  flockVisit s i (position (fishes s !!! i)) (awareness (options s)) acc j
  = if isFlockNeighbor s i j then flockAccumulate s i acc j else acc.
Proof.
  unfold flockVisit, isFlockNeighbor, flockAccumulate.
  destruct (j =? i)%nat; [reflexivity|]. cbn [negb andb].
  destruct (Rltb 0 _ && Rltb _ _); reflexivity.
Qed.

(** The scan of [flock] accumulates exactly over [flockNeighbors]. *)
Lemma flock_scan s i acc :
  fold_left (flockVisit s i (position (fishes s !!! i)) (awareness (options s)))
            (seq 0 (length (fishes s))) acc
  = fold_left (flockAccumulate s i) (flockNeighbors s i) acc.
Proof.
  unfold flockNeighbors. rewrite <- fold_left_filter.
  apply fold_left_ext. intros a x. apply flockVisit_neighbor.
Qed.

Lemma collect_filter {B : Type} (c : B -> bool) (l : list B) :
  forall acc,
    fold_left (fun neighbors x => if c x then neighbors ++ [x] else neighbors) l acc
    = acc ++ List.filter c l.
Proof.
  induction l as [|x l IH]; intros acc.
  - cbn. rewrite app_nil_r. reflexivity.
  - rewrite fold_left_step. cbn [List.filter]. rewrite IH.
    destruct (c x); [|reflexivity]. rewrite <- app_assoc. reflexivity.
Qed.

(** With the index off, [_getNeighbors] is the scan of all other fish
    closer than the radius. *)
Lemma _getNeighbors_scan s i radius :
  bvhEnabled s = false ->
  _getNeighbors s i radius
  = List.filter
      (fun j => negb (i =? j)%nat
                && Rltb (THREE.distanceTo (position (fishes s !!! i))
                           (position (fishes s !!! j))) radius)
      (seq 0 (length (fishes s))).
Proof.
  intros Hoff. unfold _getNeighbors. rewrite Hoff. cbn [andb].
  rewrite <- (app_nil_l (List.filter _ _)), <- collect_filter.
  apply fold_left_ext. intros a x.
  destruct (i =? x)%nat; reflexivity.
Qed.

Lemma filter_filter {B : Type} (c1 c2 : B -> bool) (l : list B) :
  List.filter c1 (List.filter c2 l) = List.filter (fun x => c2 x && c1 x) l.
Proof.
  induction l as [|x l IH]; [reflexivity|]. cbn [List.filter].
  destruct (c2 x); cbn [andb List.filter]; [destruct (c1 x)|]; rewrite IH; reflexivity.
Qed.

(** The neighbours of [flock] are those of the brute-force scan at the
    awareness radius, minus the fish at distance zero. *)
Lemma flockNeighbors_scan s i :
  flockNeighbors s i
  = List.filter
      (fun j => Rltb 0 (THREE.distanceTo (position (fishes s !!! i))
                          (position (fishes s !!! j))))
      (_getNeighbors (indexOff s) i (awareness (options s))).
Proof.
  rewrite _getNeighbors_scan by reflexivity.
  rewrite filter_filter. unfold flockNeighbors.
  change (fishes (indexOff s)) with (fishes s).
  apply filter_ext. intros j. unfold isFlockNeighbor.
  rewrite (Nat.eqb_sym j i).
  destruct (i =? j)%nat; cbn [negb andb]; [reflexivity|].
  apply andb_comm.
Qed.

(** A shoal that agrees with [s] outside the spatial index is [s] with
    its own index written in. *)
Lemma set_bvhState_eta s s' :
  simulation s' = simulation s ->
  matrixWorld s' = matrixWorld s -> newMeshBVH s' = newMeshBVH s ->
  bvhUpdateFrequency s' = bvhUpdateFrequency s ->
  s' = set_bvhState (bvhEnabled s') (bvh s') (bvhGeometry s') (bvhFrameCount s') s.
Proof.
  destruct s, s'. unfold simulation; cbn. intros H -> -> ->.
  injection H as -> -> -> -> -> -> -> -> -> -> -> ->. reflexivity.
Qed.

Lemma updateBVHGeometry_simulation s :
  simulation (updateBVHGeometry s) = simulation s
  /\ matrixWorld (updateBVHGeometry s) = matrixWorld s
  /\ newMeshBVH (updateBVHGeometry s) = newMeshBVH s
  /\ bvhUpdateFrequency (updateBVHGeometry s) = bvhUpdateFrequency s.
Proof.
  unfold updateBVHGeometry.
  destruct (bvhGeometry s); [|repeat split].
  destruct (negb (bvhEnabled s)); [repeat split|].
  destruct (0 <? _)%nat; repeat split.
Qed.

Lemma bvhTick_simulation s :
  simulation (bvhTick s) = simulation s
  /\ matrixWorld (bvhTick s) = matrixWorld s
  /\ newMeshBVH (bvhTick s) = newMeshBVH s
  /\ bvhUpdateFrequency (bvhTick s) = bvhUpdateFrequency s.
Proof.
  unfold bvhTick. destruct (bvhEnabled s); [|repeat split].
  cbv zeta. destruct (_ <=? _)%nat; [|repeat split].
  match goal with
  | |- context [updateBVHGeometry ?t] =>
      destruct (updateBVHGeometry_simulation t) as (H1 & H2 & H3 & H4)
  end.
  unfold simulation in *. cbn [options terrain temple dangerousEntities fishes
    velocities accelerations wanderAngles panicMode panicTimer _templeBox rng
    matrixWorld newMeshBVH bvhUpdateFrequency set_bvhState] in *.
  repeat split; assumption.
Qed.

(** [update] is the loop over the fish, then the index written in. *)
Lemma update_as_loop delta s :
  exists e b g c,
    update delta s
    = set_bvhState e b g c
        (fold_left (updateFish (Rmin delta 0.1) (areaSize (options s) * 0.5)
                      (height (options s) * 0.5))
           (seq 0 (length (fishes s))) s).
Proof.
  rewrite update_eq.
  destruct (bvhTick_simulation s) as (Hsim & Hm & Hn & Hf).
  pose proof (set_bvhState_eta s (bvhTick s) Hsim Hm Hn Hf) as Heta.
  assert (options (bvhTick s) = options s) as ->.
  { unfold simulation in Hsim. congruence. }
  assert (fishes (bvhTick s) = fishes s) as ->.
  { unfold simulation in Hsim. congruence. }
  rewrite Heta. rewrite fold_updateFish_bvh.
  eexists _, _, _, _. reflexivity.
Qed.

(** C8.  The neighbours, the forces and the shoal a tick produces do not
    depend on the spatial index.  With the index enabled and built,
    [_getNeighbors] answers through [getNeighborsBVH]; but [flock], the
    only place where neighbours enter the force computation, scans all
    fish itself.  Its neighbours are those of the brute-force scan of
    [_getNeighbors] at the awareness radius (the scan in force when the
    index is off), fish at distance zero left out, whatever the state of
    the index.  So for every shoal, every state of the index (on or off,
    built or not, whatever its sphere cast visits, any geometry, any frame
    count) and every tick, the neighbours and the five forces of every
    agent and everything [update] computes except the index itself are
    the same as for the shoal without that index. *)
Theorem C8_update_independent_of_bvh
    (delta : R) (s : MyShoal) (enabled : bool) (index : option MeshBVH)
    (geometry : option (list Vector3)) (frames : nat) (i : nat) (radius : R) :
  let accelerated := set_bvhState enabled index geometry frames s in
  (enabled = true -> is_Some index ->
   _getNeighbors accelerated i radius = getNeighborsBVH accelerated i radius)
  /\ flockNeighbors accelerated i = flockNeighbors s i
  /\ flockNeighbors s i
     = List.filter
         (fun j => Rltb 0 (THREE.distanceTo (position (fishes s !!! i))
                             (position (fishes s !!! j))))
         (_getNeighbors (indexOff s) i (awareness (options s)))
  /\ flock accelerated i = flock s i
  /\ fst (calculateForces accelerated i) = fst (calculateForces s i)
  /\ simulation (update delta accelerated) = simulation (update delta s)
  /\ simulation (update delta accelerated) = simulation (update delta (indexOff s)).
Proof.
  intros accelerated.
  split.
  { intros -> [b ->]. unfold _getNeighbors, accelerated.
    cbn [bvhEnabled bvh set_bvhState andb].
    rewrite bool_decide_eq_true_2 by (eexists; reflexivity). reflexivity. }
  split; [reflexivity|]. split; [apply flockNeighbors_scan|].
  assert (forall e b g c,
            simulation (update delta (set_bvhState e b g c s))
            = simulation (update delta s)) as Hsame.
  { intros e b g c.
    destruct (update_as_loop delta (set_bvhState e b g c s)) as (e1 & b1 & g1 & c1 & ->).
    destruct (update_as_loop delta s) as (e2 & b2 & g2 & c2 & ->).
    cbn [options fishes set_bvhState]. rewrite fold_updateFish_bvh. reflexivity. }
  split; [reflexivity|].
  split; [unfold accelerated; rewrite calculateForces_bvh; reflexivity|].
  split; [apply Hsame|].
  unfold accelerated, indexOff. rewrite !Hsame. reflexivity.
Qed.

Lemma C8_update_independent_of_bvh_witness :
  let s := pairShoal defaults THREE.zero (Vec3 3 0 0) in
  let accelerated := indexedShoal defaults THREE.zero (Vec3 3 0 0) in
  _getNeighbors accelerated 0 10 = getNeighborsBVH accelerated 0 10
  /\ flock accelerated 0 = flock s 0
  /\ simulation (update 0.1 accelerated) = simulation (update 0.1 (indexOff s)).
Proof.
  intros s accelerated.
  destruct (C8_update_independent_of_bvh 0.1 s true
              (Some (newMeshBVH s [THREE.zero; Vec3 3 0 0]))
              (Some [THREE.zero; Vec3 3 0 0]) 0 0 10)
    as (Hquery & _ & _ & Hflock & _ & _ & Hupdate).
  split; [apply Hquery; [reflexivity | eexists; reflexivity]|].
  split; [exact Hflock | exact Hupdate].
Defined.

(** * Further properties of the class *)

(** ** The population and its tracks *)

Lemma createFish_lockstep s : lockstep s -> lockstep (createFish s).
Proof.
  intros (H1 & H2 & H3 & H4 & H5).
  destruct (createFish_tracks s) as (f & v & w & Hf & Hv & Ha & Hw & Hm & Ht).
  unfold lockstep. rewrite Hf, Hv, Ha, Hw, Hm, Ht, !length_app. cbn [length].
  repeat split; lia.
Qed.

Lemma addFish_lockstep n s : lockstep s -> lockstep (addFish n s).
Proof.
  intros H. unfold addFish. induction n as [|n IH]; [exact H|].
  rewrite Nat.iter_succ. apply createFish_lockstep, IH.
Qed.

Lemma pop_take {A : Type} (l : list A) : pop l = take (length l - 1) l.
Proof.
  unfold pop. induction l as [|a l IH]; [reflexivity|].
  destruct l as [|b l]; [reflexivity|].
  cbn [removelast length] in *. rewrite IH.
  replace (S (S (length l)) - 1)%nat with (S (S (length l) - 1)) by lia.
  reflexivity.
Qed.

Lemma iter_pop_take {A : Type} k (l : list A) :
  Nat.iter k pop l = take (length l - k) l.
Proof.
  induction k as [|k IH].
  - cbn. rewrite Nat.sub_0_r, firstn_all. reflexivity.
  - rewrite Nat.iter_succ, IH, pop_take, length_take, take_take.
    f_equal. lia.
Qed.

Lemma iter_popFish_eq k s :
  tracks (Nat.iter k popFish s)
  = (Nat.iter k pop (fishes s), Nat.iter k pop (velocities s),
     Nat.iter k pop (accelerations s), Nat.iter k pop (wanderAngles s),
     Nat.iter k pop (panicMode s), Nat.iter k pop (panicTimer s)).
Proof.
  induction k as [|k IH]; [reflexivity|].
  rewrite !Nat.iter_succ, popFish_eq.
  unfold tracks in IH. injection IH as -> -> -> -> -> ->. reflexivity.
Qed.

Lemma removeFish_prefix n s :
  lockstep s ->
  tracks (removeFish n s) = prefixTracks (length (fishes s) - n) s.
Proof.
  intros (H1 & H2 & H3 & H4 & H5).
  unfold removeFish, prefixTracks. rewrite iter_popFish_eq, !iter_pop_take.
  rewrite H1, H2, H3, H4, H5.
  replace (length (fishes s) - Nat.min n (length (fishes s)))%nat
    with (length (fishes s) - n)%nat by lia.
  reflexivity.
Qed.

Lemma prefixTracks_lockstep k s s' :
  lockstep s -> tracks s' = prefixTracks k s -> lockstep s'.
Proof.
  intros (H1 & H2 & H3 & H4 & H5) H. unfold tracks, prefixTracks in H.
  unfold lockstep. injection H as -> -> -> -> -> ->.
  rewrite !length_take. repeat split; lia.
Qed.

Lemma removeFish_lockstep n s : lockstep s -> lockstep (removeFish n s).
Proof.
  intros H. eapply prefixTracks_lockstep; [exact H | apply removeFish_prefix, H].
Qed.

Lemma iter_popFish_rest k s :
  options (Nat.iter k popFish s) = options s
  /\ dangerousEntities (Nat.iter k popFish s) = dangerousEntities s
  /\ rng (Nat.iter k popFish s) = rng s.
Proof.
  induction k as [|k IH]; [repeat split|].
  rewrite Nat.iter_succ. destruct IH as (<- & <- & <-). repeat split.
Qed.

Lemma update_lockstep delta s : lockstep s -> lockstep (update delta s).
Proof. apply sameShape_lockstep, update_sameShape. Qed.

Lemma setFishScale_lockstep k s : lockstep s -> lockstep (setFishScale k s).
Proof.
  unfold lockstep, setFishScale. cbn. rewrite length_map. trivial.
Qed.

(** What [addFish] appends. *)
Lemma addFish_tracks n s :
  exists newFishes newVelocities newAngles,
    length newFishes = n /\ length newVelocities = n /\ length newAngles = n
    /\ tracks (addFish n s)
       = (fishes s ++ newFishes, velocities s ++ newVelocities,
          accelerations s ++ replicate n THREE.zero,
          wanderAngles s ++ newAngles,
          panicMode s ++ replicate n false,
          panicTimer s ++ replicate n 0).
Proof.
  unfold addFish. induction n as [|n IH].
  - exists [], [], []. cbn. rewrite !app_nil_r. repeat split.
  - destruct IH as (fs & vs & ws & Hfs & Hvs & Hws & IH).
    rewrite Nat.iter_succ.
    destruct (createFish_tracks (Nat.iter n createFish s))
      as (f & v & w & Hf & Hv & Ha & Hw & Hm & Ht).
    unfold tracks in *. injection IH as E1 E2 E3 E4 E5 E6.
    rewrite Hf, Hv, Ha, Hw, Hm, Ht, E1, E2, E3, E4, E5, E6.
    exists (fs ++ [f]), (vs ++ [v]), (ws ++ [w]).
    rewrite !length_app, Hfs, Hvs, Hws. cbn [length].
    split; [lia|]. split; [lia|]. split; [lia|].
    rewrite <- !app_assoc, !replicate_S_end. reflexivity.
Qed.

Lemma addFish_prefix n s :
  lockstep s -> prefixTracks (length (fishes s)) (addFish n s) = tracks s.
Proof.
  intros (H1 & H2 & H3 & H4 & H5).
  destruct (addFish_tracks n s) as (fs & vs & ws & _ & _ & _ & H).
  unfold tracks, prefixTracks in *. injection H as -> -> -> -> -> ->.
  rewrite (take_app_length' (fishes s)), (take_app_length' (velocities s)),
    (take_app_length' (accelerations s)), (take_app_length' (wanderAngles s)),
    (take_app_length' (panicMode s)), (take_app_length' (panicTimer s))
    by congruence.
  reflexivity.
Qed.

(** X1.  The parallel arrays of the class stay parallel: if the six
    per-fish tracks of a shoal have the same length, they still have after
    [createFish], [addFish], [removeFish], [build], [update] and
    [setFishScale]. *)
Theorem lockstep_invariant (s : MyShoal) (n : nat) (delta k : R) :
  lockstep s ->
  lockstep (createFish s) /\ lockstep (addFish n s) /\ lockstep (removeFish n s)
  /\ lockstep (build s) /\ lockstep (update delta s) /\ lockstep (setFishScale k s).
Proof.
  intros H.
  split; [apply createFish_lockstep, H|].
  split; [apply addFish_lockstep, H|].
  split; [apply removeFish_lockstep, H|].
  split; [apply (addFish_lockstep (fishCount (options s))), H|].
  split; [apply update_lockstep, H | apply setFishScale_lockstep, H].
Qed.

Lemma lockstep_invariant_witness :
  let s := soloShoal defaults None [] THREE.zero THREE.zero in
  lockstep s
  /\ lockstep (createFish s) /\ lockstep (addFish 2 s) /\ lockstep (removeFish 2 s)
  /\ lockstep (build s) /\ lockstep (update 1 s) /\ lockstep (setFishScale 2 s).
Proof.
  intros s. split; [apply soloShoal_lockstep|].
  apply (lockstep_invariant s 2 1 2), soloShoal_lockstep.
Defined.

(** X2.  [removeFish n] keeps the first [length - n] entries of every
    track as they were and drops the rest; a request for more fish than
    there are removes them all (and does nothing on an empty shoal).  The
    configuration, the registered threats and the random source are not
    touched. *)
Theorem removeFish_keeps_prefix (n : nat) (s : MyShoal) :
  lockstep s ->
  tracks (removeFish n s) = prefixTracks (length (fishes s) - n) s
  /\ length (fishes (removeFish n s)) = (length (fishes s) - n)%nat
  /\ ((length (fishes s) <= n)%nat ->
      tracks (removeFish n s) = ([], [], [], [], [], []))
  /\ options (removeFish n s) = options s
  /\ dangerousEntities (removeFish n s) = dangerousEntities s
  /\ rng (removeFish n s) = rng s.
Proof.
  intros H. pose proof (removeFish_prefix n s H) as Hp.
  split; [exact Hp|]. split; [|split].
  - unfold tracks, prefixTracks in Hp. injection Hp as -> _ _ _ _ _.
    rewrite length_take. lia.
  - intros Hle. rewrite Hp.
    replace (length (fishes s) - n)%nat with 0%nat by lia. reflexivity.
  - apply iter_popFish_rest.
Qed.

Lemma removeFish_keeps_prefix_witness :
  let s := addFish 3 (soloShoal defaults None [] THREE.zero THREE.zero) in
  lockstep s /\ length (fishes (removeFish 9 s)) = (length (fishes s) - 9)%nat.
Proof.
  intros s.
  assert (lockstep s) as H by apply addFish_lockstep, soloShoal_lockstep.
  split; [exact H|]. apply (removeFish_keeps_prefix 9 s H).
Defined.

(** X3.  [addFish n] appends [n] entries to every track and leaves the
    entries that were there in place; each new fish starts with zero
    acceleration, not panicking, with a panic timer of zero. *)
Theorem addFish_appends (n : nat) (s : MyShoal) :
  exists newFishes newVelocities newAngles,
    length newFishes = n /\ length newVelocities = n /\ length newAngles = n
    /\ tracks (addFish n s)
       = (fishes s ++ newFishes, velocities s ++ newVelocities,
          accelerations s ++ replicate n THREE.zero,
          wanderAngles s ++ newAngles,
          panicMode s ++ replicate n false,
          panicTimer s ++ replicate n 0).
Proof. apply addFish_tracks. Qed.

(** X4.  After the fish-count setting of the GUI is applied, the shoal
    has exactly the target number of fish, its tracks are still parallel,
    and the fish that the old and the new population have in common (the
    first [min target current] of every track) are unchanged. *)
Theorem applyFishCount_reaches_target (target : nat) (s : MyShoal) :
  lockstep s ->
  length (fishes (applyFishCount target s)) = target
  /\ lockstep (applyFishCount target s)
  /\ prefixTracks (Nat.min target (length (fishes s))) (applyFishCount target s)
     = prefixTracks (Nat.min target (length (fishes s))) s.
Proof.
  intros H. unfold applyFishCount. cbv zeta.
  destruct (Nat.ltb_spec (length (fishes s)) target) as [Hlt|Hge].
  - split; [rewrite addFish_length; lia|].
    split; [apply addFish_lockstep, H|].
    replace (Nat.min target (length (fishes s))) with (length (fishes s)) by lia.
    rewrite (addFish_prefix _ _ H).
    destruct H as (H1 & H2 & H3 & H4 & H5). unfold prefixTracks, tracks.
    rewrite (take_ge (fishes s)), (take_ge (velocities s)),
      (take_ge (accelerations s)), (take_ge (wanderAngles s)),
      (take_ge (panicMode s)), (take_ge (panicTimer s)) by lia.
    reflexivity.
  - destruct (Nat.ltb_spec target (length (fishes s))) as [Hlt|Hge'].
    + pose proof (removeFish_prefix (length (fishes s) - target) s H) as Hp.
      replace (length (fishes s) - (length (fishes s) - target))%nat
        with target in Hp by lia.
      split; [|split].
      * unfold tracks, prefixTracks in Hp. injection Hp as -> _ _ _ _ _.
        rewrite length_take. lia.
      * apply removeFish_lockstep, H.
      * replace (Nat.min target (length (fishes s))) with target by lia.
        unfold tracks in Hp. unfold prefixTracks at 1.
        injection Hp as -> -> -> -> -> ->.
        unfold prefixTracks. rewrite !take_take, Nat.min_id. reflexivity.
    + split; [lia|]. split; [exact H | reflexivity].
Qed.

Lemma applyFishCount_reaches_target_witness :
  let s := soloShoal defaults None [] THREE.zero THREE.zero in
  lockstep s /\ length (fishes (applyFishCount 4 s)) = 4%nat.
Proof.
  intros s. split; [apply soloShoal_lockstep|].
  apply (applyFishCount_reaches_target 4 s), soloShoal_lockstep.
Defined.

(** ** The fish that [createFish] makes *)

(** The fish and the velocity that [createFish] appends. *)
Lemma createFish_spawn s :
  let s1 := snd (_createFishInstance s) in
  let s2 := snd (_generateRandomPosition s1) in
  fishes (createFish s)
  = fishes s ++ [setPosition (fst (_generateRandomPosition s1))
                             (fst (_createFishInstance s))]
  /\ velocities (createFish s)
     = velocities s ++ [fst (_generateInitialVelocity s2)].
Proof.
  unfold createFish, _createFishInstance, _generateInitialVelocity, random.
  cbn [fst snd].
  match goal with
  | |- context [_generateRandomPosition ?t] =>
      destruct (_generateRandomPosition_frame t) as (p & g & ->)
  end.
  cbn. split; reflexivity.
Qed.

Lemma sqrt_sqr_abs t : sqrt (t * t) = Rabs t.
Proof. rewrite <- (sqrt_Rsqr_abs t). reflexivity. Qed.

Lemma initialVelocity_speed s :
  let v := fst (_generateInitialVelocity s) in
  let M := maxSpeed (options s) in
  0.3 * Rabs M <= THREE.length v <= Rabs M
  /\ THREE.lengthSq v <= 0.1 * (M * M).
Proof.
  intros v M. subst v. unfold _generateInitialVelocity, random. cbn [fst].
  set (a := draws (rng s) (cursor (rng s)) * PI * 2).
  set (b := (draws _ _ - 0.5) * PI * 0.3).
  fold M. unfold THREE.length, THREE.lengthSq. cbn [THREE.x THREE.y THREE.z].
  pose proof (sin2_cos2 a) as Ha. unfold Rsqr in Ha.
  pose proof (sin2_cos2 b) as Hb. unfold Rsqr in Hb.
  assert (0 <= sin b * sin b <= 1) as Hsb by nra.
  assert (0 <= M * M) as HM by nra.
  assert (cos a * M * 0.3 * (cos a * M * 0.3) + sin b * M * 0.1 * (sin b * M * 0.1)
          + sin a * M * 0.3 * (sin a * M * 0.3)
          = (0.09 + 0.01 * (sin b * sin b)) * (M * M)) as ->.
  { clearbody a b M. nra. }
  split; [split|].
  - replace (0.3 * Rabs M) with (sqrt ((0.3 * M) * (0.3 * M))).
    + apply sqrt_le_1_alt. nra.
    + rewrite sqrt_sqr_abs, Rabs_mult, (Rabs_right 0.3); lra.
  - rewrite <- (sqrt_sqr_abs M). apply sqrt_le_1_alt. nra.
  - nra.
Qed.

Lemma spawn_position s :
  exists n, (1 <= n <= maxAttempts)%nat
    /\ _generateRandomPosition s
       = (sampleAt (options s) (rng s) (n - 1), set_rng (advance (rng s) (3 * n)) s)
    /\ (outsideDeadZone (sampleAt (options s) (rng s) (n - 1)) \/ n = maxAttempts).
Proof.
  destruct (sampleLoop_run (options s) maxAttempts 0 (rng s))
    as (n & Hn & Hrun & Hacc & _); [unfold maxAttempts; lia | lia |].
  replace (n - 0 - 1)%nat with (n - 1)%nat in * by lia.
  replace (n - 0)%nat with n in * by lia.
  exists n. split; [lia|]. split; [|exact Hacc].
  unfold _generateRandomPosition. rewrite Hrun. reflexivity.
Qed.

Lemma createFish_speed s :
  exists v,
    velocities (createFish s) = velocities s ++ [v]
    /\ 0.3 * Rabs (maxSpeed (options s)) <= THREE.length v <= Rabs (maxSpeed (options s))
    /\ THREE.lengthSq v <= 0.1 * (maxSpeed (options s) * maxSpeed (options s)).
Proof.
  destruct (createFish_spawn s) as [_ Hv]. eexists. split; [exact Hv|].
  match goal with
  | |- context [_generateInitialVelocity ?t] =>
      pose proof (initialVelocity_speed t) as H;
      assert (options t = options s) as Ho
  end.
  { match goal with
    | |- context [_generateRandomPosition ?t] =>
        destruct (_generateRandomPosition_frame t) as (p & g & ->)
    end. reflexivity. }
  cbv zeta in H. rewrite Ho in H. exact H.
Qed.

(** [createFish] keeps the configuration and draws from the same source. *)
Lemma createFish_config s :
  options (createFish s) = options s
  /\ draws (rng (createFish s)) = draws (rng s).
Proof.
  unfold createFish, _createFishInstance, _generateInitialVelocity, random.
  cbn [fst snd].
  match goal with
  | |- context [_generateRandomPosition ?t] =>
      destruct (spawn_position t) as (n & _ & -> & _)
  end.
  cbn. split; reflexivity.
Qed.

Lemma addFish_config n s :
  options (addFish n s) = options s
  /\ draws (rng (addFish n s)) = draws (rng s).
Proof.
  unfold addFish. induction n as [|n [IHo IHd]]; [split; reflexivity|].
  rewrite Nat.iter_succ.
  destruct (createFish_config (Nat.iter n createFish s)) as [-> ->].
  split; assumption.
Qed.

(** X5.  A fish never starts at rest or above the speed limit: every
    fish that [addFish] (and so [build], which adds [fishCount] fish)
    creates gets a velocity whose length is between [0.3 x maxSpeed] and
    [maxSpeed] (its square is at most [0.1 x maxSpeed^2]), for every
    configuration and every random draw. *)
Theorem addFish_initial_speeds (n : nat) (s : MyShoal) :
  exists newVelocities,
    velocities (addFish n s) = velocities s ++ newVelocities
    /\ length newVelocities = n
    /\ Forall (fun v =>
                 0.3 * Rabs (maxSpeed (options s)) <= THREE.length v
                   <= Rabs (maxSpeed (options s))
                 /\ THREE.lengthSq v
                    <= 0.1 * (maxSpeed (options s) * maxSpeed (options s)))
              newVelocities.
Proof.
  induction n as [|n (vs & Hvs & Hlen & Hall)].
  - exists []. cbn. rewrite app_nil_r. repeat split. constructor.
  - change (addFish (S n) s) with (createFish (addFish n s)).
    destruct (createFish_speed (addFish n s)) as (v & -> & Hv).
    destruct (addFish_config n s) as [Ho _]. rewrite Ho in Hv.
    exists (vs ++ [v]). rewrite Hvs, <- app_assoc, length_app, Hlen. cbn [length].
    split; [reflexivity|]. split; [lia|].
    apply Forall_app. split; [exact Hall|]. constructor; [exact Hv | constructor].
Qed.

Lemma sampleAt_box o g k :
  unitDraws g -> 0 <= areaSize o -> 0 <= height o ->
  - (areaSize o / 2) <= THREE.x (sampleAt o g k) <= areaSize o / 2
  /\ - (height o / 2) <= THREE.y (sampleAt o g k) <= height o / 2
  /\ - (areaSize o / 2) <= THREE.z (sampleAt o g k) <= areaSize o / 2.
Proof.
  intros Hg HA HH. unfold sampleAt. cbn [THREE.x THREE.y THREE.z].
  pose proof (Hg (cursor g + 3 * k)%nat).
  pose proof (Hg (cursor g + 3 * k + 1)%nat).
  pose proof (Hg (cursor g + 3 * k + 2)%nat).
  repeat split; nra.
Qed.

Lemma createFish_inside s :
  unitDraws (rng s) -> 0 <= areaSize (options s) -> 0 <= height (options s) ->
  exists fish,
    fishes (createFish s) = fishes s ++ [fish]
    /\ - (areaSize (options s) / 2) <= THREE.x (position fish) <= areaSize (options s) / 2
    /\ - (height (options s) / 2) <= THREE.y (position fish) <= height (options s) / 2
    /\ - (areaSize (options s) / 2) <= THREE.z (position fish) <= areaSize (options s) / 2.
Proof.
  intros Hg HA HH.
  destruct (createFish_spawn s) as [Hf _]. eexists. split; [exact Hf|].
  cbn [position setPosition].
  match goal with
  | |- context [_generateRandomPosition ?t] =>
      destruct (spawn_position t) as (n & _ & -> & _);
      change (options t) with (options s)
  end.
  cbn [fst]. apply sampleAt_box; [intros k; apply Hg | exact HA | exact HH].
Qed.

(** X6.  With a random source that draws from [[0, 1]] and a box of
    non-negative size, every fish that [addFish] (and so [build])
    creates is put inside the box: [-areaSize/2 <= x, z <= areaSize/2]
    and [-height/2 <= y <= height/2]. *)
Theorem addFish_spawns_inside_box (n : nat) (s : MyShoal) :
  unitDraws (rng s) -> 0 <= areaSize (options s) -> 0 <= height (options s) ->
  exists newFishes,
    fishes (addFish n s) = fishes s ++ newFishes
    /\ length newFishes = n
    /\ Forall (fun fish =>
                 - (areaSize (options s) / 2) <= THREE.x (position fish)
                   <= areaSize (options s) / 2
                 /\ - (height (options s) / 2) <= THREE.y (position fish)
                    <= height (options s) / 2
                 /\ - (areaSize (options s) / 2) <= THREE.z (position fish)
                    <= areaSize (options s) / 2)
              newFishes.
Proof.
  intros Hg HA HH. induction n as [|n (fs & Hfs & Hlen & Hall)].
  - exists []. cbn. rewrite app_nil_r. repeat split. constructor.
  - change (addFish (S n) s) with (createFish (addFish n s)).
    destruct (addFish_config n s) as [Ho Hd].
    destruct (createFish_inside (addFish n s)) as (fish & -> & Hfish).
    + intros k. rewrite Hd. apply Hg.
    + rewrite Ho. exact HA.
    + rewrite Ho. exact HH.
    + rewrite Ho in Hfish.
      exists (fs ++ [fish]). rewrite Hfs, <- app_assoc, length_app, Hlen. cbn [length].
      split; [reflexivity|]. split; [lia|].
      apply Forall_app. split; [exact Hall|]. constructor; [exact Hfish | constructor].
Qed.

Lemma addFish_spawns_inside_box_witness :
  let s := soloShoal defaults None [] THREE.zero THREE.zero in
  unitDraws (rng s) /\
  exists newFishes,
    fishes (addFish 3 s) = fishes s ++ newFishes /\ length newFishes = 3%nat.
Proof.
  intros s.
  assert (unitDraws (rng s)) as Hg by (intros k; cbn; lra).
  split; [exact Hg|].
  destruct (addFish_spawns_inside_box 3 s Hg) as (fs & Hfs & Hlen & _);
    [cbn; lra | cbn; lra |].
  exists fs. split; assumption.
Defined.

Lemma sampleAt_inside_deadZone o g k :
  unitDraws g -> areaSize o * areaSize o <= 28800 ->
  ~ outsideDeadZone (sampleAt o g k).
Proof.
  intros Hg HA. unfold outsideDeadZone, sampleAt, deadZoneRadius.
  cbn [THREE.x THREE.z].
  pose proof (Hg (cursor g + 3 * k)%nat) as H1.
  pose proof (Hg (cursor g + 3 * k + 2)%nat) as H2.
  set (d1 := draws g (cursor g + 3 * k)%nat) in *.
  set (d2 := draws g (cursor g + 3 * k + 2)%nat) in *.
  apply Rle_not_lt.
  replace 120 with (sqrt (120 * 120)) by (rewrite sqrt_sqr_abs, Rabs_right; lra).
  apply sqrt_le_1_alt.
  assert ((d1 - 0.5) * (d1 - 0.5) <= 0.25) by nra.
  assert ((d2 - 0.5) * (d2 - 0.5) <= 0.25) by nra.
  assert (0 <= areaSize o * areaSize o) by nra.
  nra.
Qed.

(** X7.  In a box whose half-diagonal does not reach past the dead zone
    ([areaSize^2 <= 28800], about [areaSize <= 169.7]) rejection sampling
    cannot succeed: with draws from [[0, 1]] every call of
    [_generateRandomPosition] uses all 100 attempts (300 draws) and returns
    the 100th sample, which lies inside the dead zone. *)
Theorem spawn_exhausts_attempts_in_small_box (s : MyShoal) :
  unitDraws (rng s) ->
  areaSize (options s) * areaSize (options s) <= 28800 ->
  _generateRandomPosition s
  = (sampleAt (options s) (rng s) 99, set_rng (advance (rng s) 300) s)
  /\ ~ outsideDeadZone (fst (_generateRandomPosition s)).
Proof.
  intros Hg HA.
  destruct (spawn_position s) as (n & Hn & Hrun & Hacc).
  destruct Hacc as [Hout | ->].
  - exfalso. exact (sampleAt_inside_deadZone _ _ _ Hg HA Hout).
  - rewrite Hrun. split; [reflexivity|].
    cbn [fst]. apply sampleAt_inside_deadZone; assumption.
Qed.

Lemma spawn_exhausts_attempts_in_small_box_witness :
  let s := soloShoal (withAreaSize 150 defaults) None [] THREE.zero THREE.zero in
  unitDraws (rng s)
  /\ areaSize (options s) * areaSize (options s) <= 28800
  /\ _generateRandomPosition s
     = (sampleAt (options s) (rng s) 99, set_rng (advance (rng s) 300) s).
Proof.
  intros s.
  assert (unitDraws (rng s)) as Hg by (intros k; cbn; lra).
  assert (areaSize (options s) * areaSize (options s) <= 28800) as HA by (cbn; lra).
  split; [exact Hg|]. split; [exact HA|].
  apply (spawn_exhausts_attempts_in_small_box s Hg HA).
Defined.

(** ** What a tick leaves alone *)

(** The collaborators and the configuration. *)
Lemma frame_config j s s' :
  frame j s s' ->
  options s' = options s /\ terrain s' = terrain s /\ temple s' = temple s
  /\ dangerousEntities s' = dangerousEntities s.
Proof. intros []. repeat split; assumption. Qed.

Lemma fold_updateFish_config dt a b : forall js s,
  let s' := fold_left (updateFish dt a b) js s in
  options s' = options s /\ terrain s' = terrain s /\ temple s' = temple s
  /\ dangerousEntities s' = dangerousEntities s.
Proof.
  induction js as [|j js IH]; intros s; [repeat split|].
  cbv zeta. rewrite fold_left_step.
  destruct (IH (updateFish dt a b s j)) as (-> & -> & -> & ->).
  apply (frame_config j), updateFish_frame.
Qed.

Lemma update_config delta s :
  options (update delta s) = options s /\ terrain (update delta s) = terrain s
  /\ temple (update delta s) = temple s
  /\ dangerousEntities (update delta s) = dangerousEntities s.
Proof.
  rewrite update_eq.
  match goal with
  | |- context [fold_left (updateFish ?dt ?a ?b) ?js ?t] =>
      destruct (fold_updateFish_config dt a b js t) as (-> & -> & -> & ->)
  end.
  destruct (bvhTick_simulation s) as (Hsim & _).
  unfold simulation in Hsim. injection Hsim as -> -> -> -> _ _ _ _ _ _ _ _.
  repeat split.
Qed.

(** X8.  A tick never adds or removes a fish and never touches the
    configuration: after [update] every track has the length it had, and
    the options, the terrain, the temple and the registered threats are
    the ones of the shoal it was called on. *)
Theorem update_keeps_population_and_configuration (delta : R) (s : MyShoal) :
  sameShape s (update delta s)
  /\ options (update delta s) = options s
  /\ terrain (update delta s) = terrain s
  /\ temple (update delta s) = temple s
  /\ dangerousEntities (update delta s) = dangerousEntities s.
Proof. split; [apply update_sameShape | apply update_config]. Qed.

(** ** The random draws of a tick *)

Lemma wander_rng s i : rng (snd (wander s i)) = advance (rng s) 1.
Proof.
  unfold wander, random, advance. cbn. f_equal. lia.
Qed.

Lemma avoidTemple_rng s i : rng (snd (avoidTemple s i)) = rng s.
Proof.
  unfold avoidTemple.
  destruct (temple s) as [b|]; [|reflexivity].
  destruct (_templeBox s) eqn:E; cbv zeta;
    repeat match goal with
           | |- context [if ?c then _ else _] => destruct c
           end; reflexivity.
Qed.

Lemma dangerEvasion_rng s i : rng (snd (dangerEvasion s i)) = rng s.
Proof. rewrite dangerEvasion_state. reflexivity. Qed.

Lemma calculateForces_rng s i : rng (snd (calculateForces s i)) = advance (rng s) 1.
Proof.
  unfold calculateForces.
  pose proof (wander_rng s i) as H1.
  destruct (wander s i) as [wf s1]. cbn [snd] in *.
  pose proof (avoidTemple_rng s1 i) as H2.
  destruct (avoidTemple s1 i) as [tf s2]. cbn [snd] in *.
  pose proof (dangerEvasion_rng s2 i) as H3.
  destruct (dangerEvasion s2 i) as [df s3]. cbn [snd] in *.
  congruence.
Qed.

Lemma updatePanicState_rng s i : rng (updatePanicState s i) = rng s.
Proof.
  unfold updatePanicState. destruct (panicMode s !!! i : bool); [|reflexivity].
  cbv zeta. destruct (Rleb _ 0); reflexivity.
Qed.

Lemma limitVelocity_rng s i : rng (limitVelocity s i) = rng s.
Proof. unfold limitVelocity. cbv zeta. destruct (Rltb _ _); reflexivity. Qed.

Lemma prepared_rng s i : rng (updatePanicState (resetAcceleration s i) i) = rng s.
Proof. rewrite updatePanicState_rng. reflexivity. Qed.

Lemma integrateFish_rng dt s i : rng (integrateFish dt s i) = advance (rng s) 1.
Proof.
  unfold integrateFish, accumulateForces.
  set (s2 := updatePanicState (resetAcceleration s i) i).
  pose proof (calculateForces_rng s2 i) as H.
  destruct (calculateForces s2 i) as [f s5]. cbn [snd] in H.
  unfold integratePosition. cbn [rng set_fishes].
  rewrite limitVelocity_rng.
  unfold integrateVelocity, applyForces. cbn [rng set_velocities set_accelerations].
  rewrite H. unfold s2. rewrite prepared_rng. reflexivity.
Qed.

Lemma updateFish_rng dt a b s i : rng (updateFish dt a b s i) = advance (rng s) 1.
Proof.
  unfold updateFish, softBoundary, gentleBoundary.
  cbn [rng set_fishes set_velocities]. apply integrateFish_rng.
Qed.

Lemma fold_updateFish_rng dt a b : forall js s,
  rng (fold_left (updateFish dt a b) js s) = advance (rng s) (length js).
Proof.
  induction js as [|j js IH]; intros s.
  - cbn. unfold advance. destruct (rng s) as [d c]. cbn. f_equal. lia.
  - rewrite fold_left_step, IH, updateFish_rng, advance_advance. reflexivity.
Qed.

Lemma bvhTick_rng s : rng (bvhTick s) = rng s /\ fishes (bvhTick s) = fishes s.
Proof.
  destruct (bvhTick_simulation s) as (Hsim & _).
  unfold simulation in Hsim. injection Hsim as _ _ _ _ -> _ _ _ _ _ _ ->.
  split; reflexivity.
Qed.

(** X9.  A tick takes exactly one draw from the random source for every
    fish (the wander step), whatever else happens to the fish: after
    [update] the source has advanced by the number of fish, and nothing
    else about it has changed. *)
Theorem update_consumes_one_draw_per_fish (delta : R) (s : MyShoal) :
  rng (update delta s) = advance (rng s) (length (fishes s)).
Proof.
  rewrite update_eq, fold_updateFish_rng, length_seq.
  destruct (bvhTick_rng s) as [-> ->]. reflexivity.
Qed.

(** The state in which the loop of [update] reaches fish [i]: what came
    before has taken [i] draws. *)
Lemma update_reaches delta s i :
  lockstep s -> (i < length (fishes s))%nat ->
  exists si,
    inRange si i /\ agentAt si i = agentAt s i
    /\ rng si = advance (rng s) i
    /\ agentAt (update delta s) i
       = agentSoftBoundary (areaSize (options s) * 0.5) (height (options s) * 0.5)
           (agentGentleBoundary (areaSize (options s) * 0.5) (height (options s) * 0.5)
              (agentAt (integrateFish (Rmin delta 0.1) si i) i)).
Proof.
  intros Hlock Hi. rewrite update_eq.
  pose proof (bvhTick_keeps i s) as Hk.
  rewrite (keeps_options _ _ _ Hk), (keeps_length_fishes _ _ _ Hk).
  rewrite (fold_updateFish_split _ _ _ _ i) by exact Hi.
  match goal with
  | |- context [updateFish ?dt ?a ?b ?t i] =>
      pose proof (fold_updateFish_rng dt a b (seq 0 i) (bvhTick s)) as Hrng;
      set (si := t) in *
  end.
  assert (keeps i s si) as Hsi.
  { eapply keeps_trans; [exact Hk|].
    apply fold_updateFish_keeps. intros Hin%elem_of_seq. lia. }
  pose proof (keeps_inRange _ _ _ _ Hsi (lockstep_inRange _ _ Hlock Hi)) as Rsi.
  exists si. split; [exact Rsi|]. split; [apply keeps_agentAt, Hsi|].
  split.
  - rewrite Hrng, length_seq. destruct (bvhTick_rng s) as [-> _]. reflexivity.
  - clearbody si.
    match goal with
    | |- agentAt (fold_left ?f ?js ?t) i = _ =>
        assert (keeps i t (fold_left f js t)) as Hfinal
    end.
    { apply fold_updateFish_keeps. intros Hin%elem_of_seq. lia. }
    rewrite (keeps_agentAt _ _ _ Hfinal). apply updateFish_agent, Rsi.
Qed.

Lemma wanderAngle_agentAt s i : wanderAngles s !!! i = aWanderAngle (agentAt s i).
Proof. reflexivity. Qed.

Lemma wanderAngle_boundary a b x :
  aWanderAngle (agentSoftBoundary a b (agentGentleBoundary a b x)) = aWanderAngle x.
Proof. reflexivity. Qed.

Lemma wanderAngle_integrated dt o v x :
  aWanderAngle
    (spec_integratePosition dt
       (spec_clampSpeed o (spec_integrateVelocity dt (setAcceleration v x))))
  = aWanderAngle x.
Proof.
  unfold spec_integratePosition, spec_clampSpeed. cbv zeta.
  destruct (Rltb _ _); reflexivity.
Qed.

Lemma wanderAngle_prepared x :
  aWanderAngle (spec_panicDecay (spec_resetAcceleration x)) = aWanderAngle x.
Proof. reflexivity. Qed.

Lemma update_wanderAngle delta s i :
  lockstep s -> (i < length (fishes s))%nat ->
  wanderAngles (update delta s) !!! i
  = wanderAngles s !!! i
    + (draws (rng s) (cursor (rng s) + i) - 0.5) * 0.3.
Proof.
  intros Hlock Hi.
  destruct (update_reaches delta s i Hlock Hi) as (si & Rsi & Asi & Hrng & Hfinal).
  rewrite !wanderAngle_agentAt, Hfinal, wanderAngle_boundary.
  destruct (integrateFish_agent (Rmin delta 0.1) si i Rsi) as [A2 A9].
  rewrite A9, wanderAngle_integrated.
  set (s2 := updatePanicState (resetAcceleration si i) i) in *.
  assert (inRange s2 i) as R2.
  { eapply frame_inRange; [apply updatePanicState_frame|].
    eapply frame_inRange; [apply resetAcceleration_frame | exact Rsi]. }
  assert (rng s2 = advance (rng s) i) as Hrng2.
  { unfold s2. rewrite prepared_rng. exact Hrng. }
  clearbody s2.
  rewrite (calculateForces_agent s2 i R2).
  cbn [setPanic setWanderAngle aWanderAngle].
  rewrite A2, wanderAngle_prepared, Asi, Hrng2. reflexivity.
Qed.

(** X10.  In a tick the wander angle of fish [i] moves by the [i]-th draw
    of the tick, mapped from [[0, 1]] to [[-0.15, 0.15]]: it changes by
    [(r - 0.5) * 0.3] with [r] the draw at position [cursor + i] of the
    random source, so by at most 0.15 when the draws are in [[0, 1]]. *)
Theorem update_wander_angle_step (delta : R) (s : MyShoal) (i : nat) :
  lockstep s -> (i < length (fishes s))%nat ->
  wanderAngles (update delta s) !!! i
  = wanderAngles s !!! i + (draws (rng s) (cursor (rng s) + i) - 0.5) * 0.3
  /\ (unitDraws (rng s) ->
      Rabs (wanderAngles (update delta s) !!! i - wanderAngles s !!! i) <= 0.15).
Proof.
  intros Hlock Hi. pose proof (update_wanderAngle delta s i Hlock Hi) as H.
  split; [exact H|]. intros Hg. rewrite H.
  pose proof (Hg (cursor (rng s) + i)%nat).
  apply Rabs_le. lra.
Qed.

Lemma update_wander_angle_step_witness :
  let s := soloShoal defaults None [] THREE.zero (Vec3 1 0 0) in
  lockstep s /\ (0 < length (fishes s))%nat
  /\ wanderAngles (update 0.1 s) !!! 0%nat
     = wanderAngles s !!! 0%nat
       + (draws (rng s) (cursor (rng s) + 0) - 0.5) * 0.3.
Proof.
  intros s.
  assert (lockstep s) as Hlock by apply soloShoal_lockstep.
  assert (0 < length (fishes s))%nat as Hi by (cbn; lia).
  split; [exact Hlock|]. split; [exact Hi|].
  apply (update_wander_angle_step 0.1 s 0 Hlock Hi).
Defined.

(** ** A tick of an empty shoal *)

(** X11.  A tick of a shoal without fish changes nothing but the spatial
    index: the options, the collaborators, the (empty or not) tracks, the
    cached temple box and the random source are as they were. *)
Theorem update_empty_shoal (delta : R) (s : MyShoal) :
  fishes s = [] -> simulation (update delta s) = simulation s.
Proof.
  intros Hempty.
  destruct (update_as_loop delta s) as (e & b & g & c & ->).
  rewrite Hempty. reflexivity.
Qed.

Lemma update_empty_shoal_witness :
  fishes (emptyShoal defaults) = []
  /\ simulation (update 0.1 (emptyShoal defaults)) = simulation (emptyShoal defaults).
Proof.
  assert (fishes (emptyShoal defaults) = []) as H by reflexivity.
  split; [exact H|]. apply (update_empty_shoal 0.1 _ H).
Defined.

(** ** Staying calm *)

Lemma panicTrigger_far o fishPos es :
  Forall (fun e => visible e = false
                   \/ dangerEvasionDistance o * 0.5
                      <= THREE.distanceTo fishPos (worldPosition e)) es ->
  existsb (panicTrigger o fishPos) es = false.
Proof.
  induction 1 as [|e es He _ IH]; [reflexivity|].
  cbn [existsb]. rewrite IH, orb_false_r. unfold panicTrigger.
  destruct He as [-> | Hfar]; [reflexivity|].
  rewrite (Rltb_false _ (dangerEvasionDistance o * 0.5)) by lra.
  apply andb_false_r.
Qed.

(** X12.  Panic starts only from a threat: a fish that is not panicking
    is not panicking after a tick, and its panic timer is untouched, when
    every registered threat is invisible or at least half the evasion
    distance away from it. *)
Theorem update_calm_stays_calm (delta : R) (s : MyShoal) (i : nat) :
  lockstep s -> (i < length (fishes s))%nat ->
  panicMode s !!! i = false ->
  Forall (fun e => visible e = false
                   \/ dangerEvasionDistance (options s) * 0.5
                      <= THREE.distanceTo (getWorldPosition s (fishes s !!! i))
                                          (worldPosition e))
         (dangerousEntities s) ->
  panicMode (update delta s) !!! i = false
  /\ panicTimer (update delta s) !!! i = panicTimer s !!! i.
Proof.
  intros Hlock Hi Hcalm Hfar.
  pose proof (update_panic_decay delta s i Hlock Hi) as H.
  unfold panicTriggered in H. rewrite (panicTrigger_far _ _ _ Hfar) in H.
  specialize (H eq_refl). unfold panicOf, panicDecay in H. cbn [fst snd] in H.
  rewrite Hcalm in H. injection H as -> ->. split; reflexivity.
Qed.

Lemma update_calm_stays_calm_witness :
  let s := soloShoal slimOptions None [farThreat] THREE.zero (Vec3 1 0 0) in
  panicMode (update 0.1 s) !!! 0%nat = false
  /\ panicTimer (update 0.1 s) !!! 0%nat = panicTimer s !!! 0%nat.
Proof.
  intros s. apply (update_calm_stays_calm 0.1 s 0).
  - apply soloShoal_lockstep.
  - cbn. lia.
  - reflexivity.
  - constructor; [|constructor]. right.
    unfold s, getWorldPosition; cbn. unfold THREE.zero.
    rewrite distanceTo_along_x. rewrite Rabs_left; lra.
Defined.

(** ** Threats out of sight *)

Lemma dangerVisit_outOfSight o j fishPos acc e :
  outOfSight o fishPos e -> dangerVisit o j fishPos acc e = acc.
Proof.
  intros [Hhidden | Hfar]; unfold dangerVisit.
  - rewrite Hhidden. reflexivity.
  - destruct (visible e); [|reflexivity]. cbn [negb].
    rewrite Rltb_false by lra. reflexivity.
Qed.

Lemma dangerLoop_outOfSight o j fishPos es acc :
  Forall (outOfSight o fishPos) es ->
  fold_left (dangerVisit o j fishPos) es acc = acc.
Proof.
  induction 1 as [|e es He _ IH]; [reflexivity|].
  rewrite fold_left_step, dangerVisit_outOfSight by exact He. exact IH.
Qed.

Lemma dangerEvasion_outOfSight s i :
  Forall (outOfSight (options s) (getWorldPosition s (fishes s !!! i)))
         (dangerousEntities s) ->
  dangerEvasion s i = (THREE.zero, s).
Proof.
  intros H. unfold dangerEvasion.
  rewrite dangerLoop_outOfSight by exact H.
  cbn. destruct s; reflexivity.
Qed.

(** X13.  [dangerEvasion] passes over every threat that is not visible
    or not closer than the detection distance: when all registered
    threats are such (in particular when none is registered), the force
    is zero and the shoal is left exactly as it was (no panic is set). *)
Theorem dangerEvasion_ignores_threats_out_of_sight (s : MyShoal) (i : nat) :
  Forall (outOfSight (options s) (getWorldPosition s (fishes s !!! i)))
         (dangerousEntities s) ->
  dangerEvasion s i = (THREE.zero, s).
Proof. apply dangerEvasion_outOfSight. Qed.

Lemma dangerEvasion_ignores_threats_out_of_sight_witness :
  let s := soloShoal slimOptions None [farThreat] THREE.zero (Vec3 1 0 0) in
  dangerEvasion s 0 = (THREE.zero, s).
Proof.
  intros s. apply (dangerEvasion_ignores_threats_out_of_sight s 0).
  constructor; [|constructor]. right.
  unfold s, getWorldPosition; cbn. unfold THREE.zero.
  rewrite distanceTo_along_x. rewrite Rabs_left; lra.
Defined.

(** ** A threat detected but not yet evaded *)

Lemma dangerEvasion_band s i e :
  dangerousEntities s = [e] -> visible e = true ->
  let o := options s in
  let fishPos := getWorldPosition s (fishes s !!! i) in
  let d := THREE.distanceTo fishPos (worldPosition e) in
  let u := THREE.normalize (THREE.subVectors fishPos (worldPosition e)) in
  let cap := maxForce o * dangerEvasionWeight o
             * (if (panicMode s !!! i : bool) then panicSpeedMultiplier o else 1.5) in
  0 < d -> dangerEvasionDistance o <= d -> d < dangerDetectionDistance o ->
  dangerEvasion s i
  = (THREE.multiplyScalar u
       (Rmax 0 (Rmin cap ((1 - d / dangerDetectionDistance o) * 2))), s).
Proof.
  intros He Hvis o fishPos d u cap Hd HE HDet.
  assert (THREE.length u = 1) as Hu.
  { apply length_normalize. exact Hd. }
  assert (0 < (1 - d / dangerDetectionDistance o) * 2) as Hk.
  { assert (d / dangerDetectionDistance o < 1); [|lra].
    apply Rmult_lt_reg_r with (dangerDetectionDistance o); [lra|]. unfold Rdiv.
    rewrite Rmult_assoc, Rinv_l by lra. lra. }
  unfold dangerEvasion. rewrite He. rewrite fold_left_step. cbn [fold_left].
  unfold dangerVisit. rewrite Hvis. cbn [negb].
  fold o fishPos d.
  rewrite (Rltb_true d (dangerDetectionDistance o)) by exact HDet.
  rewrite (Rltb_false d (dangerEvasionDistance o)) by lra.
  cbn [steer closestDangerDistance closestDangerDirection dangerDetected
       accPanicMode accPanicTimer].
  change (default 0 (Some d)) with d.
  fold u. rewrite length_zero, Reqb_true by reflexivity.
  rewrite (Rltb_true d (dangerDetectionDistance o)) by exact HDet.
  cbn [andb].
  set (k := (1 - d / dangerDetectionDistance o) * 2) in *.
  rewrite length_multiplyScalar, Hu.
  rewrite Rabs_pos_eq by (apply Rlt_le, Hk). rewrite Rmult_1_r.
  rewrite (Rltb_true 0 k) by exact Hk.
  rewrite clampLength_scaled_unit by assumption.
  cbn [panicMode set_panicMode set_panicTimer]. fold cap.
  f_equal. destruct s; reflexivity.
Qed.

(** X14.  One visible threat at distance [d] from fish [i], inside the
    detection distance but not inside the evasion distance
    ([dangerEvasionDistance <= d < dangerDetectionDistance], [0 < d]):
    [dangerEvasion] steers away preemptively.  The force is the unit
    vector from the threat to the fish times
    [(1 - d / dangerDetectionDistance) * 2], a magnitude between 0 and 2
    that grows linearly as the threat comes closer, capped at
    [maxForce * dangerEvasionWeight * m] ([m] the panic speed multiplier
    if the fish already panics, else 1.5); no panic is set and the shoal
    is left as it was. *)
Theorem dangerEvasion_preemptive_steer (s : MyShoal) (i : nat) (e : Entity) :
  dangerousEntities s = [e] -> visible e = true ->
  let o := options s in
  let fishPos := getWorldPosition s (fishes s !!! i) in
  let d := THREE.distanceTo fishPos (worldPosition e) in
  let u := THREE.normalize (THREE.subVectors fishPos (worldPosition e)) in
  let cap := maxForce o * dangerEvasionWeight o
             * (if (panicMode s !!! i : bool) then panicSpeedMultiplier o else 1.5) in
  let k := (1 - d / dangerDetectionDistance o) * 2 in
  0 < d -> dangerEvasionDistance o <= d -> d < dangerDetectionDistance o ->
  THREE.length u = 1 /\ 0 < k < 2
  /\ dangerEvasion s i = (THREE.multiplyScalar u (Rmax 0 (Rmin cap k)), s)
  /\ (k <= cap -> THREE.length (fst (dangerEvasion s i)) = k).
Proof.
  intros He Hvis o fishPos d u cap k Hd HE HDet.
  pose proof (dangerEvasion_band s i e He Hvis Hd HE HDet) as H.
  fold o fishPos d u cap k in H.
  assert (THREE.length u = 1) as Hu.
  { apply length_normalize. exact Hd. }
  assert (0 < d / dangerDetectionDistance o < 1) as [Hq0 Hq1].
  { split.
    - apply Rdiv_lt_0_compat; lra.
    - apply Rmult_lt_reg_r with (dangerDetectionDistance o); [lra|]. unfold Rdiv.
      rewrite Rmult_assoc, Rinv_l by lra. lra. }
  split; [exact Hu|]. split; [unfold k; lra|]. split; [exact H|].
  intros Hcap. rewrite H. cbn [fst].
  rewrite Rmin_right by exact Hcap. rewrite Rmax_right by (unfold k; lra).
  rewrite length_multiplyScalar, Hu, Rabs_pos_eq by (unfold k; lra). lra.
Qed.

Lemma dangerEvasion_preemptive_steer_witness :
  let s := soloShoal defaults None [bandThreat] THREE.zero (Vec3 1 0 0) in
  let d := THREE.distanceTo (getWorldPosition s (fishes s !!! 0%nat))
             (worldPosition bandThreat) in
  d = 27
  /\ THREE.length (fst (dangerEvasion s 0)) = (1 - d / 30) * 2
  /\ snd (dangerEvasion s 0) = s.
Proof.
  intros s d.
  assert (d = 27) as Hd.
  { unfold d, s, getWorldPosition; cbn. unfold THREE.zero.
    rewrite distanceTo_along_x. rewrite Rabs_left; lra. }
  split; [exact Hd|].
  destruct (dangerEvasion_preemptive_steer s 0 bandThreat eq_refl eq_refl)
    as (_ & _ & Hforce & Hlen).
  - fold d. rewrite Hd. lra.
  - fold d. rewrite Hd. cbn. lra.
  - fold d. rewrite Hd. cbn. lra.
  - split.
    + apply Hlen. fold d. rewrite Hd. cbn. lra.
    + rewrite Hforce. reflexivity.
Defined.

(** ** The temple *)

Lemma Rltb_false_inv a b : Rltb a b = false -> b <= a.
Proof. unfold Rltb. destruct (Rlt_dec a b); [discriminate | lra]. Qed.

Lemma distanceTo_self p : THREE.distanceTo p p = 0.
Proof.
  unfold THREE.distanceTo, THREE.subVectors.
  replace (Vec3 (THREE.x p - THREE.x p) (THREE.y p - THREE.y p) (THREE.z p - THREE.z p))
    with THREE.zero by (unfold THREE.zero; apply Vec3_eq; ring).
  apply length_zero.
Qed.

(** A point inside a box is at distance zero from it. *)
Lemma containsPoint_distance b p :
  THREE.containsPoint b p = true -> THREE.distanceToPoint b p = 0.
Proof.
  unfold THREE.containsPoint. intros H%negb_true_iff.
  repeat (apply orb_false_elim in H as [H ?]).
  repeat match goal with
         | H : Rltb _ _ = false |- _ => apply Rltb_false_inv in H
         end.
  unfold THREE.distanceToPoint, THREE.clampPoint.
  rewrite (Rmin_right (THREE.x (THREE.max b))), (Rmin_right (THREE.y (THREE.max b))),
    (Rmin_right (THREE.z (THREE.max b))) by assumption.
  rewrite !Rmax_right by assumption.
  destruct p. apply distanceTo_self.
Qed.

Lemma avoidTemple_box s i templeBounds :
  temple s = Some templeBounds ->
  _templeBox (snd (avoidTemple s i)) = Some (templeBoxInUse s templeBounds).
Proof.
  intros Ht. unfold avoidTemple, templeBoxInUse. rewrite Ht.
  destruct (_templeBox s) as [b|] eqn:E; cbv zeta;
    repeat match goal with
           | |- context [if ?c then _ else _] => destruct c
           end; cbn; rewrite ?E; reflexivity.
Qed.

Lemma avoidTemple_cached s i b templeBounds moved :
  _templeBox s = Some b -> temple s = Some templeBounds ->
  avoidTemple (set_temple (Some moved) s) i
  = (fst (avoidTemple s i), set_temple (Some moved) (snd (avoidTemple s i))).
Proof.
  intros Hb Ht. unfold avoidTemple. rewrite Ht.
  cbn [temple set_temple]. cbv zeta. unfold getWorldPosition.
  cbn [_templeBox fishes matrixWorld options set_temple]. rewrite !Hb.
  cbn [_templeBox fishes matrixWorld options set_temple]. rewrite ?Hb.
  change (default (THREE.expandByScalar moved 5) (Some b)) with b.
  change (default (THREE.expandByScalar templeBounds 5) (Some b)) with b.
  repeat match goal with
         | |- context [if ?c then _ else _] => destruct c
         end; reflexivity.
Qed.

(** X15.  The box of the temple is computed once.  The first call of
    [avoidTemple] that finds a temple stores its bounds grown by 5; a
    stored box is never replaced, and while one is stored the force does
    not depend on where the temple is now: after the host moves the temple
    the fish still avoid the place where it was. *)
Theorem avoidTemple_box_is_cached (s : MyShoal) (i : nat)
    (templeBounds moved : THREE.Box3) :
  temple s = Some templeBounds ->
  _templeBox (snd (avoidTemple s i))
  = Some (default (THREE.expandByScalar templeBounds 5) (_templeBox s))
  /\ (is_Some (_templeBox s) ->
      fst (avoidTemple (set_temple (Some moved) s) i) = fst (avoidTemple s i)).
Proof.
  intros Ht. split; [apply avoidTemple_box, Ht|].
  intros [b Hb]. rewrite (avoidTemple_cached s i b templeBounds moved Hb Ht).
  reflexivity.
Qed.

Lemma avoidTemple_box_is_cached_witness :
  let s := set_temple (Some farTemple)
             (soloShoal defaults None [] THREE.zero (Vec3 1 0 0)) in
  _templeBox (snd (avoidTemple s 0))
  = Some (THREE.expandByScalar farTemple 5).
Proof.
  intros s.
  apply (avoidTemple_box_is_cached s 0 farTemple farTemple eq_refl).
Defined.

Lemma avoidTemple_clear s i :
  clearOfTemple s i -> fst (avoidTemple s i) = THREE.zero.
Proof.
  unfold clearOfTemple, avoidTemple.
  destruct (temple s) as [templeBounds|]; [|reflexivity].
  intros Hfar. cbv zeta.
  match goal with
  | |- context [THREE.distanceToPoint ?b ?p] =>
      assert (b = templeBoxInUse s templeBounds) as Hbox
  end.
  - unfold templeBoxInUse. destruct (_templeBox s) eqn:E; cbn; rewrite ?E; reflexivity.
  - rewrite Hbox.
    set (box := templeBoxInUse s templeBounds) in *.
    set (worldPos := getWorldPosition s (fishes s !!! i)) in *.
    clearbody box worldPos.
    destruct (THREE.containsPoint box worldPos) eqn:Hin.
    + apply containsPoint_distance in Hin. lra.
    + rewrite (Rltb_false _ 1) by lra.
      destruct (negb _); reflexivity.
Qed.

(** X16.  [avoidTemple] acts only within one unit of the box: for a fish
    at distance 1 or more from the box in use (the stored box, or the
    temple's bounds grown by 5) the force is zero, although fish up to 10
    units away pass the "inside or near" test.  Without a temple the
    force is zero as well. *)
Theorem avoidTemple_zero_beyond_one_unit (s : MyShoal) (i : nat) :
  clearOfTemple s i -> fst (avoidTemple s i) = THREE.zero.
Proof. apply avoidTemple_clear. Qed.

Lemma avoidTemple_zero_beyond_one_unit_witness :
  let s := set_temple (Some farTemple)
             (soloShoal defaults None [] THREE.zero (Vec3 1 0 0)) in
  clearOfTemple s 0 /\ fst (avoidTemple s 0) = THREE.zero.
Proof.
  intros s.
  assert (clearOfTemple s 0) as H.
  { unfold clearOfTemple, s, templeBoxInUse, getWorldPosition; cbn.
    unfold THREE.distanceToPoint, THREE.clampPoint, farTemple, THREE.expandByScalar.
    cbn [THREE.x THREE.y THREE.z THREE.min THREE.max THREE.zero].
    Rminmax. unfold THREE.distanceTo, THREE.subVectors, THREE.length, THREE.lengthSq.
    unfold THREE.zero. cbn [THREE.x THREE.y THREE.z].
    rewrite <- sqrt_1 at 1. apply sqrt_le_1_alt. lra. }
  split; [exact H|]. apply (avoidTemple_zero_beyond_one_unit s 0 H).
Defined.

(** ** Swimming free *)

Lemma flockBounds_clear o p v :
  boundsMargin o <= THREE.x p + areaSize o * 0.5 ->
  boundsMargin o <= areaSize o * 0.5 - THREE.x p ->
  boundsMargin o <= THREE.y p + height o * 0.5 ->
  boundsMargin o <= height o * 0.5 - THREE.y p ->
  boundsMargin o <= THREE.z p + areaSize o * 0.5 ->
  boundsMargin o <= areaSize o * 0.5 - THREE.z p ->
  flockBounds o p v = THREE.zero.
Proof.
  intros H1 H2 H3 H4 H5 H6. unfold flockBounds. cbv zeta.
  rewrite (Rltb_false (THREE.x p + areaSize o * 0.5)) by lra.
  rewrite (Rltb_false (areaSize o * 0.5 - THREE.x p)) by lra.
  rewrite (Rltb_false (THREE.y p + height o * 0.5)) by lra.
  rewrite (Rltb_false (height o * 0.5 - THREE.y p)) by lra.
  rewrite (Rltb_false (THREE.z p + areaSize o * 0.5)) by lra.
  rewrite (Rltb_false (areaSize o * 0.5 - THREE.z p)) by lra.
  unfold THREE.lengthSq; cbn [THREE.x THREE.y THREE.z].
  rewrite Rltb_false by lra. reflexivity.
Qed.

Lemma alone_flockNeighbors s i : alone s i -> flockNeighbors s i = [].
Proof.
  intros Halone. unfold flockNeighbors.
  assert (forall js, Forall (fun j => (j < length (fishes s))%nat) js ->
                     List.filter (isFlockNeighbor s i) js = []) as H.
  { induction 1 as [|j js Hj _ IH]; [reflexivity|].
    cbn [List.filter]. rewrite IH.
    unfold isFlockNeighbor. destruct (Nat.eqb_spec j i) as [_|Hne]; [reflexivity|].
    cbn [negb andb].
    rewrite (Rltb_false _ (awareness (options s))).
    - rewrite andb_false_r. reflexivity.
    - apply Rle_not_lt, Halone; assumption. }
  apply H, Forall_forall. intros j Hj%elem_of_seq. lia.
Qed.

Lemma flock_free s i : alone s i -> clearOfWalls s i -> flock s i = THREE.zero.
Proof.
  intros Halone (H1 & H2 & H3 & H4 & H5 & H6). unfold flock. cbv zeta.
  change (Rmax (Rmax (separationDistance (options s)) (alignmentDistance (options s)))
            (cohesionDistance (options s))) with (awareness (options s)).
  rewrite flock_scan, (alone_flockNeighbors _ _ Halone). cbn [fold_left total Nat.ltb Nat.leb].
  rewrite flockBounds_clear by assumption. apply add_zero_l.
Qed.

Lemma wander_reads s i :
  let s1 := snd (wander s i) in
  options s1 = options s /\ terrain s1 = terrain s /\ temple s1 = temple s
  /\ matrixWorld s1 = matrixWorld s /\ dangerousEntities s1 = dangerousEntities s
  /\ fishes s1 = fishes s /\ _templeBox s1 = _templeBox s.
Proof. unfold wander, random. cbn. repeat split. Qed.

Lemma avoidTemple_reads s i :
  let s2 := snd (avoidTemple s i) in
  options s2 = options s /\ matrixWorld s2 = matrixWorld s
  /\ dangerousEntities s2 = dangerousEntities s /\ fishes s2 = fishes s.
Proof.
  pose proof (avoidTemple_frame s i) as F.
  pose proof (avoidTemple_writes s i) as (Hf & _).
  cbv zeta. repeat split; try exact Hf; apply F.
Qed.

Lemma avoidTerrain_clear s i : clearOfTerrain s i -> avoidTerrain s i = THREE.zero.
Proof.
  unfold clearOfTerrain. destruct (terrain s) as [h|] eqn:Ht.
  - intros H. apply (avoidTerrain_above s i h Ht H).
  - intros _. apply avoidTerrain_none, Ht.
Qed.

(** The forces on a fish that nothing disturbs. *)
Lemma calculateForces_free s i :
  alone s i -> clearOfWalls s i -> clearOfTerrain s i -> clearOfTemple s i ->
  Forall (outOfSight (options s) (getWorldPosition s (fishes s !!! i)))
         (dangerousEntities s) ->
  fst (calculateForces s i)
  = {| flockForce := THREE.zero; wanderForce := fst (wander s i);
       terrainForce := THREE.zero; templeForce := THREE.zero;
       dangerForce := THREE.zero |}.
Proof.
  intros Halone Hwalls Hterrain Htemple Hthreats.
  destruct (calculateForces_forces s i) as (Hf & Hw & Ht & Hte & Hd).
  destruct (wander_reads s i) as (O1 & T1 & Te1 & M1 & E1 & F1 & B1).
  set (s1 := snd (wander s i)) in *.
  destruct (avoidTemple_reads s1 i) as (O2 & M2 & E2 & F2).
  set (s2 := snd (avoidTemple s1 i)) in *.
  assert (avoidTerrain s1 i = THREE.zero) as Z1.
  { apply avoidTerrain_clear. unfold clearOfTerrain, getWorldPosition in *.
    rewrite T1, O1, M1, F1. exact Hterrain. }
  assert (fst (avoidTemple s1 i) = THREE.zero) as Z2.
  { apply avoidTemple_clear.
    unfold clearOfTemple, templeBoxInUse, getWorldPosition in *.
    rewrite Te1, M1, F1, B1. exact Htemple. }
  assert (fst (dangerEvasion s2 i) = THREE.zero) as Z3.
  { rewrite dangerEvasion_outOfSight; [reflexivity|].
    unfold getWorldPosition in *. rewrite O2, M2, E2, F2, O1, M1, E1, F1.
    exact Hthreats. }
  clearbody s1 s2.
  destruct (fst (calculateForces s i)) as [ff wf tf tef df].
  cbn [flockForce wanderForce terrainForce templeForce dangerForce] in *.
  rewrite Hf, Hw, Ht, Hte, Hd, Z1, Z2, Z3, flock_free by assumption.
  reflexivity.
Qed.

(** X17.  A fish that nothing disturbs only wanders: when no other fish
    is within the awareness radius, the fish is at least the boundary
    margin away from every wall, at or above the safe height over the
    terrain, at least one unit from the temple box, and every threat is
    invisible or beyond the detection distance, then the flocking,
    terrain, temple and danger forces are all zero and the acceleration
    of the tick is the wander force times [wanderStrength], clamped to
    [2 * maxForce]. *)
Theorem free_fish_only_wanders (s : MyShoal) (i : nat) :
  alone s i -> clearOfWalls s i -> clearOfTerrain s i -> clearOfTemple s i ->
  Forall (outOfSight (options s) (getWorldPosition s (fishes s !!! i)))
         (dangerousEntities s) ->
  let f := fst (calculateForces s i) in
  flockForce f = THREE.zero /\ terrainForce f = THREE.zero
  /\ templeForce f = THREE.zero /\ dangerForce f = THREE.zero
  /\ spec_acceleration (options s) f
     = THREE.clampLength
         (THREE.multiplyScalar (fst (wander s i)) (wanderStrength (options s)))
         0 (2 * maxForce (options s)).
Proof.
  intros Halone Hwalls Hterrain Htemple Hthreats f.
  pose proof (calculateForces_free s i Halone Hwalls Hterrain Htemple Hthreats) as H.
  subst f. rewrite H. repeat (split; [reflexivity|]).
  unfold spec_acceleration.
  cbn [flockForce wanderForce terrainForce templeForce dangerForce].
  rewrite multiplyScalar_zero, !add_zero_r, add_zero_l. reflexivity.
Qed.

Lemma free_fish_only_wanders_witness :
  let s := soloShoal defaults (Some (fun _ _ => -10)) [farThreat] THREE.zero
             (Vec3 1 0 0) in
  let f := fst (calculateForces s 0) in
  flockForce f = THREE.zero /\ terrainForce f = THREE.zero
  /\ templeForce f = THREE.zero /\ dangerForce f = THREE.zero
  /\ spec_acceleration (options s) f
     = THREE.clampLength
         (THREE.multiplyScalar (fst (wander s 0)) (wanderStrength (options s)))
         0 (2 * maxForce (options s)).
Proof.
  intros s. apply (free_fish_only_wanders s 0).
  - intros j Hj Hne. cbn in Hj. lia.
  - unfold clearOfWalls, s; cbn. lra.
  - unfold clearOfTerrain, s, getWorldPosition; cbn. lra.
  - exact I.
  - constructor; [|constructor]. right.
    unfold s, getWorldPosition; cbn.
    unfold THREE.distanceTo, THREE.subVectors, THREE.length, THREE.lengthSq, THREE.zero.
    cbn [THREE.x THREE.y THREE.z].
    replace 30 with (sqrt (30 * 30)) by (rewrite sqrt_square; lra).
    apply sqrt_le_1_alt. lra.
Defined.

(** ** Neighbour queries *)

Lemma distanceTo_sym a b : THREE.distanceTo a b = THREE.distanceTo b a.
Proof.
  unfold THREE.distanceTo, THREE.length, THREE.lengthSq, THREE.subVectors.
  cbn [THREE.x THREE.y THREE.z]. f_equal. ring.
Qed.

Lemma distanceTo_nonneg a b : 0 <= THREE.distanceTo a b.
Proof. apply length_nonneg. Qed.

(** The callback of the sphere cast, on the list collected so far. *)
Lemma bvhCollect_spec (accepts : nat -> bool) (visits : list nat) : forall acc,
  NoDup acc ->
  let result :=
    fold_left (fun neighbors j =>
                 if accepts j && negb (bool_decide (j ∈ neighbors))
                 then neighbors ++ [j] else neighbors) visits acc in
  NoDup result
  /\ forall j, j ∈ result <-> j ∈ acc \/ (j ∈ visits /\ accepts j = true).
Proof.
  induction visits as [|v visits IH]; intros acc Hacc.
  - cbn. split; [exact Hacc|]. intros j. rewrite elem_of_nil. tauto.
  - cbv zeta. rewrite fold_left_step.
    destruct (accepts v) eqn:Ev; cbn [andb].
    + destruct (bool_decide_reflect (v ∈ acc)) as [Hin|Hout]; cbn [negb].
      * destruct (IH acc Hacc) as [Hnd Hiff]. split; [exact Hnd|].
        intros j. rewrite Hiff, elem_of_cons.
        split; [tauto|]. intros [H|[[->|H] Hj]]; tauto.
      * assert (NoDup (acc ++ [v])) as Hacc'.
        { apply NoDup_app. split; [exact Hacc|]. split; [|apply NoDup_singleton].
          intros x Hx ->%list_elem_of_singleton. contradiction. }
        destruct (IH (acc ++ [v]) Hacc') as [Hnd Hiff]. split; [exact Hnd|].
        intros j. rewrite Hiff, elem_of_app, list_elem_of_singleton, elem_of_cons.
        split; [|tauto]. intros [[H| ->]|H]; tauto.
    + destruct (IH acc Hacc) as [Hnd Hiff]. split; [exact Hnd|].
      intros j. rewrite Hiff, elem_of_cons.
      split; [tauto|]. intros [H|[[->|H] Hj]]; [tauto| congruence |tauto].
Qed.

Lemma getNeighborsBVH_collect s i radius b fish :
  bvh s = Some b -> fishes s !! i = Some fish -> bvhEnabled s = true ->
  position fish = position (fishes s !!! i)
  /\ getNeighborsBVH s i radius
     = fold_left (fun neighbors j =>
                    if bvhAccepts s i radius j && negb (bool_decide (j ∈ neighbors))
                    then neighbors ++ [j] else neighbors)
                 (shapecast b (position fish) radius) [].
Proof.
  intros Hb Hf He.
  assert (fishes s !!! i = fish) as Hfish.
  { apply list_lookup_total_correct, Hf. }
  split; [rewrite Hfish; reflexivity|].
  unfold getNeighborsBVH. rewrite Hb, Hf, He. cbn [negb].
  apply fold_left_ext. intros acc j. unfold bvhAccepts. rewrite Hfish.
  destruct (negb (j =? i)%nat && (j <? length (fishes s))%nat); [|reflexivity].
  cbn [andb]. reflexivity.
Qed.

Lemma getNeighborsBVH_spec s i radius b fish :
  bvh s = Some b -> fishes s !! i = Some fish -> bvhEnabled s = true ->
  NoDup (getNeighborsBVH s i radius)
  /\ forall j,
       j ∈ getNeighborsBVH s i radius
       <-> j ∈ shapecast b (position fish) radius
           /\ j <> i /\ (j < length (fishes s))%nat
           /\ THREE.distanceTo (position fish) (position (fishes s !!! j)) <= radius.
Proof.
  intros Hb Hf He.
  destruct (getNeighborsBVH_collect s i radius b fish Hb Hf He) as [Hpos ->].
  destruct (bvhCollect_spec (bvhAccepts s i radius)
              (shapecast b (position fish) radius) [] NoDup_nil_2) as [Hnd Hiff].
  split; [exact Hnd|]. intros j. rewrite Hiff, elem_of_nil.
  unfold bvhAccepts. rewrite !andb_true_iff, negb_true_iff, Nat.eqb_neq, Nat.ltb_lt.
  rewrite Hpos. unfold Rleb.
  destruct (Rle_dec _ radius); [tauto|].
  split; [intros [[]|(_ & _ & H)]; discriminate | tauto].
Qed.

(** X18.  What the indexed neighbour query returns.  With the index
    built and enabled and fish [i] in the shoal, [getNeighborsBVH i r]
    lists, without repetition, exactly the indices the sphere cast visits
    that are another fish of the shoal at distance [<= r] from fish [i]
    (current positions): nothing else is returned, and nothing the cast
    visits is lost. *)
Theorem getNeighborsBVH_exact_filter (s : MyShoal) (i : nat) (radius : R)
    (b : MeshBVH) (fish : Fish) :
  bvh s = Some b -> fishes s !! i = Some fish -> bvhEnabled s = true ->
  NoDup (getNeighborsBVH s i radius)
  /\ forall j,
       j ∈ getNeighborsBVH s i radius
       <-> j ∈ shapecast b (position fish) radius
           /\ j <> i /\ (j < length (fishes s))%nat
           /\ THREE.distanceTo (position fish) (position (fishes s !!! j)) <= radius.
Proof. apply getNeighborsBVH_spec. Qed.

Lemma getNeighborsBVH_exact_filter_witness :
  let s := indexedShoal defaults THREE.zero (Vec3 3 0 0) in
  exists b fish,
    bvh s = Some b /\ fishes s !! 0%nat = Some fish
    /\ NoDup (getNeighborsBVH s 0 5).
Proof.
  intros s. eexists _, _. split; [reflexivity|]. split; [reflexivity|].
  eapply getNeighborsBVH_exact_filter; reflexivity.
Defined.

(** Without the index, or with it switched off, the scan is used. *)
Lemma _getNeighbors_brute s i radius :
  bvhEnabled s = false \/ bvh s = None ->
  _getNeighbors s i radius
  = List.filter
      (fun j => negb (i =? j)%nat
                && Rltb (THREE.distanceTo (position (fishes s !!! i))
                           (position (fishes s !!! j))) radius)
      (seq 0 (length (fishes s))).
Proof.
  intros Hoff. unfold _getNeighbors.
  assert (bvhEnabled s && bool_decide (is_Some (bvh s)) = false) as ->.
  { destruct Hoff as [-> | ->]; [reflexivity|].
    apply andb_false_intro2. apply bool_decide_eq_false. intros [? ?]. discriminate. }
  rewrite <- (app_nil_l (List.filter _ _)), <- collect_filter.
  apply fold_left_ext. intros a x.
  destruct (i =? x)%nat; reflexivity.
Qed.

Lemma _getNeighbors_brute_elem s i radius j :
  bvhEnabled s = false \/ bvh s = None ->
  j ∈ _getNeighbors s i radius
  <-> (j < length (fishes s))%nat /\ j <> i
      /\ THREE.distanceTo (position (fishes s !!! i)) (position (fishes s !!! j))
         < radius.
Proof.
  intros Hoff. rewrite _getNeighbors_brute by exact Hoff.
  rewrite list_elem_of_In, filter_In, <- list_elem_of_In, elem_of_seq.
  rewrite andb_true_iff, negb_true_iff, Nat.eqb_neq. unfold Rltb.
  destruct (Rlt_dec _ radius).
  - split; [intros (? & ? & _); repeat split; [lia | congruence | assumption]|].
    intros (? & ? & _). repeat split; [lia | lia | congruence].
  - split; [intros (_ & _ & H); discriminate | tauto].
Qed.

(** X19.  What the brute-force neighbour query returns, and its
    symmetry.  Without a built index (or with the index switched off),
    [_getNeighbors i r] lists, without repetition, exactly the other fish
    at distance [< r] from fish [i]; so for two fish of the shoal, [j] is
    a neighbour of [i] if and only if [i] is a neighbour of [j]. *)
Theorem getNeighbors_brute_force_symmetric (s : MyShoal) (i j : nat) (radius : R) :
  bvhEnabled s = false \/ bvh s = None ->
  (i < length (fishes s))%nat -> (j < length (fishes s))%nat ->
  (j ∈ _getNeighbors s i radius
   <-> (j < length (fishes s))%nat /\ j <> i
       /\ THREE.distanceTo (position (fishes s !!! i)) (position (fishes s !!! j))
          < radius)
  /\ NoDup (_getNeighbors s i radius)
  /\ (j ∈ _getNeighbors s i radius <-> i ∈ _getNeighbors s j radius).
Proof.
  intros Hoff Hi Hj. split; [apply _getNeighbors_brute_elem, Hoff|]. split.
  - rewrite _getNeighbors_brute by exact Hoff.
    apply NoDup_ListNoDup, List.NoDup_filter, seq_NoDup.
  - rewrite !_getNeighbors_brute_elem by exact Hoff.
    rewrite (distanceTo_sym (position (fishes s !!! j))).
    split; intros (H1 & H2 & H3);
      (split; [assumption|]; split; [intros E; apply H2; symmetry; exact E | assumption]).
Qed.

Lemma getNeighbors_brute_force_symmetric_witness :
  let s := pairShoal defaults THREE.zero (Vec3 3 0 0) in
  (1%nat ∈ _getNeighbors s 0 5 <-> 0%nat ∈ _getNeighbors s 1 5).
Proof.
  intros s.
  apply (getNeighbors_brute_force_symmetric s 0 1 5).
  - left. reflexivity.
  - cbn. lia.
  - cbn. lia.
Defined.

(** ** Statistics *)

(** Whatever the state of the index, a neighbour is not farther than the
    radius. *)
Lemma _getNeighbors_within s i radius j :
  (i < length (fishes s))%nat -> j ∈ _getNeighbors s i radius ->
  THREE.distanceTo (position (fishes s !!! i)) (position (fishes s !!! j)) <= radius.
Proof.
  intros Hi Hj.
  destruct (bvhEnabled s) eqn:He; [destruct (bvh s) as [b|] eqn:Hb|].
  - unfold _getNeighbors in Hj. rewrite He, Hb in Hj.
    rewrite bool_decide_eq_true_2 in Hj by (eexists; reflexivity). cbn [andb] in Hj.
    destruct (lookup_lt_is_Some_2 (fishes s) i Hi) as [fish Hf].
    destruct (getNeighborsBVH_spec s i radius b fish Hb Hf He) as [_ Hiff].
    apply Hiff in Hj as (_ & _ & _ & Hd).
    rewrite (list_lookup_total_correct _ _ _ Hf). exact Hd.
  - apply _getNeighbors_brute_elem in Hj as (_ & _ & Hd); [lra | right; exact Hb].
  - apply _getNeighbors_brute_elem in Hj as (_ & _ & Hd); [lra | left; exact He].
Qed.

Lemma statsPair_within s i bound acc j :
  0 <= bound ->
  THREE.distanceTo (position (fishes s !!! i)) (position (fishes s !!! j)) <= bound ->
  pairsWithin bound acc -> pairsWithin bound (statsPair s i acc j).
Proof.
  intros Hb Hd [H0 H1]. unfold statsPair, pairsWithin.
  destruct (i <? j)%nat; [|split; assumption].
  cbn [avgDistance count]. rewrite S_INR.
  pose proof (distanceTo_nonneg (position (fishes s !!! i)) (position (fishes s !!! j))).
  split; nra.
Qed.

Lemma statsPairs_within s i bound js : forall acc,
  0 <= bound ->
  Forall (fun j => THREE.distanceTo (position (fishes s !!! i))
                     (position (fishes s !!! j)) <= bound) js ->
  pairsWithin bound acc -> pairsWithin bound (fold_left (statsPair s i) js acc).
Proof.
  induction js as [|j js IH]; intros acc Hb Hjs Hacc; [exact Hacc|].
  rewrite fold_left_step. apply Forall_cons in Hjs as [Hj Hjs].
  apply IH; [exact Hb | exact Hjs |]. apply statsPair_within; assumption.
Qed.

Lemma statsVisit_within s acc i :
  (i < length (fishes s))%nat ->
  let bound := Rmax 0 (cohesionDistance (options s) * 2) in
  pairsWithin bound acc -> pairsWithin bound (statsVisit s acc i).
Proof.
  intros Hi bound Hacc. unfold statsVisit. cbv zeta.
  apply statsPairs_within; [apply Rmax_l | | exact Hacc].
  apply Forall_forall. intros j Hj.
  eapply Rle_trans; [apply (_getNeighbors_within _ _ _ _ Hi Hj) | apply Rmax_r].
Qed.

Lemma statsLoop_within s js : forall acc,
  Forall (fun i => (i < length (fishes s))%nat) js ->
  let bound := Rmax 0 (cohesionDistance (options s) * 2) in
  pairsWithin bound acc -> pairsWithin bound (fold_left (statsVisit s) js acc).
Proof.
  induction js as [|i js IH]; intros acc Hjs bound Hacc; [exact Hacc|].
  rewrite fold_left_step. apply Forall_cons in Hjs as [Hi Hjs].
  apply IH; [exact Hjs|]. apply statsVisit_within; assumption.
Qed.

Lemma filter_length_le {A : Type} (c : A -> bool) (l : list A) :
  (length (List.filter c l) <= length l)%nat.
Proof.
  induction l as [|x l IH]; [reflexivity|].
  cbn [List.filter]. destruct (c x); cbn [length]; lia.
Qed.

(** X20.  The statistics stay within their ranges.  For a shoal whose
    tracks are parallel (on any other the method fails on a missing
    velocity), the average distance reported by [getFlockingStats] is 0
    when no pair of neighbours is found and otherwise lies between 0 and
    twice the cohesion distance, the radius of the neighbour query, with
    or without the spatial index; the panic count never exceeds the
    number of panic flags, and the fish count is the number of fish. *)
Theorem getFlockingStats_ranges (s : MyShoal) :
  lockstep s ->
  0 <= averageDistance (getFlockingStats s)
       <= Rmax 0 (cohesionDistance (options s) * 2)
  /\ (panicCount (getFlockingStats s) <= length (panicMode s))%nat
  /\ statFishCount (getFlockingStats s) = length (fishes s).
Proof.
  intros _. split; [|split; [apply filter_length_le | reflexivity]].
  unfold getFlockingStats. cbn [averageDistance].
  match goal with
  | |- context [fold_left (statsVisit s) ?js ?a] =>
      assert (pairsWithin (Rmax 0 (cohesionDistance (options s) * 2))
                (fold_left (statsVisit s) js a)) as [H0 H1]
  end.
  { apply statsLoop_within.
    - apply Forall_forall. intros i Hi%elem_of_seq. lia.
    - unfold pairsWithin; cbn. lra. }
  set (acc := fold_left _ _ _) in *. clearbody acc.
  pose proof (Rmax_l 0 (cohesionDistance (options s) * 2)) as Hb.
  set (bound := Rmax 0 (cohesionDistance (options s) * 2)) in *. clearbody bound.
  destruct (Nat.ltb_spec 0 (count acc)) as [Hpos|Hzero]; [|lra].
  assert (0 < INR (count acc)) as Hc by (apply lt_0_INR, Hpos).
  split.
  - apply Rmult_le_pos; [exact H0 | apply Rlt_le, Rinv_0_lt_compat, Hc].
  - apply Rmult_le_reg_r with (INR (count acc)); [exact Hc|].
    unfold Rdiv. rewrite Rmult_assoc, Rinv_l by lra. lra.
Qed.

Lemma pairShoal_lockstep o p q : lockstep (pairShoal o p q).
Proof. unfold lockstep; cbn. repeat split. Qed.

Lemma getFlockingStats_ranges_witness :
  let s := pairShoal defaults THREE.zero (Vec3 3 0 0) in
  0 <= averageDistance (getFlockingStats s) <= Rmax 0 (50 * 2)
  /\ (panicCount (getFlockingStats s) <= 2)%nat
  /\ statFishCount (getFlockingStats s) = 2%nat.
Proof.
  intros s. apply (getFlockingStats_ranges s), pairShoal_lockstep.
Defined.

(** The sum of speeds after visiting the fish of [js]. *)
Lemma statsPairs_avgSpeed s i js : forall acc,
  avgSpeed (fold_left (statsPair s i) js acc) = avgSpeed acc.
Proof.
  induction js as [|j js IH]; intros acc; [reflexivity|].
  rewrite fold_left_step, IH. unfold statsPair. destruct (i <? j)%nat; reflexivity.
Qed.

Lemma statsLoop_avgSpeed s limit js : forall acc,
  Forall (fun i => THREE.length (velocities s !!! i) <= limit) js ->
  avgSpeed acc <= avgSpeed (fold_left (statsVisit s) js acc)
               <= avgSpeed acc + INR (length js) * limit.
Proof.
  induction js as [|i js IH]; intros acc Hjs.
  - cbn. lra.
  - rewrite fold_left_step. apply Forall_cons in Hjs as [Hi Hjs].
    specialize (IH (statsVisit s acc i) Hjs).
    assert (avgSpeed (statsVisit s acc i)
            = avgSpeed acc + THREE.length (velocities s !!! i)) as E.
    { unfold statsVisit. cbv zeta. rewrite statsPairs_avgSpeed. reflexivity. }
    rewrite E in IH. pose proof (length_nonneg (velocities s !!! i)).
    change (length (i :: js)) with (S (length js)). rewrite S_INR. lra.
Qed.

(** X21.  The average speed reported by [getFlockingStats] for a shoal
    with parallel tracks and at least one fish (with none the quotient is
    0/0) lies between 0 and any bound that holds for the speed of every
    fish. *)
Theorem getFlockingStats_average_speed (s : MyShoal) (limit : R) :
  lockstep s -> (0 < length (fishes s))%nat ->
  (forall i, (i < length (fishes s))%nat ->
             THREE.length (velocities s !!! i) <= limit) ->
  0 <= averageSpeed (getFlockingStats s) <= limit.
Proof.
  intros _ Hn Hlimit. unfold getFlockingStats. cbn [averageSpeed].
  match goal with
  | |- context [fold_left (statsVisit s) ?js ?a] =>
      pose proof (statsLoop_avgSpeed s limit js a) as H
  end.
  rewrite length_seq in H. cbn [avgSpeed] in H.
  set (acc := fold_left _ _ _) in *. clearbody acc.
  assert (0 < INR (length (fishes s))) as Hc by (apply lt_0_INR, Hn).
  destruct H as [H0 H1].
  { apply Forall_forall. intros i Hi%elem_of_seq. apply Hlimit. lia. }
  split.
  - apply Rmult_le_pos; [lra | apply Rlt_le, Rinv_0_lt_compat, Hc].
  - apply Rmult_le_reg_r with (INR (length (fishes s))); [exact Hc|].
    unfold Rdiv. rewrite Rmult_assoc, Rinv_l by lra. lra.
Qed.

Lemma getFlockingStats_average_speed_witness :
  let s := soloShoal defaults None [] THREE.zero THREE.zero in
  0 <= averageSpeed (getFlockingStats s) <= 80.
Proof.
  intros s. apply (getFlockingStats_average_speed s 80).
  - apply soloShoal_lockstep.
  - cbn. lia.
  - intros i Hi. cbn in Hi. assert (i = 0%nat) as -> by lia.
    change (velocities s !!! 0%nat) with THREE.zero. rewrite length_zero. lra.
Defined.

(** ** Scaling the fish *)

Lemma setFishScale_fishes k s :
  fishes (setFishScale k s)
  = map (fun fish => setScale (THREE.orOne (baseSizeScale fish) * k) fish) (fishes s).
Proof. reflexivity. Qed.

(** X22.  [setFishScale] does not compound: every fish gets its base
    size ([baseSizeScale], or 1 where that is 0) times the new factor, so
    a second call replaces the effect of the first.  Positions, base
    sizes and every other track are untouched, and the factor is stored
    in the options. *)
Theorem setFishScale_does_not_compound (k1 k2 : R) (s : MyShoal) :
  setFishScale k2 (setFishScale k1 s) = setFishScale k2 s
  /\ fishScale (options (setFishScale k2 s)) = k2
  /\ map scale (fishes (setFishScale k2 s))
     = map (fun fish => THREE.orOne (baseSizeScale fish) * k2) (fishes s)
  /\ map position (fishes (setFishScale k2 s)) = map position (fishes s)
  /\ map baseSizeScale (fishes (setFishScale k2 s)) = map baseSizeScale (fishes s)
  /\ (velocities (setFishScale k2 s), accelerations (setFishScale k2 s),
      wanderAngles (setFishScale k2 s), panicMode (setFishScale k2 s),
      panicTimer (setFishScale k2 s))
     = (velocities s, accelerations s, wanderAngles s, panicMode s, panicTimer s).
Proof.
  split; [|split; [reflexivity|]].
  - unfold setFishScale. cbn [options fishes set_options set_fishes].
    rewrite map_map. destruct s. cbn. f_equal.
  - rewrite setFishScale_fishes, !map_map. cbn [scale position baseSizeScale setScale].
    repeat split.
Qed.

(** ** The registry of dangerous entities *)

Section RegistryFacts.
Context {Handle : Type} `{EqDecision Handle}.

Lemma addDangerousEntity_elem (e x : Handle) (l : list Handle) :
  x ∈ addDangerousEntity e l <-> x = e \/ x ∈ l.
Proof.
  unfold addDangerousEntity.
  destruct (bool_decide_reflect (e ∈ l)) as [Hin|Hout].
  - split; [tauto|]. intros [->|H]; assumption.
  - rewrite elem_of_app, list_elem_of_singleton. tauto.
Qed.

Lemma addDangerousEntity_NoDup (e : Handle) (l : list Handle) :
  NoDup l -> NoDup (addDangerousEntity e l).
Proof.
  intros Hl. unfold addDangerousEntity.
  destruct (bool_decide_reflect (e ∈ l)) as [Hin|Hout]; [exact Hl|].
  apply NoDup_app. split; [exact Hl|]. split; [|apply NoDup_singleton].
  intros x Hx ->%list_elem_of_singleton. contradiction.
Qed.

Lemma removeDangerousEntity_cons (e x : Handle) (l : list Handle) :
  removeDangerousEntity e (x :: l)
  = if decide (x = e) then l else x :: removeDangerousEntity e l.
Proof.
  unfold removeDangerousEntity. cbn [list_find].
  destruct (decide (x = e)); [reflexivity|].
  destruct (list_find (fun y => y = e) l) as [[i y]|]; reflexivity.
Qed.

Lemma removeDangerousEntity_absent (e : Handle) (l : list Handle) :
  e ∉ l -> removeDangerousEntity e l = l.
Proof.
  induction l as [|x l IH]; intros Hout; [reflexivity|].
  apply not_elem_of_cons in Hout as [Hne Hout].
  rewrite removeDangerousEntity_cons, decide_False by congruence.
  rewrite IH by exact Hout. reflexivity.
Qed.

Lemma removeDangerousEntity_elem (e x : Handle) (l : list Handle) :
  NoDup l -> x ∈ removeDangerousEntity e l <-> x ∈ l /\ x <> e.
Proof.
  induction l as [|y l IH]; intros Hl.
  - cbn. rewrite elem_of_nil. tauto.
  - apply NoDup_cons in Hl as [Hy Hl].
    rewrite removeDangerousEntity_cons. destruct (decide (y = e)) as [->|Hne].
    + rewrite elem_of_cons. split.
      * intros Hx. split; [tauto|]. intros ->. contradiction.
      * intros [[->|Hx] Hne]; [contradiction | exact Hx].
    + rewrite !elem_of_cons, IH by exact Hl. split.
      * intros [->|[Hx Hxe]]; [split; [tauto | exact Hne] | tauto].
      * intros [[->|Hx] Hxe]; tauto.
Qed.

Lemma removeDangerousEntity_NoDup (e : Handle) (l : list Handle) :
  NoDup l -> NoDup (removeDangerousEntity e l).
Proof.
  induction l as [|y l IH]; intros Hl; [exact Hl|].
  pose proof Hl as Hl'. apply NoDup_cons in Hl as [Hy Hl].
  rewrite removeDangerousEntity_cons. destruct (decide (y = e)); [exact Hl|].
  apply NoDup_cons. split; [|apply IH, Hl].
  rewrite removeDangerousEntity_elem by exact Hl. tauto.
Qed.

Lemma removeDangerousEntity_snoc (e : Handle) (l : list Handle) :
  e ∉ l -> removeDangerousEntity e (l ++ [e]) = l.
Proof.
  induction l as [|x l IH]; intros Hout.
  - cbn [app]. rewrite removeDangerousEntity_cons, decide_True by reflexivity.
    reflexivity.
  - apply not_elem_of_cons in Hout as [Hne Hout].
    cbn [app]. rewrite removeDangerousEntity_cons, decide_False by congruence.
    rewrite IH by exact Hout. reflexivity.
Qed.

(** X23.  Registering a threat never lists it twice: in a registry
    without repetitions, [addDangerousEntity e] leaves the registry
    without repetitions, lists [e] afterwards and nothing else that was
    not listed before, changes nothing when [e] is already listed (so
    registering twice is registering once), and otherwise appends [e] at
    the end. *)
Theorem addDangerousEntity_registers_once (e : Handle) (l : list Handle) :
  NoDup l ->
  NoDup (addDangerousEntity e l)
  /\ (forall x, x ∈ addDangerousEntity e l <-> x = e \/ x ∈ l)
  /\ (e ∈ l -> addDangerousEntity e l = l)
  /\ (e ∉ l -> addDangerousEntity e l = l ++ [e])
  /\ addDangerousEntity e (addDangerousEntity e l) = addDangerousEntity e l.
Proof.
  intros Hl. split; [apply addDangerousEntity_NoDup, Hl|].
  split; [intros x; apply addDangerousEntity_elem|].
  assert (forall k : list Handle, e ∈ k -> addDangerousEntity e k = k) as Hin.
  { intros k Hk. unfold addDangerousEntity.
    rewrite bool_decide_eq_true_2 by exact Hk. reflexivity. }
  split; [apply Hin|]. split.
  - intros Hout. unfold addDangerousEntity.
    rewrite bool_decide_eq_false_2 by exact Hout. reflexivity.
  - apply Hin, addDangerousEntity_elem. left. reflexivity.
Qed.

(** X24.  Unregistering undoes registering: [removeDangerousEntity e]
    changes nothing when [e] is not listed; in a registry without
    repetitions it removes [e] and nothing else, keeping the order of the
    others; and removing a threat right after registering it, when it was
    not listed before, gives back the registry as it was. *)
Theorem removeDangerousEntity_undoes_add (e : Handle) (l : list Handle) :
  NoDup l ->
  (e ∉ l -> removeDangerousEntity e l = l)
  /\ NoDup (removeDangerousEntity e l)
  /\ (forall x, x ∈ removeDangerousEntity e l <-> x ∈ l /\ x <> e)
  /\ (e ∉ l -> removeDangerousEntity e (addDangerousEntity e l) = l).
Proof.
  intros Hl. split; [apply removeDangerousEntity_absent|].
  split; [apply removeDangerousEntity_NoDup, Hl|].
  split; [intros x; apply removeDangerousEntity_elem, Hl|].
  intros Hout. unfold addDangerousEntity.
  rewrite bool_decide_eq_false_2 by exact Hout.
  apply removeDangerousEntity_snoc, Hout.
Qed.

End RegistryFacts.

Lemma addDangerousEntity_registers_once_witness :
  NoDup [3; 5]%nat
  /\ addDangerousEntity 5%nat (addDangerousEntity 5%nat [3; 5]%nat)
     = addDangerousEntity 5%nat [3; 5]%nat.
Proof.
  assert (NoDup [3; 5]%nat) as H.
  { apply NoDup_cons. split; [|apply NoDup_singleton].
    intros E%list_elem_of_singleton. discriminate. }
  split; [exact H|]. apply (addDangerousEntity_registers_once 5%nat [3; 5]%nat H).
Defined.

Lemma removeDangerousEntity_undoes_add_witness :
  NoDup [3; 5]%nat /\ NoDup (removeDangerousEntity 3%nat [3; 5]%nat).
Proof.
  assert (NoDup [3; 5]%nat) as H.
  { apply NoDup_cons. split; [|apply NoDup_singleton].
    intros E%list_elem_of_singleton. discriminate. }
  split; [exact H|]. apply (removeDangerousEntity_undoes_add 3%nat [3; 5]%nat H).
Defined.

(** ** The spatial index across ticks *)

Lemma frame_index j s s' :
  frame j s s' ->
  indexState s' = indexState s /\ newMeshBVH s' = newMeshBVH s
  /\ matrixWorld s' = matrixWorld s.
Proof.
  intros []. unfold indexState. repeat split; congruence.
Qed.

Lemma fold_updateFish_index dt a b : forall js s,
  let s' := fold_left (updateFish dt a b) js s in
  indexState s' = indexState s /\ newMeshBVH s' = newMeshBVH s
  /\ matrixWorld s' = matrixWorld s.
Proof.
  induction js as [|j js IH]; intros s; [repeat split|].
  cbv zeta. rewrite fold_left_step.
  destruct (IH (updateFish dt a b s j)) as (-> & -> & ->).
  apply (frame_index j), updateFish_frame.
Qed.

(** The loop over the fish does not touch the index. *)
Lemma update_index delta s : indexState (update delta s) = indexState (bvhTick s).
Proof.
  rewrite update_eq.
  match goal with
  | |- context [fold_left (updateFish ?dt ?a ?b) ?js ?t] =>
      destruct (fold_updateFish_index dt a b js t) as (-> & _)
  end.
  reflexivity.
Qed.

Lemma updateBVHGeometry_index s :
  bvhEnabled (updateBVHGeometry s) = bvhEnabled s
  /\ bvhUpdateFrequency (updateBVHGeometry s) = bvhUpdateFrequency s
  /\ bvhFrameCount (updateBVHGeometry s) = bvhFrameCount s.
Proof.
  unfold updateBVHGeometry.
  destruct (bvhGeometry s); [|repeat split].
  destruct (negb (bvhEnabled s)); [repeat split|].
  destruct (0 <? _)%nat; repeat split.
Qed.

Lemma bvhTick_counter s :
  bvhEnabled (bvhTick s) = bvhEnabled s
  /\ bvhUpdateFrequency (bvhTick s) = bvhUpdateFrequency s
  /\ bvhFrameCount (bvhTick s)
     = if bvhEnabled s then
         if (bvhUpdateFrequency s <=? S (bvhFrameCount s))%nat then 0%nat
         else S (bvhFrameCount s)
       else bvhFrameCount s.
Proof.
  unfold bvhTick. destruct (bvhEnabled s) eqn:He; [|repeat split; exact He].
  cbv zeta. cbn [bvhUpdateFrequency bvhFrameCount set_bvhState].
  destruct (_ <=? _)%nat; [|repeat split; exact He].
  match goal with
  | |- context [updateBVHGeometry ?t] =>
      destruct (updateBVHGeometry_index t) as (H1 & H2 & H3)
  end.
  cbn [bvhEnabled bvhUpdateFrequency bvhFrameCount set_bvhState] in *.
  rewrite H1, H2. repeat split.
Qed.

Lemma update_counter delta s :
  bvhEnabled (update delta s) = bvhEnabled s
  /\ bvhUpdateFrequency (update delta s) = bvhUpdateFrequency s
  /\ bvhFrameCount (update delta s)
     = if bvhEnabled s then
         if (bvhUpdateFrequency s <=? S (bvhFrameCount s))%nat then 0%nat
         else S (bvhFrameCount s)
       else bvhFrameCount s.
Proof.
  pose proof (update_index delta s) as H. unfold indexState in H.
  injection H as -> _ _ -> ->. apply bvhTick_counter.
Qed.

Lemma counter_step f c :
  (1 <= f)%nat -> (c < f)%nat ->
  (if (f <=? S c)%nat then 0%nat else S c) = (S c mod f)%nat.
Proof.
  intros Hf Hc. destruct (Nat.leb_spec f (S c)) as [Hle|Hlt].
  - replace (S c) with f by lia. symmetry. apply Nat.Div0.mod_same.
  - symmetry. apply Nat.mod_small. lia.
Qed.

(** X25.  The index is refreshed on a fixed cadence.  With the index
    enabled, an update frequency of [f >= 1] and a frame counter below
    [f], the counter after [m] ticks is [(counter + m) mod f]: it returns
    to 0, and the index is refreshed, on every [f]-th tick; the index
    stays enabled and the frequency is not changed. *)
Theorem bvh_refresh_cadence (delta : R) (s : MyShoal) (m : nat) :
  bvhEnabled s = true -> (1 <= bvhUpdateFrequency s)%nat ->
  (bvhFrameCount s < bvhUpdateFrequency s)%nat ->
  bvhEnabled (ticks m delta s) = true
  /\ bvhUpdateFrequency (ticks m delta s) = bvhUpdateFrequency s
  /\ bvhFrameCount (ticks m delta s)
     = ((bvhFrameCount s + m) mod bvhUpdateFrequency s)%nat.
Proof.
  intros He Hf Hc. unfold ticks. induction m as [|m (IHe & IHf & IHc)].
  - cbn [Nat.iter]. rewrite Nat.add_0_r, Nat.mod_small by exact Hc. repeat split.
    exact He.
  - rewrite Nat.iter_succ.
    destruct (update_counter delta (Nat.iter m (update delta) s)) as (H1 & H2 & H3).
    rewrite H1, H2, H3, IHe, IHf, IHc. split; [reflexivity|]. split; [reflexivity|].
    rewrite counter_step.
    + replace (bvhFrameCount s + S m)%nat with (bvhFrameCount s + m + 1)%nat by lia.
      replace (S ((bvhFrameCount s + m) mod bvhUpdateFrequency s))
        with ((bvhFrameCount s + m) mod bvhUpdateFrequency s + 1)%nat by lia.
      apply Nat.Div0.add_mod_idemp_l.
    + exact Hf.
    + apply Nat.mod_upper_bound. lia.
Qed.

Lemma bvh_refresh_cadence_witness :
  let s := indexedShoal defaults THREE.zero (Vec3 3 0 0) in
  bvhFrameCount (ticks 23 0.1 s) = ((0 + 23) mod 10)%nat.
Proof.
  intros s. apply (bvh_refresh_cadence 0.1 s 23); [reflexivity | cbn; lia | cbn; lia].
Defined.

Lemma bvhTick_refresh s g :
  bvhEnabled s = true -> bvhGeometry s = Some g -> fishes s <> [] ->
  (bvhUpdateFrequency s <= S (bvhFrameCount s))%nat ->
  indexState (bvhTick s)
  = (true, Some (newMeshBVH s (map (getWorldPosition s) (fishes s))),
     Some (map (getWorldPosition s) (fishes s)), 0%nat, bvhUpdateFrequency s).
Proof.
  intros He Hg Hne Hdue. unfold bvhTick. rewrite He. cbv zeta.
  cbn [bvhUpdateFrequency bvhFrameCount set_bvhState].
  destruct (Nat.leb_spec (bvhUpdateFrequency s) (S (bvhFrameCount s))) as [_|]; [|lia].
  unfold updateBVHGeometry. cbn [bvhGeometry bvhEnabled set_bvhState]. rewrite Hg.
  cbn [negb fishes set_bvhState]. rewrite length_map.
  destruct (fishes s) as [|fish rest] eqn:Hf; [contradiction|].
  cbn [length Nat.ltb Nat.leb]. unfold indexState, getWorldPosition. cbn.
  rewrite ?He. reflexivity.
Qed.

Lemma bvhTick_waiting s :
  bvhEnabled s = true ->
  (S (bvhFrameCount s) < bvhUpdateFrequency s)%nat ->
  indexState (bvhTick s)
  = (true, bvh s, bvhGeometry s, S (bvhFrameCount s), bvhUpdateFrequency s).
Proof.
  intros He Hwait. unfold bvhTick. rewrite He. cbv zeta.
  cbn [bvhUpdateFrequency bvhFrameCount set_bvhState].
  destruct (Nat.leb_spec (bvhUpdateFrequency s) (S (bvhFrameCount s))) as [|_]; [lia|].
  reflexivity.
Qed.

(** X26.  A refresh uses the positions the fish had before the tick:
    when the index is enabled with its geometry in place, the shoal is
    not empty and the refresh is due ([frequency <= counter + 1]), the
    index [update] leaves behind is built from the world positions of the
    fish as they were when [update] was called -- the fish move after the
    refresh, so a fresh index is already one tick old -- and the counter
    is 0.  When the refresh is not due, the index is left as it is and the
    counter goes up by one. *)
Theorem update_refreshes_index_before_moving (delta : R) (s : MyShoal)
    (g : list Vector3) :
  bvhEnabled s = true -> bvhGeometry s = Some g -> fishes s <> [] ->
  ((bvhUpdateFrequency s <= S (bvhFrameCount s))%nat ->
   bvh (update delta s)
   = Some (newMeshBVH s (map (getWorldPosition s) (fishes s)))
   /\ bvhGeometry (update delta s) = Some (map (getWorldPosition s) (fishes s))
   /\ bvhFrameCount (update delta s) = 0%nat)
  /\ ((S (bvhFrameCount s) < bvhUpdateFrequency s)%nat ->
      bvh (update delta s) = bvh s
      /\ bvhGeometry (update delta s) = bvhGeometry s
      /\ bvhFrameCount (update delta s) = S (bvhFrameCount s)).
Proof.
  intros He Hg Hne. pose proof (update_index delta s) as H. split.
  - intros Hdue. rewrite (bvhTick_refresh s g He Hg Hne Hdue) in H.
    unfold indexState in H. injection H as _ -> -> -> _. repeat split.
  - intros Hwait. rewrite (bvhTick_waiting s He Hwait) in H.
    unfold indexState in H. injection H as _ -> -> -> _. repeat split.
Qed.

Lemma update_refreshes_index_before_moving_witness :
  let s := indexedShoal defaults THREE.zero (Vec3 3 0 0) in
  bvh (update 0.1 s) = bvh s /\ bvhFrameCount (update 0.1 s) = 1%nat.
Proof.
  intros s.
  destruct (update_refreshes_index_before_moving 0.1 s
              [THREE.zero; Vec3 3 0 0] eq_refl eq_refl) as [_ H].
  - discriminate.
  - destruct H as (H1 & _ & H3); [cbn; lia|]. split; [exact H1 | exact H3].
Defined.

(** ** Switching the index *)

(** [initBVH] up to the call of [new MeshBVH]. *)
Lemma initBVH_eq s :
  initBVH s
  = let s := set_rng (advance (rng s) 4) s in
    let s := set_bvhState (bvhEnabled s) (bvh s) (Some []) (bvhFrameCount s) s in
    let s := updateBVHGeometry s in
    match bvhGeometry s with
    | Some (p :: ps) =>
        Returns (set_bvhState (bvhEnabled s) (Some (newMeshBVH s (p :: ps)))
                              (bvhGeometry s) (bvhFrameCount s) s)
    | _ => Throws s
    end.
Proof.
  unfold initBVH, random. cbn [draws cursor].
  replace {| draws := draws (rng s); cursor := S (S (S (S (cursor (rng s))))) |}
    with (advance (rng s) 4); [reflexivity|].
  unfold advance. f_equal. lia.
Qed.

Lemma toggleBVH_off s : toggleBVH false s = Returns (indexOff s).
Proof. reflexivity. Qed.

Lemma toggleBVH_kept s :
  is_Some (bvh s) ->
  toggleBVH true s
  = Returns (set_bvhState true (bvh s) (bvhGeometry s) (bvhFrameCount s) s).
Proof.
  intros Hb. unfold toggleBVH. cbn [andb negb bvh set_bvhState].
  rewrite bool_decide_eq_true_2 by exact Hb. reflexivity.
Qed.

Lemma toggleBVH_built s :
  bvh s = None -> fishes s <> [] ->
  toggleBVH true s
  = Returns (set_bvhState true
               (Some (newMeshBVH s (map (getWorldPosition s) (fishes s))))
               (Some (map (getWorldPosition s) (fishes s)))
               (bvhFrameCount s) (set_rng (advance (rng s) 4) s)).
Proof.
  intros Hb Hne. unfold toggleBVH. cbn [andb negb bvh set_bvhState].
  rewrite Hb, bool_decide_eq_false_2 by (intros [? ?]; discriminate). cbn [negb].
  rewrite initBVH_eq. cbv zeta. unfold updateBVHGeometry.
  cbn [bvhGeometry bvhEnabled bvh bvhFrameCount fishes negb set_bvhState set_rng].
  rewrite length_map.
  destruct (fishes s) as [|fish rest] eqn:Hf; [contradiction|].
  cbn [length Nat.ltb Nat.leb]. unfold getWorldPosition. cbn. reflexivity.
Qed.

Lemma toggleBVH_thrown s :
  bvh s = None -> fishes s = [] ->
  toggleBVH true s
  = Throws (set_bvhState true None (Some []) (bvhFrameCount s)
              (set_rng (advance (rng s) 4) s)).
Proof.
  intros Hb Hempty. unfold toggleBVH. cbn [andb negb bvh set_bvhState].
  rewrite Hb, bool_decide_eq_false_2 by (intros [? ?]; discriminate). cbn [negb].
  rewrite initBVH_eq. cbv zeta. unfold updateBVHGeometry.
  cbn [bvhGeometry bvhEnabled bvh bvhFrameCount fishes negb set_bvhState set_rng].
  rewrite Hempty. cbn. rewrite ?Hb. reflexivity.
Qed.

(** X27.  How switching the index ends.  [toggleBVH false] always
    returns: the index and its geometry are dropped and nothing else
    changes.  [toggleBVH true] with an index in place only sets the flag.
    Without an index it creates a geometry, which takes four random
    draws, and then, for a shoal with at least one fish, returns with an
    index built from the current world positions of the fish; for a shoal
    without fish it throws, leaving the flag set, an empty geometry and no
    index.  The options, the collaborators and the per-fish tracks are
    never touched, and repeating a call that returned changes nothing. *)
Theorem toggleBVH_outcomes (s : MyShoal) :
  let positions := map (getWorldPosition s) (fishes s) in
  let drawn := set_rng (advance (rng s) 4) s in
  toggleBVH false s = Returns (indexOff s)
  /\ (is_Some (bvh s) ->
      toggleBVH true s
      = Returns (set_bvhState true (bvh s) (bvhGeometry s) (bvhFrameCount s) s))
  /\ (bvh s = None -> fishes s <> [] ->
      toggleBVH true s
      = Returns (set_bvhState true (Some (newMeshBVH s positions)) (Some positions)
                   (bvhFrameCount s) drawn))
  /\ (bvh s = None -> fishes s = [] ->
      toggleBVH true s
      = Throws (set_bvhState true None (Some []) (bvhFrameCount s) drawn))
  /\ (forall enabled s',
        toggleBVH enabled s = Returns s' -> toggleBVH enabled s' = Returns s').
Proof.
  intros positions drawn.
  split; [apply toggleBVH_off|]. split; [apply toggleBVH_kept|].
  split; [apply toggleBVH_built|]. split; [apply toggleBVH_thrown|].
  intros [] s'.
  - destruct (bvh s) as [b|] eqn:Hb.
    + rewrite toggleBVH_kept by (rewrite Hb; eexists; reflexivity).
      intros [= <-]. rewrite toggleBVH_kept; [reflexivity|].
      cbn [bvh set_bvhState]. rewrite Hb. eexists. reflexivity.
    + destruct (fishes s) as [|fish rest] eqn:Hf.
      * rewrite toggleBVH_thrown by assumption. discriminate.
      * rewrite toggleBVH_built by (rewrite ?Hf; first [assumption | discriminate]).
        intros [= <-]. rewrite toggleBVH_kept; [reflexivity|].
        eexists. reflexivity.
  - rewrite toggleBVH_off. intros [= <-]. rewrite toggleBVH_off. reflexivity.
Qed.

Lemma toggleBVH_outcomes_witness :
  toggleBVH true (emptyShoal defaults)
  = Throws (set_bvhState true None (Some []) 0
              (set_rng (advance (rng (emptyShoal defaults)) 4) (emptyShoal defaults)))
  /\ toggleBVH true (pairShoal defaults THREE.zero (Vec3 3 0 0))
     = Returns (set_rng (advance (rng (pairShoal defaults THREE.zero (Vec3 3 0 0))) 4)
                  (indexedShoal defaults THREE.zero (Vec3 3 0 0))).
Proof.
  split.
  - apply (toggleBVH_outcomes (emptyShoal defaults)); reflexivity.
  - destruct (toggleBVH_outcomes (pairShoal defaults THREE.zero (Vec3 3 0 0)))
      as (_ & _ & H & _).
    rewrite H; [reflexivity | reflexivity | discriminate].
Defined.

(** ** The size of the flocking force *)

Lemma sqrt_sqr_nonneg t : 0 <= t -> sqrt (t * t) = t.
Proof. intros H. apply sqrt_square, H. Qed.

(** The triangle inequality. *)
Lemma length_add_le a b :
  THREE.length (THREE.add a b) <= THREE.length a + THREE.length b.
Proof.
  destruct a as [a1 a2 a3], b as [b1 b2 b3].
  unfold THREE.length, THREE.lengthSq, THREE.add. cbn [THREE.x THREE.y THREE.z].
  set (A := a1 * a1 + a2 * a2 + a3 * a3).
  set (B := b1 * b1 + b2 * b2 + b3 * b3).
  assert (0 <= A) as HA by (unfold A; nra).
  assert (0 <= B) as HB by (unfold B; nra).
  pose proof (sqrt_pos A) as HlA. pose proof (sqrt_pos B) as HlB.
  pose proof (sqrt_sqrt A HA) as HsA. pose proof (sqrt_sqrt B HB) as HsB.
  set (la := sqrt A) in *. set (lb := sqrt B) in *.
  set (dot := a1 * b1 + a2 * b2 + a3 * b3).
  assert (dot * dot <= A * B) as HCS.
  { assert (A * B - dot * dot
            = (a1 * b2 - a2 * b1) * (a1 * b2 - a2 * b1)
              + (a1 * b3 - a3 * b1) * (a1 * b3 - a3 * b1)
              + (a2 * b3 - a3 * b2) * (a2 * b3 - a3 * b2)) as E
      by (unfold A, B, dot; ring).
    assert (0 <= A * B - dot * dot); [|lra].
    rewrite E. repeat apply Rplus_le_le_0_compat; apply Rle_0_sqr. }
  assert (dot <= la * lb) as Hdot.
  { destruct (Rle_dec dot 0) as [Hneg|Hpos]; [nra|].
    apply Rsqr_incr_0_var; [|nra]. unfold Rsqr.
    replace (la * lb * (la * lb)) with ((la * la) * (lb * lb)) by ring.
    rewrite HsA, HsB. exact HCS. }
  rewrite <- (sqrt_sqr_nonneg (la + lb)) by lra.
  apply sqrt_le_1_alt.
  replace ((a1 + b1) * (a1 + b1) + (a2 + b2) * (a2 + b2) + (a3 + b3) * (a3 + b3))
    with (A + B + 2 * dot) by (unfold A, B, dot; ring).
  replace ((la + lb) * (la + lb)) with (la * la + lb * lb + 2 * (la * lb)) by ring.
  rewrite HsA, HsB. lra.
Qed.

(** The boundary part of [flock], for a fish inside the box. *)
Lemma flockBounds_length o p v :
  0 < boundsMargin o -> 0 <= boundsWeight o ->
  - (areaSize o * 0.5) <= THREE.x p <= areaSize o * 0.5 ->
  - (height o * 0.5) <= THREE.y p <= height o * 0.5 ->
  - (areaSize o * 0.5) <= THREE.z p <= areaSize o * 0.5 ->
  THREE.length (flockBounds o p v) <= 2 * boundsWeight o.
Proof.
  intros Hm Hw Hx Hy Hz. unfold flockBounds. cbv zeta.
  set (m := boundsMargin o) in *.
  set (dl := THREE.x p + areaSize o * 0.5). set (dr := areaSize o * 0.5 - THREE.x p).
  set (db := THREE.y p + height o * 0.5). set (dt := height o * 0.5 - THREE.y p).
  set (df := THREE.z p + areaSize o * 0.5). set (dk := areaSize o * 0.5 - THREE.z p).
  set (closest := Rmin (Rmin (Rmin dl dr) (Rmin db dt)) (Rmin df dk)).
  assert (0 <= closest /\ closest <= dl /\ closest <= dr /\ closest <= db
          /\ closest <= dt /\ closest <= df /\ closest <= dk) as (H0 & H1 & H2 & H3 & H4 & H5 & H6).
  { unfold closest, dl, dr, db, dt, df, dk, Rmin.
    repeat destruct (Rle_dec _ _); repeat split; lra. }
  clearbody closest.
  destruct (Rle_dec m closest) as [Hfar|Hnear].
  - rewrite (Rltb_false dl m), (Rltb_false dr m), (Rltb_false db m),
      (Rltb_false dt m), (Rltb_false df m), (Rltb_false dk m) by lra.
    unfold THREE.lengthSq. cbn [THREE.x THREE.y THREE.z].
    rewrite Rltb_false by lra. rewrite length_zero. lra.
  - destruct (Rltb 0 _); [|rewrite length_zero; lra].
    assert (0 <= closest / m < 1) as [Hq0 Hq1].
    { split.
      - apply Rmult_le_pos; [exact H0 | apply Rlt_le, Rinv_0_lt_compat, Hm].
      - apply Rmult_lt_reg_r with m; [exact Hm|]. unfold Rdiv.
        rewrite Rmult_assoc, Rinv_l by lra. lra. }
    eapply Rle_trans; [apply length_clampLength; nra | nra].
Qed.

Lemma flock_length s i :
  0 <= alignmentWeight (options s) -> 0 <= cohesionWeight (options s) ->
  0 <= separationWeight (options s) ->
  THREE.length (flock s i)
  <= alignmentWeight (options s) + cohesionWeight (options s)
     + separationWeight (options s)
     + THREE.length (flockBounds (options s) (position (fishes s !!! i))
                       (velocities s !!! i)).
Proof.
  intros Ha Hc Hs. unfold flock. cbv zeta.
  eapply Rle_trans; [apply length_add_le|].
  apply Rplus_le_compat_r.
  destruct (0 <? _)%nat.
  - eapply Rle_trans; [apply length_add_le|].
    apply Rplus_le_compat; [|apply length_clampLength, Hs].
    eapply Rle_trans; [apply length_add_le|].
    apply Rplus_le_compat; [|apply length_clampLength, Hc].
    rewrite add_zero_l. apply length_clampLength, Ha.
  - rewrite length_zero. lra.
Qed.

(** X28.  The flocking force is bounded by its weights.  For
    non-negative alignment, cohesion, separation and boundary weights and
    a positive boundary margin, the force [flock] returns for a fish
    inside the box is never longer than
    [alignmentWeight + cohesionWeight + separationWeight + 2 * boundsWeight],
    however many neighbours the fish has and wherever they are; for a fish
    that is also at least the margin away from every wall the boundary
    part vanishes and the bound is the sum of the first three. *)
Theorem flock_force_bounded_by_weights (s : MyShoal) (i : nat) :
  0 <= alignmentWeight (options s) -> 0 <= cohesionWeight (options s) ->
  0 <= separationWeight (options s) -> 0 <= boundsWeight (options s) ->
  0 < boundsMargin (options s) -> insideBox s i ->
  THREE.length (flock s i)
  <= alignmentWeight (options s) + cohesionWeight (options s)
     + separationWeight (options s) + 2 * boundsWeight (options s)
  /\ (clearOfWalls s i ->
      THREE.length (flock s i)
      <= alignmentWeight (options s) + cohesionWeight (options s)
         + separationWeight (options s)).
Proof.
  intros Ha Hc Hs Hb Hm (Hx & Hy & Hz).
  pose proof (flock_length s i Ha Hc Hs) as H. split.
  - pose proof (flockBounds_length (options s) (position (fishes s !!! i))
                  (velocities s !!! i) Hm Hb Hx Hy Hz). lra.
  - intros (H1 & H2 & H3 & H4 & H5 & H6).
    rewrite flockBounds_clear, length_zero in H by assumption. lra.
Qed.

Lemma flock_force_bounded_by_weights_witness :
  THREE.length (flock edgeShoal 0) <= 3 + 1 + 3 + 2 * 5.
Proof.
  assert (THREE.length (flock edgeShoal 0)
          <= alignmentWeight (options edgeShoal) + cohesionWeight (options edgeShoal)
             + separationWeight (options edgeShoal)
             + 2 * boundsWeight (options edgeShoal)) as H.
  { apply (flock_force_bounded_by_weights edgeShoal 0); try (cbn; lra).
    unfold insideBox; cbn. lra. }
  cbn in H. lra.
Defined.

(** ** Setting off panic *)

Lemma alarming_panicTrigger o fishPos es :
  Exists (alarming o fishPos) es -> existsb (panicTrigger o fishPos) es = true.
Proof.
  intros H. apply existsb_exists. apply Exists_exists in H as (e & Hin & Hv & HDet & Hhalf).
  exists e. split; [apply list_elem_of_In, Hin|].
  unfold panicTrigger. rewrite Hv.
  pose proof (distanceTo_nonneg fishPos (worldPosition e)).
  rewrite !Rltb_true by lra. reflexivity.
Qed.

(** X29.  A close threat sets off panic for the full duration: if, when
    [update] is called, some registered threat is visible, closer to fish
    [i] than the detection distance and closer than half the evasion
    distance, then after the tick the fish panics and its panic timer is
    [panicDuration], whatever its panic state was before and whatever the
    other threats are. *)
Theorem update_close_threat_sets_panic (delta : R) (s : MyShoal) (i : nat) :
  lockstep s -> (i < length (fishes s))%nat ->
  Exists (alarming (options s) (getWorldPosition s (fishes s !!! i)))
         (dangerousEntities s) ->
  panicMode (update delta s) !!! i = true
  /\ panicTimer (update delta s) !!! i = panicDuration (options s).
Proof.
  intros Hlock Hi Hclose.
  pose proof (update_panic_trigger delta s i Hlock Hi) as H.
  unfold panicTriggered in H. rewrite (alarming_panicTrigger _ _ _ Hclose) in H.
  specialize (H eq_refl). unfold panicOf in H. injection H as -> ->.
  split; reflexivity.
Qed.

Lemma update_close_threat_sets_panic_witness :
  panicMode (update 0.1 scaredShoal) !!! 0%nat = true
  /\ panicTimer (update 0.1 scaredShoal) !!! 0%nat = panicDuration (options scaredShoal).
Proof.
  apply (update_close_threat_sets_panic 0.1 scaredShoal 0).
  - apply soloShoal_lockstep.
  - cbn. lia.
  - constructor. unfold alarming. rewrite scaredShoal_distance.
    split; [reflexivity|]. cbn. lra.
Defined.

(** ** The size of the evasion force *)

(** As long as nothing is detected nothing is added to the force. *)
Lemma dangerVisit_undetected o j fishPos acc e :
  (dangerDetected acc = false -> steer acc = THREE.zero) ->
  dangerDetected (dangerVisit o j fishPos acc e) = false ->
  steer (dangerVisit o j fishPos acc e) = THREE.zero.
Proof.
  intros Hacc. unfold dangerVisit.
  destruct (negb (visible e)); [exact Hacc|].
  destruct (Rltb _ (dangerDetectionDistance o)); [|exact Hacc].
  destruct (Rltb _ (dangerEvasionDistance o)); cbn; discriminate.
Qed.

Lemma dangerLoop_undetected o j fishPos es : forall acc,
  (dangerDetected acc = false -> steer acc = THREE.zero) ->
  dangerDetected (fold_left (dangerVisit o j fishPos) es acc) = false ->
  steer (fold_left (dangerVisit o j fishPos) es acc) = THREE.zero.
Proof.
  induction es as [|e es IH]; intros acc Hacc; [exact Hacc|].
  rewrite fold_left_step. apply IH, dangerVisit_undetected, Hacc.
Qed.

(** X30.  The evasion force is capped however many threats there are:
    for non-negative [maxForce], [dangerEvasionWeight] and
    [panicSpeedMultiplier], the force [dangerEvasion] returns is never
    longer than [maxForce * dangerEvasionWeight * m], with [m] the panic
    speed multiplier if the fish panics when the call returns and 1.5
    otherwise. *)
Theorem dangerEvasion_force_capped (s : MyShoal) (i : nat) :
  0 <= maxForce (options s) -> 0 <= dangerEvasionWeight (options s) ->
  0 <= panicSpeedMultiplier (options s) ->
  THREE.length (fst (dangerEvasion s i))
  <= maxForce (options s) * dangerEvasionWeight (options s)
     * (if (panicMode (snd (dangerEvasion s i)) !!! i : bool)
        then panicSpeedMultiplier (options s) else 1.5).
Proof.
  intros Hf Hw Hp. unfold dangerEvasion.
  match goal with
  | |- context [fold_left ?f ?es ?a] =>
      pose proof (dangerLoop_undetected (options s) i
                    (getWorldPosition s (fishes s !!! i)) es a (fun _ => eq_refl))
        as Hquiet;
      set (acc := fold_left f es a) in *
  end.
  clearbody acc. cbv zeta.
  set (s' := set_panicTimer (accPanicTimer acc) (set_panicMode (accPanicMode acc) s)).
  set (cap := maxForce (options s) * dangerEvasionWeight (options s)
              * (if (panicMode s' !!! i : bool)
                 then panicSpeedMultiplier (options s) else 1.5)).
  assert (0 <= cap) as Hcap.
  { unfold cap. apply Rmult_le_pos; [apply Rmult_le_pos; assumption|].
    destruct (panicMode s' !!! i : bool); lra. }
  destruct (dangerDetected acc).
  - match goal with
    | |- context [Rltb 0 (THREE.length ?v)] =>
        set (steer_ := v); destruct (Rltb 0 (THREE.length steer_)) eqn:Hpos
    end; cbn [fst snd]; fold s' cap.
    + apply length_clampLength, Hcap.
    + apply Rltb_false_inv in Hpos. lra.
  - cbn [fst snd]. fold s' cap. rewrite Hquiet by reflexivity.
    rewrite length_zero. exact Hcap.
Qed.

Lemma dangerEvasion_force_capped_witness :
  THREE.length (fst (dangerEvasion scaredShoal 0))
  <= maxForce (options scaredShoal) * dangerEvasionWeight (options scaredShoal)
     * (if (panicMode (snd (dangerEvasion scaredShoal 0)) !!! 0%nat : bool)
        then panicSpeedMultiplier (options scaredShoal) else 1.5).
Proof.
  apply (dangerEvasion_force_capped scaredShoal 0); cbn; lra.
Defined.

(** * The tick, fish by fish *)

(** ** The shoal when the loop reaches a fish *)

Lemma update_from_reached delta s i :
  (i < length (fishes s))%nat ->
  update delta s
  = fold_left (updateFish (Rmin delta 0.1) (areaSize (options s) * 0.5)
                 (height (options s) * 0.5))
      (seq (S i) (length (fishes s) - S i))
      (updateFish (Rmin delta 0.1) (areaSize (options s) * 0.5)
         (height (options s) * 0.5) (reached delta s i) i).
Proof.
  intros Hi. rewrite update_eq.
  pose proof (bvhTick_keeps i s) as Hk.
  rewrite (keeps_options _ _ _ Hk), (keeps_length_fishes _ _ _ Hk).
  rewrite (fold_updateFish_split _ _ _ _ i) by exact Hi. reflexivity.
Qed.

(** The fish from [i] on have not been touched yet. *)
Lemma reached_keeps delta s i j : (i <= j)%nat -> keeps j s (reached delta s i).
Proof.
  intros Hij. unfold reached. eapply keeps_trans; [apply bvhTick_keeps|].
  apply fold_updateFish_keeps. intros Hin%elem_of_seq. lia.
Qed.

(** The fish before [i] are already as [update] leaves them. *)
Lemma reached_done delta s i j :
  (i < length (fishes s))%nat -> (j < i)%nat ->
  keeps j (reached delta s i) (update delta s).
Proof.
  intros Hi Hj. rewrite (update_from_reached delta s i Hi).
  apply (keeps_trans _ _
           (updateFish (Rmin delta 0.1) (areaSize (options s) * 0.5)
              (height (options s) * 0.5) (reached delta s i) i)).
  - apply frame_keeps with (j := i); [apply updateFish_frame | lia].
  - apply fold_updateFish_keeps. intros Hin%elem_of_seq. lia.
Qed.

Lemma reached_config delta s i :
  options (reached delta s i) = options s
  /\ terrain (reached delta s i) = terrain s
  /\ temple (reached delta s i) = temple s
  /\ dangerousEntities (reached delta s i) = dangerousEntities s
  /\ matrixWorld (reached delta s i) = matrixWorld s.
Proof.
  unfold reached.
  match goal with
  | |- context [fold_left (updateFish ?dt ?a ?b) ?js ?t] =>
      destruct (fold_updateFish_config dt a b js t) as (-> & -> & -> & ->);
      destruct (fold_updateFish_index dt a b js t) as (_ & _ & ->)
  end.
  destruct (bvhTick_simulation s) as (Hsim & -> & _).
  unfold simulation in Hsim. injection Hsim as -> -> -> -> _ _ _ _ _ _ _ _.
  repeat split.
Qed.

Lemma update_at_reached delta s i :
  lockstep s -> (i < length (fishes s))%nat ->
  inRange (reached delta s i) i
  /\ agentAt (update delta s) i
     = agentSoftBoundary (areaSize (options s) * 0.5) (height (options s) * 0.5)
         (agentGentleBoundary (areaSize (options s) * 0.5) (height (options s) * 0.5)
            (agentAt (integrateFish (Rmin delta 0.1) (reached delta s i) i) i)).
Proof.
  intros Hlock Hi.
  pose proof (keeps_inRange _ _ _ _ (reached_keeps delta s i i (le_n i))
                (lockstep_inRange _ _ Hlock Hi)) as Rsi.
  split; [exact Rsi|].
  rewrite (update_from_reached delta s i Hi).
  set (si := reached delta s i) in *. clearbody si.
  match goal with
  | |- agentAt (fold_left ?f ?js ?t) i = _ =>
      assert (keeps i t (fold_left f js t)) as Hfinal
  end.
  { apply fold_updateFish_keeps. intros Hin%elem_of_seq. lia. }
  rewrite (keeps_agentAt _ _ _ Hfinal). apply updateFish_agent, Rsi.
Qed.

(** The forces of step 3, one by one. *)
Lemma calculateForces_steps s i :
  calculateForces s i
  = ({| flockForce := flock s i;
        wanderForce := fst (wander s i);
        terrainForce := avoidTerrain (snd (wander s i)) i;
        templeForce := fst (avoidTemple (snd (wander s i)) i);
        dangerForce :=
          fst (dangerEvasion (snd (avoidTemple (snd (wander s i)) i)) i) |},
     snd (dangerEvasion (snd (avoidTemple (snd (wander s i)) i)) i)).
Proof.
  unfold calculateForces.
  destruct (wander s i) as [wf s1]. cbn [fst snd].
  destruct (avoidTemple s1 i) as [tf s2]. cbn [fst snd].
  destruct (dangerEvasion s2 i) as [df s3]. reflexivity.
Qed.

(** Steps 1 to 9 on the fish they update, from the shoal the loop has
    reached. *)
Lemma integrated_agent delta s i :
  lockstep s -> (i < length (fishes s))%nat ->
  0 <= maxSpeed (options s) -> 0 <= panicSpeedMultiplier (options s) ->
  let si := reached delta s i in
  let a9 := agentAt (integrateFish (Rmin delta 0.1) si i) i in
  agentAt si i = agentAt s i
  /\ THREE.length (aVelocity a9) <= speedLimit (options s) (aPanic a9)
  /\ aPosition a9
     = THREE.add (aPosition (agentAt s i))
         (THREE.multiplyScalar (aVelocity a9) (Rmin delta 0.1))
  /\ agentAt (update delta s) i
     = agentSoftBoundary (areaSize (options s) * 0.5) (height (options s) * 0.5)
         (agentGentleBoundary (areaSize (options s) * 0.5) (height (options s) * 0.5)
            a9)
  /\ aPanic (agentAt (update delta s) i) = aPanic a9.
Proof.
  intros Hlock Hi Hs Hp si a9.
  destruct (update_at_reached delta s i Hlock Hi) as [Rsi Hfinal].
  pose proof (keeps_agentAt _ _ _ (reached_keeps delta s i i (le_n i))) as Asi.
  destruct (reached_config delta s i) as (Osi & _).
  fold si in Rsi, Hfinal, Asi, Osi. fold a9 in Hfinal.
  split; [exact Asi|].
  destruct (integrateFish_agent (Rmin delta 0.1) si i Rsi) as [A2 A9].
  pose proof (calculateForces_writes (updatePanicState (resetAcceleration si i) i) i)
    as (Hf & _ & _).
  fold a9 in A9. rewrite Osi, Asi in *.
  set (s2 := updatePanicState (resetAcceleration si i) i) in *.
  set (f := fst (calculateForces s2 i)) in *.
  set (s5 := snd (calculateForces s2 i)) in *.
  assert (aPosition (agentAt s5 i) = aPosition (agentAt s i)) as Hpos.
  { cbn [agentAt aPosition]. rewrite Hf.
    change (position (fishes s2 !!! i)) with (aPosition (agentAt s2 i)).
    rewrite A2. reflexivity. }
  clearbody s2 f s5. clearbody a9. clearbody si.
  set (a7 := spec_integrateVelocity (Rmin delta 0.1)
               (setAcceleration (spec_acceleration (options s) f) (agentAt s5 i))) in *.
  destruct (spec_clampSpeed_bound (options s) a7 Hs Hp) as (Hbound & Hpanic & Hp8).
  assert (aPosition a7 = aPosition (agentAt s i)) as Hp7 by exact Hpos.
  split; [rewrite A9; exact Hbound|].
  split; [rewrite A9; cbn [spec_integratePosition setAgentPosition aPosition aVelocity];
          rewrite Hp8, Hp7; reflexivity|].
  split; [exact Hfinal|].
  rewrite Hfinal. reflexivity.
Qed.

(** ** The speed limit, as amended *)

(** C1 (as amended).  For a shoal with parallel tracks whose divisors
    are not zero (boundary and terrain margins, temple box) and whose
    [maxSpeed] and [panicSpeedMultiplier] are not negative, every agent
    and every tick: right after the speed clamp (steps 1 to 9 of the
    tick, run on the shoal the loop has reached; agent [a9]) the speed is
    at most [maxSpeed], or [maxSpeed * panicSpeedMultiplier] while
    panicking, whatever the forces were, and this is the velocity that
    moved the agent during the tick.  The boundary steps that follow
    change velocity components without clamping again. *)
Theorem C1_speed_limited_when_integrated (delta : R) (s : MyShoal) (i : nat) :
  lockstep s -> (i < length (fishes s))%nat -> finiteTick s ->
  let dt := Rmin delta 0.1 in
  let halfArea := areaSize (options s) * 0.5 in
  let halfHeight := height (options s) * 0.5 in
  let si := reached delta s i in
  let a9 := agentAt (integrateFish dt si i) i in
  agentAt si i = agentAt s i
  /\ THREE.length (aVelocity a9) <= speedLimit (options s) (aPanic a9)
  /\ aPosition a9
     = THREE.add (aPosition (agentAt s i)) (THREE.multiplyScalar (aVelocity a9) dt)
  /\ agentAt (update delta s) i
     = agentSoftBoundary halfArea halfHeight
         (agentGentleBoundary halfArea halfHeight a9)
  /\ aPanic (agentAt (update delta s) i) = aPanic a9.
Proof.
  intros Hlock Hi (_ & _ & Hs & Hp & _) dt halfArea halfHeight si a9.
  exact (integrated_agent delta s i Hlock Hi Hs Hp).
Qed.

Lemma soloShoal_finiteTick t es p v :
  finiteTick (soloShoal defaults t es p v)
  /\ finiteTick (soloShoal calmOptions t es p v).
Proof. unfold finiteTick; cbn. repeat split; lra. Qed.

Lemma C1_speed_limited_when_integrated_witness :
  let s := edgeShoal in
  let delta := 0.1 in
  let i := 0%nat in
  let a9 := agentAt (integrateFish (Rmin delta 0.1) (reached delta s i) i) i in
  lockstep s /\ (i < length (fishes s))%nat /\ finiteTick s
  /\ THREE.length (aVelocity a9) <= speedLimit (options s) (aPanic a9).
Proof.
  intros s delta i a9.
  assert (lockstep s) as Hlock by apply soloShoal_lockstep.
  assert (i < length (fishes s))%nat as Hi by (cbn; lia).
  assert (finiteTick s) as Hfin by apply soloShoal_finiteTick.
  split; [exact Hlock|]. split; [exact Hi|]. split; [exact Hfin|].
  apply (C1_speed_limited_when_integrated delta s i Hlock Hi Hfin).
Defined.

(** ** The box, as amended *)

Lemma position_agentAt s i : position (fishes s !!! i) = aPosition (agentAt s i).
Proof. reflexivity. Qed.

Lemma abs_x_le_length v : Rabs (THREE.x v) <= THREE.length v.
Proof.
  destruct v as [a b c]. unfold THREE.length, THREE.lengthSq. cbn [THREE.x THREE.y THREE.z].
  rewrite <- (sqrt_sqr_abs a). apply sqrt_le_1_alt. nra.
Qed.

Lemma speedLimit_le o panic :
  0 <= maxSpeed o -> 0 <= panicSpeedMultiplier o ->
  0 <= speedLimit o panic <= Rmax (maxSpeed o) (maxSpeed o * panicSpeedMultiplier o).
Proof.
  intros Hs Hp. split; [apply speedLimit_nonneg; assumption|].
  unfold speedLimit. destruct panic; [apply Rmax_r | apply Rmax_l].
Qed.

(** A fish that starts so far beyond the wall at [x = areaSize / 2] that
    one tick cannot bring it back ends the tick 0.1 inside that wall. *)
Lemma update_beyond_right_wall delta s i :
  lockstep s -> (i < length (fishes s))%nat ->
  0 <= maxSpeed (options s) -> 0 <= panicSpeedMultiplier (options s) ->
  0 <= delta -> 0 <= areaSize (options s) ->
  areaSize (options s) * 0.5
  + 0.1 * Rmax (maxSpeed (options s))
               (maxSpeed (options s) * panicSpeedMultiplier (options s))
    < THREE.x (position (fishes s !!! i)) ->
  THREE.x (position (fishes (update delta s) !!! i)) = areaSize (options s) * 0.5 - 0.1.
Proof.
  intros Hlock Hi Hs Hp Hdelta Harea Hfar.
  destruct (integrated_agent delta s i Hlock Hi Hs Hp) as (_ & Hspeed & Hpos & Hfinal & _).
  rewrite position_agentAt in *. rewrite Hfinal.
  set (a9 := agentAt (integrateFish (Rmin delta 0.1) (reached delta s i) i) i) in *.
  clearbody a9.
  pose proof (speedLimit_le (options s) (aPanic a9) Hs Hp) as [_ Hlim].
  pose proof (abs_x_le_length (aVelocity a9)) as Hx.
  assert (0 <= Rmin delta 0.1 <= 0.1) as [Hdt0 Hdt1].
  { split; [apply Rmin_glb; lra | apply Rmin_r]. }
  set (dt := Rmin delta 0.1) in *. clearbody dt.
  set (L := Rmax (maxSpeed (options s))
                 (maxSpeed (options s) * panicSpeedMultiplier (options s))) in *.
  assert (0 <= L) as HL.
  { unfold L. eapply Rle_trans; [exact Hs | apply Rmax_l]. }
  clearbody L.
  assert (- L <= THREE.x (aVelocity a9)) as Hv.
  { pose proof (Rle_abs (- THREE.x (aVelocity a9))) as Hneg.
    rewrite Rabs_Ropp in Hneg. lra. }
  assert (areaSize (options s) * 0.5 < THREE.x (aPosition a9)) as Hout.
  { rewrite Hpos. unfold THREE.add, THREE.multiplyScalar. cbn [THREE.x].
    set (vx := THREE.x (aVelocity a9)) in *.
    set (px := THREE.x (aPosition (agentAt s i))) in *.
    clearbody vx px. nra. }
  unfold agentSoftBoundary, agentGentleBoundary.
  cbn [aPosition aVelocity setVelocity setAgentPosition THREE.x].
  unfold constrainAxis.
  rewrite (Rltb_false (THREE.x (aPosition a9))) by lra.
  rewrite (Rltb_true _ (THREE.x (aPosition a9))) by exact Hout.
  reflexivity.
Qed.

(** C2 (counterexample).  A box 0.05 wide (half extent 0.025), otherwise
    the default options without wander; one fish at rest at x = 50,
    outside the box; [update 0.1].  One tick moves the fish by at most
    0.1 * 400, so it is still beyond the wall when the hard clamp puts it
    at [halfExtent - 0.1]: when [update] returns the fish is at
    x = -0.075, outside the box on the other side. *)
Lemma C2_position_outside_narrow_box :
  let s := soloShoal (withAreaSize 0.05 calmOptions) None [] (Vec3 50 0 0) THREE.zero in
  lockstep s /\ finiteTick s
  /\ areaSize (options s) / 2 = 0.025
  /\ THREE.x (position (fishes (update 0.1 s) !!! 0%nat)) = -0.075
  /\ THREE.x (position (fishes (update 0.1 s) !!! 0%nat)) < - (areaSize (options s) / 2).
Proof.
  intros s.
  assert (lockstep s) as Hlock by apply soloShoal_lockstep.
  assert (THREE.x (position (fishes (update 0.1 s) !!! 0%nat))
          = areaSize (options s) * 0.5 - 0.1) as H.
  { apply (update_beyond_right_wall 0.1 s 0 Hlock); try (cbn; lra); [cbn; lia|].
    cbn. rewrite Rmax_right by lra. lra. }
  split; [exact Hlock|].
  split; [unfold finiteTick; cbn; repeat split; lra|].
  split; [cbn; lra|].
  rewrite H. cbn. split; lra.
Qed.

(** C2 (as amended).  For a shoal with parallel tracks whose divisors
    are not zero and whose speed limits are not negative, in a box that
    is at least 0.1 wide and 0.1 high: every fish is inside the box when
    [update] returns, on every axis, whatever the state and the time step
    were, [-areaSize/2 <= x, z <= areaSize/2] and
    [-height/2 <= y <= height/2]. *)
Theorem C2_position_within_bounds (delta : R) (s : MyShoal) (i : nat) :
  lockstep s -> (i < length (fishes s))%nat -> finiteTick s ->
  0.1 <= areaSize (options s) ->
  0.1 <= height (options s) ->
  let p := position (fishes (update delta s) !!! i) in
  let halfArea := areaSize (options s) / 2 in
  let halfHeight := height (options s) / 2 in
  length (fishes (update delta s)) = length (fishes s)
  /\ - halfArea <= THREE.x p <= halfArea
  /\ - halfHeight <= THREE.y p <= halfHeight
  /\ - halfArea <= THREE.z p <= halfArea.
Proof.
  intros _ Hi _ Harea Hheight p halfArea halfHeight.
  destruct (update_at delta s i Hi) as (si & Hsi & Hfinal).
  split.
  { rewrite (keeps_length_fishes _ _ _ Hfinal).
    rewrite (frame_length_fishes _ _ _ (updateFish_frame _ _ _ si i)).
    apply (keeps_length_fishes _ _ _ Hsi). }
  subst p. rewrite (keeps_fish _ _ _ Hfinal).
  unfold updateFish. rewrite softBoundary_position.
  - cbn [THREE.x THREE.y THREE.z].
    replace halfArea with (areaSize (options s) * 0.5) by (unfold halfArea; lra).
    replace halfHeight with (height (options s) * 0.5) by (unfold halfHeight; lra).
    repeat split; apply constrainAxis_within; lra.
  - rewrite (frame_length_fishes _ _ _ (gentleBoundary_frame _ _ _ i)).
    rewrite (frame_length_fishes _ _ _ (integrateFish_frame _ si i)).
    rewrite (keeps_length_fishes _ _ _ Hsi). exact Hi.
Qed.

(** The witness is a fish that starts 400 beyond the wall at x = 100: it
    reaches the hard clamp and ends the tick at x = 99.9. *)
Lemma C2_position_within_bounds_witness :
  let s := soloShoal defaults None [] (Vec3 500 0 0) THREE.zero in
  let p := position (fishes (update 0.1 s) !!! 0%nat) in
  (lockstep s /\ finiteTick s)
  /\ THREE.x p = 200 * 0.5 - 0.1
  /\ length (fishes (update 0.1 s)) = 1%nat
  /\ - (200 / 2) <= THREE.x p <= 200 / 2
  /\ - (100 / 2) <= THREE.y p <= 100 / 2
  /\ - (200 / 2) <= THREE.z p <= 200 / 2.
Proof.
  intros s p.
  assert (lockstep s) as Hlock by apply soloShoal_lockstep.
  assert (finiteTick s) as Hfin by apply soloShoal_finiteTick.
  split; [split; assumption|]. split.
  - apply (update_beyond_right_wall 0.1 s 0 Hlock); try (cbn; lra); [cbn; lia|].
    cbn. rewrite Rmax_right by lra. lra.
  - apply (C2_position_within_bounds 0.1 s 0 Hlock); [cbn; lia | exact Hfin | cbn; lra | cbn; lra].
Defined.

(** ** The pipeline, as amended *)

Lemma edgeShoal_updated :
  agentAt (update 0.1 edgeShoal) 0
  = {| aPosition := Vec3 0 (-37) 0; aVelocity := Vec3 0 80.175 0;
       aAcceleration := Vec3 0 9.5 0; aWanderAngle := 0;
       aPanic := false; aPanicTimer := 0 |}.
Proof.
  rewrite update_edgeShoal.
  replace (Rmin 0.1 0.1) with 0.1 by (rewrite Rmin_left; lra).
  rewrite updateFish_agent by apply edgeShoal_inRange.
  rewrite edgeShoal_integrated.
  unfold agentGentleBoundary, agentSoftBoundary, setVelocity, setAgentPosition,
    turnAxis, constrainAxis, boundaryMargin, turnStrength;
    cbn [aPosition aVelocity aAcceleration aWanderAngle aPanic aPanicTimer
         THREE.x THREE.y THREE.z].
  Rcmp. cbn [aPosition aVelocity aAcceleration aWanderAngle aPanic aPanicTimer
             THREE.x THREE.y THREE.z fst snd]. Rcmp. cbn [fst snd].
  apply Agent_eq; try reflexivity. apply Vec3_eq; lra.
Qed.

(** C7 (counterexample).  Default options but no wander, one fish at
    (0, -45, 0) rising at 80, [update 0.1].  The listed sequence (steps 1
    to 9: reset, panic decay, forces, velocity, speed clamp, position)
    leaves the fish at (0, -37, 0) with velocity (0, 80, 0).  [update]
    does not stop there: the boundary handling that follows in the same
    tick adds 0.175 to the vertical velocity, so the agent [update]
    leaves is not the one the listed sequence produces. *)
Lemma C7_update_continues_after_position_step :
  let afterSequence := agentAt (integrateFish 0.1 edgeShoal 0) 0 in
  let afterUpdate := agentAt (update 0.1 edgeShoal) 0 in
  reached 0.1 edgeShoal 0 = edgeShoal
  /\ aPosition afterSequence = Vec3 0 (-37) 0
  /\ aVelocity afterSequence = Vec3 0 80 0
  /\ aVelocity afterUpdate = Vec3 0 80.175 0
  /\ afterUpdate <> afterSequence.
Proof.
  intros afterSequence afterUpdate. subst afterSequence afterUpdate.
  rewrite edgeShoal_updated, edgeShoal_integrated.
  split; [reflexivity|]. split; [reflexivity|]. split; [reflexivity|].
  split; [reflexivity|].
  intros H. injection H. intros. lra.
Qed.

(** C7 (as amended).  For every call [update delta] on a shoal with
    parallel tracks whose divisors are not zero, and every agent [i],
    with [dt = min delta 0.1] whatever [delta] is.  The loop reaches the
    agent in the shoal [si = reached delta s i]: the agents before [i]
    are already as [update] leaves them, agent [i] and those after it are
    as they were when [update] was called, and the configuration, the
    terrain, the temple and the threats are those of [s].  On that shoal
    the acceleration of the agent is reset to zero, its panic timer is
    decremented and its panic cleared at zero ([s2]; positions and
    velocities are those of [si]); the five forces are computed, in this
    order, by [flock], [wander], [avoidTerrain], [avoidTemple] and
    [dangerEvasion] ([f]), leaving position and velocity as they were;
    the acceleration becomes the sum of the forces (wander and danger
    scaled by their weights) clamped to [2 * maxForce]; the velocity
    gains [acceleration * dt], the speed is clamped, and the position
    gains [velocity * dt].  The tick does not end there: what [update]
    leaves of the agent is this result passed through the two boundary
    steps. *)
Theorem C7_update_pipeline (delta : R) (s : MyShoal) (i : nat) :
  lockstep s -> (i < length (fishes s))%nat -> finiteTick s ->
  let dt := Rmin delta 0.1 in
  let o := options s in
  let halfArea := areaSize o * 0.5 in
  let halfHeight := height o * 0.5 in
  let si := reached delta s i in
  let s2 := updatePanicState (resetAcceleration si i) i in
  let sw := snd (wander s2 i) in
  let st := snd (avoidTemple sw i) in
  let s5 := snd (dangerEvasion st i) in
  let f := {| flockForce := flock s2 i;
              wanderForce := fst (wander s2 i);
              terrainForce := avoidTerrain sw i;
              templeForce := fst (avoidTemple sw i);
              dangerForce := fst (dangerEvasion st i) |} in
  let integrated :=
    spec_integratePosition dt
      (spec_clampSpeed o
         (spec_integrateVelocity dt
            (setAcceleration (spec_acceleration o f) (agentAt s5 i)))) in
  dt <= 0.1 /\ (delta <= 0.1 -> dt = delta) /\ (0.1 <= delta -> dt = 0.1)
  /\ (forall j, (i <= j)%nat -> agentAt si j = agentAt s j)
  /\ (forall j, (j < i)%nat -> agentAt si j = agentAt (update delta s) j)
  /\ (options si, terrain si, temple si, dangerousEntities si)
     = (options s, terrain s, temple s, dangerousEntities s)
  /\ matrixWorld si = matrixWorld s
  /\ fishes s2 = fishes si /\ velocities s2 = velocities si
  /\ agentAt s2 i = spec_panicDecay (spec_resetAcceleration (agentAt s i))
  /\ calculateForces s2 i = (f, s5)
  /\ (0 <= maxForce o -> THREE.length (spec_acceleration o f) <= 2 * maxForce o)
  /\ aPosition (agentAt s5 i) = aPosition (agentAt s i)
  /\ aVelocity (agentAt s5 i) = aVelocity (agentAt s i)
  /\ agentAt (integrateFish dt si i) i = integrated
  /\ agentAt (update delta s) i
     = agentSoftBoundary halfArea halfHeight
         (agentGentleBoundary halfArea halfHeight integrated).
Proof.
  intros Hlock Hi _ dt o halfArea halfHeight si s2 sw st s5 f integrated.
  split; [apply Rmin_r|].
  split; [intros H; apply Rmin_left, H|].
  split; [intros H; apply Rmin_right, H|].
  split; [intros j Hj; apply keeps_agentAt, reached_keeps, Hj|].
  split; [intros j Hj; symmetry; apply keeps_agentAt, reached_done; assumption|].
  destruct (reached_config delta s i) as (Osi & Tsi & Tesi & Esi & Msi).
  fold si in Osi, Tsi, Tesi, Esi, Msi.
  split; [rewrite Osi, Tsi, Tesi, Esi; reflexivity|].
  split; [exact Msi|].
  destruct (update_at_reached delta s i Hlock Hi) as [Rsi Hfinal].
  pose proof (keeps_agentAt _ _ _ (reached_keeps delta s i i (le_n i))) as Asi.
  fold si in Rsi, Hfinal, Asi.
  destruct (integrateFish_agent dt si i Rsi) as [A2 A9].
  fold s2 in A2, A9.
  pose proof (calculateForces_steps s2 i) as Hsteps.
  fold sw st s5 f in Hsteps.
  pose proof (calculateForces_writes s2 i) as (Hf & Hv & _).
  rewrite Hsteps in A9, Hf, Hv. cbn [fst snd] in A9, Hf, Hv.
  rewrite Osi, Asi in *. fold o integrated in A9.
  assert (fishes s2 = fishes si) as F2 by apply prepared_fishes.
  assert (velocities s2 = velocities si) as V2.
  { unfold s2, updatePanicState.
    destruct (panicMode (resetAcceleration si i) !!! i : bool); [|reflexivity].
    cbv zeta. destruct (Rleb _ 0); reflexivity. }
  split; [exact F2|]. split; [exact V2|].
  split; [exact A2|]. split; [exact Hsteps|].
  clearbody s5 f. clearbody sw st. clearbody s2. clearbody si.
  split; [intros HmaxForce; apply length_clampLength; lra|].
  split; [cbn [agentAt aPosition]; rewrite Hf;
          change (position (fishes s2 !!! i)) with (aPosition (agentAt s2 i));
          rewrite A2; reflexivity|].
  split; [cbn [agentAt aVelocity]; rewrite Hv;
          change (velocities s2 !!! i) with (aVelocity (agentAt s2 i));
          rewrite A2; reflexivity|].
  split; [exact A9|].
  rewrite Hfinal. fold dt. rewrite A9. reflexivity.
Qed.

Lemma C7_update_pipeline_witness :
  let s := soloShoal defaults None [nearThreat] THREE.zero (Vec3 1 0 0) in
  let o := options s in
  let s2 := updatePanicState (resetAcceleration (reached 0.5 s 0) 0) 0 in
  let sw := snd (wander s2 0) in
  let st := snd (avoidTemple sw 0) in
  let f := {| flockForce := flock s2 0;
              wanderForce := fst (wander s2 0);
              terrainForce := avoidTerrain sw 0;
              templeForce := fst (avoidTemple sw 0);
              dangerForce := fst (dangerEvasion st 0) |} in
  (lockstep s /\ (0 < length (fishes s))%nat /\ finiteTick s)
  /\ calculateForces s2 0 = (f, snd (dangerEvasion st 0))
  /\ agentAt (update 0.5 s) 0
     = agentSoftBoundary (areaSize o * 0.5) (height o * 0.5)
         (agentGentleBoundary (areaSize o * 0.5) (height o * 0.5)
            (spec_integratePosition (Rmin 0.5 0.1)
               (spec_clampSpeed o
                  (spec_integrateVelocity (Rmin 0.5 0.1)
                     (setAcceleration (spec_acceleration o f)
                        (agentAt (snd (dangerEvasion st 0)) 0)))))).
Proof.
  intros s o s2 sw st f.
  assert (lockstep s) as Hlock by apply soloShoal_lockstep.
  assert (0 < length (fishes s))%nat as Hi by (cbn; lia).
  assert (finiteTick s) as Hfin by apply soloShoal_finiteTick.
  split; [split; [|split]; assumption|].
  destruct (C7_update_pipeline 0.5 s 0 Hlock Hi Hfin)
    as (_ & _ & _ & _ & _ & _ & _ & _ & _ & _ & Hsteps & _ & _ & _ & _ & Hfinal).
  split; [exact Hsteps | exact Hfinal].
Defined.
